(** * Barrel: stake-weighted consensus and settlement

    A shallow embedding of the [BarrelConsensus] contract together with the
    [BarrelToken] ledger it escrows stakes in, and the properties of the
    proposal life cycle, the quorum rule and the settlement of stakes.

    Storage mappings of the contracts are finite maps read with a zero
    default, unsigned 256-bit arithmetic is written out with its overflow
    panic (or its wrap-around inside [unchecked] blocks), and every external
    function is a function from the world before the call to either the
    world after it or the error the call reverts with. *)

From Stdlib Require Import NArith Lia Bool List.
From stdpp Require Import base option numbers list gmap.
Import ListNotations.

Local Open Scope N_scope.

(** ** Machine integers and revert reasons *)

Abbreviation address := N.
Abbreviation bytes32 := N.
Abbreviation uint256 := N.

Definition MAX_UINT256 : N := 2 ^ 256 - 1.

(** Custom errors of the two contracts, and the arithmetic panic of
    checked Solidity 0.8 arithmetic.  The errors of the ledger carry the
    prefix [Token] to tell them from the engine's ([NotOwner] and
    [ZeroAddress] are declared by both contracts). *)
Inductive Error : Set :=
| NotOwner
| NotRegisteredAgent
| AgentOnCooldown
| ProposalNotActive
| ProposalNotFinalized
| AlreadyStaked
| AlreadyClaimed
| InsufficientStake
| ZeroAddress
| Panic
| TokenNotOwner
| TokenMintingFinished
| TokenInsufficientBalance
| TokenInsufficientAllowance
| TokenZeroAddress.

Inductive result (A : Type) : Type :=
| Ok (a : A)
| Err (e : Error).
Arguments Ok {A} a.
Arguments Err {A} e.

Definition bind {A B} (r : result A) (k : A -> result B) : result B :=
  match r with
  | Ok a => k a
  | Err e => Err e
  end.

Notation "x <- r ;; k" := (bind r (fun x => k))
  (at level 100, r at next level, right associativity).
Notation "'when' c 'revert' e ;; k" := (if c then Err e else k)
  (at level 100, c at level 0, e at level 0, right associativity).

Definition add256 (x y : uint256) : result uint256 :=
  if x + y <=? MAX_UINT256 then Ok (x + y) else Err Panic.

Definition sub256 (x y : uint256) : result uint256 :=
  if y <=? x then Ok (x - y) else Err Panic.

Definition mul256 (x y : uint256) : result uint256 :=
  if x * y <=? MAX_UINT256 then Ok (x * y) else Err Panic.

(** Addition inside an [unchecked] block. *)
Definition wrap256 (x : N) : uint256 := x mod 2 ^ 256.

(** ** The token ledger ([BarrelToken]) *)

Module Token.

Inductive TokenEvent : Set :=
| Transfer (from to : address) (value : uint256)
| Approval (tokenOwner spender : address) (value : uint256).

Record State : Type := mkState {
  _totalSupply : uint256;
  _balances : gmap N N;
  _allowances : gmap (N * N) N;
  owner : address;
  mintingFinished : bool;
  logs : list TokenEvent
}.

Definition balanceOf (t : State) (account : address) : uint256 :=
  default 0 (_balances t !! account).

Definition allowance (t : State) (tokenOwner spender : address) : uint256 :=
  default 0 (_allowances t !! (tokenOwner, spender)).

Definition set_balances (t : State) (b : gmap N N) : State :=
  mkState (_totalSupply t) b (_allowances t) (owner t) (mintingFinished t) (logs t).

Definition set_allowances (t : State) (a : gmap (N * N) N) : State :=
  mkState (_totalSupply t) (_balances t) a (owner t) (mintingFinished t) (logs t).

Definition set_totalSupply (t : State) (n : uint256) : State :=
  mkState n (_balances t) (_allowances t) (owner t) (mintingFinished t) (logs t).

Definition emit (t : State) (e : TokenEvent) : State :=
  mkState (_totalSupply t) (_balances t) (_allowances t) (owner t)
          (mintingFinished t) (logs t ++ [e]).

Definition _transfer (t : State) (from to : address) (amount : uint256)
  : result State :=
  when (from =? 0) revert TokenZeroAddress ;;
  when (to =? 0) revert TokenZeroAddress ;;
  let fromBalance := balanceOf t from in
  when (fromBalance <? amount) revert TokenInsufficientBalance ;;
  let t1 := set_balances t (<[from := fromBalance - amount]> (_balances t)) in
  let t2 := set_balances t1
              (<[to := wrap256 (balanceOf t1 to + amount)]> (_balances t1)) in
  Ok (emit t2 (Transfer from to amount)).

Definition _approve (t : State) (tokenOwner spender : address)
  (amount : uint256) : result State :=
  when (tokenOwner =? 0) revert TokenZeroAddress ;;
  when (spender =? 0) revert TokenZeroAddress ;;
  let t1 := set_allowances t (<[(tokenOwner, spender) := amount]> (_allowances t)) in
  Ok (emit t1 (Approval tokenOwner spender amount)).

Definition transfer (sender : address) (t : State) (to : address)
  (amount : uint256) : result State :=
  _transfer t sender to amount.

Definition approve (sender : address) (t : State) (spender : address)
  (amount : uint256) : result State :=
  _approve t sender spender amount.

Definition transferFrom (sender : address) (t : State) (from to : address)
  (amount : uint256) : result State :=
  let currentAllowance := allowance t from sender in
  t1 <- (if currentAllowance =? MAX_UINT256 then Ok t
         else
           when (currentAllowance <? amount) revert TokenInsufficientAllowance ;;
           _approve t from sender (currentAllowance - amount)) ;;
  _transfer t1 from to amount.

Definition mint (sender : address) (t : State) (to : address)
  (amount : uint256) : result State :=
  when (negb (sender =? owner t)) revert TokenNotOwner ;;
  when (mintingFinished t) revert TokenMintingFinished ;;
  when (to =? 0) revert TokenZeroAddress ;;
  supply <- add256 (_totalSupply t) amount ;;
  bal <- add256 (balanceOf t to) amount ;;
  let t1 := set_totalSupply t supply in
  let t2 := set_balances t1 (<[to := bal]> (_balances t1)) in
  Ok (emit t2 (Transfer 0 to amount)).

(** The ledger right after [constructor()]. *)
Definition deploy (deployer : address) : State :=
  mkState 0 ∅ ∅ deployer false [].

End Token.

(** ** The consensus engine ([BarrelConsensus]) *)

Module Consensus.

Inductive ProposalStatus : Set := Pending | Executed | Expired | Rejected.
Inductive TradeDirection : Set := Long | Short | Hold.

Record Proposal : Type := mkProposal {
  id : bytes32;
  token : address;
  direction : TradeDirection;
  createdAt : uint256;
  expiresAt : uint256;
  totalStakeFor : uint256;
  totalStakeAgainst : uint256;
  status : ProposalStatus;
  creator : address
}.

Record Stake : Type := mkStake {
  amount : uint256;
  isFor : bool;
  claimed : bool
}.

Record AgentInfo : Type := mkAgentInfo {
  registered : bool;
  totalStaked : uint256;
  wins : uint256;
  losses : uint256;
  cooldownUntil : uint256
}.

Definition QUORUM_BPS : uint256 := 6600.
Definition PROPOSAL_TIMEOUT : uint256 := 30.
Definition COOLDOWN_PERIOD : uint256 := 60.
Definition SLASH_BPS : uint256 := 1000.
Definition REWARD_BPS : uint256 := 500.

Inductive Event : Set :=
| ProposalCreated (id : bytes32) (token : address) (direction : TradeDirection)
                  (agent : address)
| StakePlaced (proposalId : bytes32) (agent : address) (amount : uint256)
              (isFor : bool)
| ConsensusReached (proposalId : bytes32) (direction : TradeDirection)
                   (totalStake : uint256)
| ProposalExpired (proposalId : bytes32)
| ProposalRejected (proposalId : bytes32)
| AgentRegistered (agent : address)
| AgentSlashed (agent : address) (amount : uint256)
| RewardClaimed (agent : address) (proposalId : bytes32) (amount : uint256)
| VaultUpdated (newVault : address).

Record State : Type := mkState {
  vault : address;
  owner : address;
  proposals : gmap N Proposal;
  stakes : gmap (N * N) Stake;
  proposalStakers : gmap N (list N);
  agents : gmap N AgentInfo;
  activeProposalIds : list N;
  allProposalIds : list N;
  events : list Event
}.

(** Calls the engine makes to its collaborators: the token ledger and the
    vault declared by [IBarrelVault]. *)
Inductive ExtCall : Set :=
| CallTransferFrom (from to : address) (amount : uint256)
| CallTransfer (to : address) (amount : uint256)
| CallExecuteSimpleTrade (proposalId : bytes32) (tokenIn tokenOut : address)
                         (amountIn : uint256).

(** The engine, the ledger it was deployed with, and the trace of the
    engine's outgoing calls. *)
Record World : Type := mkWorld {
  engine : State;
  ledger : Token.State;
  calls : list ExtCall
}.

(** The execution context of a call: the engine's own address
    ([address(this)]), the identifier derivation
    [keccak256(abi.encodePacked(token, direction, block.timestamp, msg.sender))],
    the caller and the block timestamp. *)
Record Env : Type := mkEnv {
  this : address;
  keccak256 : address -> TradeDirection -> uint256 -> address -> bytes32;
  msg_sender : address;
  block_timestamp : uint256
}.

(** *** Storage reads (a mapping reads as zero where nothing was written) *)

Definition zeroProposal : Proposal :=
  mkProposal 0 0 Long 0 0 0 0 Pending 0.
Definition zeroStake : Stake := mkStake 0 false false.
Definition zeroAgent : AgentInfo := mkAgentInfo false 0 0 0 0.

Definition getProposal (s : State) (proposalId : bytes32) : Proposal :=
  default zeroProposal (proposals s !! proposalId).
Definition getStake (s : State) (proposalId : bytes32) (agent : address) : Stake :=
  default zeroStake (stakes s !! (proposalId, agent)).
Definition getAgentInfo (s : State) (agent : address) : AgentInfo :=
  default zeroAgent (agents s !! agent).
Definition getProposalStakers (s : State) (proposalId : bytes32) : list N :=
  default [] (proposalStakers s !! proposalId).
Definition getActiveProposalCount (s : State) : nat := length (activeProposalIds s).
Definition getAllProposalCount (s : State) : nat := length (allProposalIds s).

(** *** Storage writes *)

Definition set_vault (s : State) (v : address) : State :=
  mkState v (owner s) (proposals s) (stakes s) (proposalStakers s) (agents s)
          (activeProposalIds s) (allProposalIds s) (events s).
Definition set_owner (s : State) (o : address) : State :=
  mkState (vault s) o (proposals s) (stakes s) (proposalStakers s) (agents s)
          (activeProposalIds s) (allProposalIds s) (events s).
Definition set_proposal (s : State) (proposalId : bytes32) (p : Proposal) : State :=
  mkState (vault s) (owner s) (<[proposalId := p]> (proposals s)) (stakes s)
          (proposalStakers s) (agents s) (activeProposalIds s)
          (allProposalIds s) (events s).
Definition set_stake (s : State) (proposalId : bytes32) (agent : address)
  (k : Stake) : State :=
  mkState (vault s) (owner s) (proposals s)
          (<[(proposalId, agent) := k]> (stakes s))
          (proposalStakers s) (agents s) (activeProposalIds s)
          (allProposalIds s) (events s).
Definition push_staker (s : State) (proposalId : bytes32) (agent : address) : State :=
  mkState (vault s) (owner s) (proposals s) (stakes s)
          (<[proposalId := getProposalStakers s proposalId ++ [agent]]>
             (proposalStakers s))
          (agents s) (activeProposalIds s) (allProposalIds s) (events s).
Definition set_agent (s : State) (agent : address) (a : AgentInfo) : State :=
  mkState (vault s) (owner s) (proposals s) (stakes s) (proposalStakers s)
          (<[agent := a]> (agents s)) (activeProposalIds s)
          (allProposalIds s) (events s).
Definition set_active (s : State) (l : list N) : State :=
  mkState (vault s) (owner s) (proposals s) (stakes s) (proposalStakers s)
          (agents s) l (allProposalIds s) (events s).
Definition set_all (s : State) (l : list N) : State :=
  mkState (vault s) (owner s) (proposals s) (stakes s) (proposalStakers s)
          (agents s) (activeProposalIds s) l (events s).
Definition emit (s : State) (e : Event) : State :=
  mkState (vault s) (owner s) (proposals s) (stakes s) (proposalStakers s)
          (agents s) (activeProposalIds s) (allProposalIds s) (events s ++ [e]).

Definition with_status (p : Proposal) (st : ProposalStatus) : Proposal :=
  mkProposal (id p) (token p) (direction p) (createdAt p) (expiresAt p)
             (totalStakeFor p) (totalStakeAgainst p) st (creator p).
Definition with_totalStakeFor (p : Proposal) (n : uint256) : Proposal :=
  mkProposal (id p) (token p) (direction p) (createdAt p) (expiresAt p)
             n (totalStakeAgainst p) (status p) (creator p).
Definition with_totalStakeAgainst (p : Proposal) (n : uint256) : Proposal :=
  mkProposal (id p) (token p) (direction p) (createdAt p) (expiresAt p)
             (totalStakeFor p) n (status p) (creator p).
Definition with_claimed (k : Stake) (b : bool) : Stake :=
  mkStake (amount k) (isFor k) b.
Definition with_registered (a : AgentInfo) (b : bool) : AgentInfo :=
  mkAgentInfo b (totalStaked a) (wins a) (losses a) (cooldownUntil a).
Definition with_totalStaked (a : AgentInfo) (n : uint256) : AgentInfo :=
  mkAgentInfo (registered a) n (wins a) (losses a) (cooldownUntil a).
Definition with_wins (a : AgentInfo) (n : uint256) : AgentInfo :=
  mkAgentInfo (registered a) (totalStaked a) n (losses a) (cooldownUntil a).
Definition with_losses (a : AgentInfo) (n : uint256) : AgentInfo :=
  mkAgentInfo (registered a) (totalStaked a) (wins a) n (cooldownUntil a).
Definition with_cooldownUntil (a : AgentInfo) (n : uint256) : AgentInfo :=
  mkAgentInfo (registered a) (totalStaked a) (wins a) (losses a) n.

Definition set_engine (w : World) (s : State) : World :=
  mkWorld s (ledger w) (calls w).

Definition status_eqb (a b : ProposalStatus) : bool :=
  match a, b with
  | Pending, Pending | Executed, Executed
  | Expired, Expired | Rejected, Rejected => true
  | _, _ => false
  end.

Definition direction_eqb (a b : TradeDirection) : bool :=
  match a, b with
  | Long, Long | Short, Short | Hold, Hold => true
  | _, _ => false
  end.

(** *** [_removeFromActive]: swap the first occurrence with the last entry
    and pop. *)

Fixpoint index_of (proposalId : bytes32) (l : list N) (i : nat) : option nat :=
  match l with
  | [] => None
  | x :: l' => if x =? proposalId then Some i else index_of proposalId l' (S i)
  end.

Definition _removeFromActive (s : State) (proposalId : bytes32) : State :=
  let l := activeProposalIds s in
  match index_of proposalId l 0 with
  | Some i =>
      match last l with
      | Some z => set_active s (removelast (<[i := z]> l))
      | None => s
      end
  | None => s
  end.

(** *** Calls into the ledger, made with the engine as [msg.sender] *)

Definition token_transferFrom (e : Env) (w : World) (from to : address)
  (amount : uint256) : result World :=
  t <- Token.transferFrom (this e) (ledger w) from to amount ;;
  Ok (mkWorld (engine w) t (calls w ++ [CallTransferFrom from to amount])).

Definition token_transfer (e : Env) (w : World) (to : address)
  (amount : uint256) : result World :=
  t <- Token.transfer (this e) (ledger w) to amount ;;
  Ok (mkWorld (engine w) t (calls w ++ [CallTransfer to amount])).

(** *** [_checkConsensus] *)

Definition _checkConsensus (s : State) (proposalId : bytes32) : result State :=
  let proposal := getProposal s proposalId in
  totalStake <- add256 (totalStakeFor proposal) (totalStakeAgainst proposal) ;;
  if totalStake =? 0 then Ok s else
  forScaled <- mul256 (totalStakeFor proposal) 10000 ;;
  let forPercentage := forScaled / totalStake in
  againstScaled <- mul256 (totalStakeAgainst proposal) 10000 ;;
  let againstPercentage := againstScaled / totalStake in
  if QUORUM_BPS <=? forPercentage then
    let s1 := set_proposal s proposalId (with_status proposal Executed) in
    let s2 := _removeFromActive s1 proposalId in
    let s3 := emit s2 (ConsensusReached proposalId (direction proposal)
                                        (totalStakeFor proposal)) in
    if negb (direction_eqb (direction proposal) Hold) && negb (vault s3 =? 0)
    then Ok s3 (* the vault call is commented out in the source *)
    else Ok s3
  else if QUORUM_BPS <=? againstPercentage then
    let s1 := set_proposal s proposalId (with_status proposal Rejected) in
    let s2 := _removeFromActive s1 proposalId in
    Ok (emit s2 (ProposalRejected proposalId))
  else Ok s.

(** *** [createProposal] *)

Definition createProposal (e : Env) (w : World) (token : address)
  (direction : TradeDirection) (initialStake : uint256)
  : result (World * bytes32) :=
  let s := engine w in
  let sender := msg_sender e in
  when (negb (registered (getAgentInfo s sender))) revert NotRegisteredAgent ;;
  when (block_timestamp e <? cooldownUntil (getAgentInfo s sender))
    revert AgentOnCooldown ;;
  when (initialStake =? 0) revert InsufficientStake ;;
  let proposalId := keccak256 e token direction (block_timestamp e) sender in
  expires <- add256 (block_timestamp e) PROPOSAL_TIMEOUT ;;
  let s1 := set_proposal s proposalId
              (mkProposal proposalId token direction (block_timestamp e)
                          expires initialStake 0 Pending sender) in
  let s2 := set_stake s1 proposalId sender (mkStake initialStake true false) in
  let s3 := push_staker s2 proposalId sender in
  staked <- add256 (totalStaked (getAgentInfo s3 sender)) initialStake ;;
  let s4 := set_agent s3 sender (with_totalStaked (getAgentInfo s3 sender) staked) in
  w1 <- token_transferFrom e (set_engine w s4) sender (this e) initialStake ;;
  let s5 := set_active (engine w1) (activeProposalIds (engine w1) ++ [proposalId]) in
  let s6 := set_all s5 (allProposalIds s5 ++ [proposalId]) in
  let s7 := emit s6 (ProposalCreated proposalId token direction sender) in
  let s8 := emit s7 (StakePlaced proposalId sender initialStake true) in
  Ok (set_engine w1 s8, proposalId).

(** *** [stake] *)

Definition stake (e : Env) (w : World) (proposalId : bytes32)
  (amount : uint256) (isFor : bool) : result World :=
  let s := engine w in
  let sender := msg_sender e in
  when (negb (registered (getAgentInfo s sender))) revert NotRegisteredAgent ;;
  let proposal := getProposal s proposalId in
  when (negb (status_eqb (status proposal) Pending)) revert ProposalNotActive ;;
  when (expiresAt proposal <=? block_timestamp e) revert ProposalNotActive ;;
  when (0 <? Consensus.amount (getStake s proposalId sender)) revert AlreadyStaked ;;
  when (amount =? 0) revert InsufficientStake ;;
  let s1 := set_stake s proposalId sender (mkStake amount isFor false) in
  let s2 := push_staker s1 proposalId sender in
  staked <- add256 (totalStaked (getAgentInfo s2 sender)) amount ;;
  let s3 := set_agent s2 sender (with_totalStaked (getAgentInfo s2 sender) staked) in
  s4 <- (if isFor then
           total <- add256 (totalStakeFor (getProposal s3 proposalId)) amount ;;
           Ok (set_proposal s3 proposalId
                 (with_totalStakeFor (getProposal s3 proposalId) total))
         else
           total <- add256 (totalStakeAgainst (getProposal s3 proposalId)) amount ;;
           Ok (set_proposal s3 proposalId
                 (with_totalStakeAgainst (getProposal s3 proposalId) total))) ;;
  w1 <- token_transferFrom e (set_engine w s4) sender (this e) amount ;;
  let s5 := emit (engine w1) (StakePlaced proposalId sender amount isFor) in
  s6 <- _checkConsensus s5 proposalId ;;
  Ok (set_engine w1 s6).

(** *** [claimRewards]

    [settle] is the body up to the point where the payout is known: every
    storage write of the function happens here.  [transfer_payout] then
    makes the only external call, and only for a non-zero payout. *)

Definition settle (e : Env) (s : State) (proposalId : bytes32)
  : result (State * uint256) :=
  let sender := msg_sender e in
  let proposal := getProposal s proposalId in
  let userStake := getStake s proposalId sender in
  when (status_eqb (status proposal) Pending) revert ProposalNotFinalized ;;
  when (amount userStake =? 0) revert InsufficientStake ;;
  when (claimed userStake) revert AlreadyClaimed ;;
  let s1 := set_stake s proposalId sender (with_claimed userStake true) in
  let wasWinner :=
    (status_eqb (status proposal) Executed && isFor userStake)
    || (status_eqb (status proposal) Rejected && negb (isFor userStake)) in
  if wasWinner then
    scaled <- mul256 (amount userStake) REWARD_BPS ;;
    let bonus := scaled / 10000 in
    payout <- add256 (amount userStake) bonus ;;
    w <- add256 (wins (getAgentInfo s1 sender)) 1 ;;
    let s2 := set_agent s1 sender (with_wins (getAgentInfo s1 sender) w) in
    Ok (emit s2 (RewardClaimed sender proposalId payout), payout)
  else if status_eqb (status proposal) Expired then
    Ok (s1, amount userStake)
  else
    scaled <- mul256 (amount userStake) SLASH_BPS ;;
    let slash := scaled / 10000 in
    payout <- sub256 (amount userStake) slash ;;
    l <- add256 (losses (getAgentInfo s1 sender)) 1 ;;
    let s2 := set_agent s1 sender (with_losses (getAgentInfo s1 sender) l) in
    until <- add256 (block_timestamp e) COOLDOWN_PERIOD ;;
    let s3 := set_agent s2 sender
                (with_cooldownUntil (getAgentInfo s2 sender) until) in
    Ok (emit s3 (AgentSlashed sender slash), payout).

(** The closing lines of [claimRewards]:
    [if (payout > 0) barrelToken.transfer(msg.sender, payout)]. *)
Definition transfer_payout (e : Env) (w : World) (payout : uint256)
  : result World :=
  if 0 <? payout then token_transfer e w (msg_sender e) payout else Ok w.

Definition claimRewards (e : Env) (w : World) (proposalId : bytes32)
  : result World :=
  sp <- settle e (engine w) proposalId ;;
  transfer_payout e (set_engine w (fst sp)) (snd sp).

(** *** [expireProposal] *)

Definition expireProposal (e : Env) (w : World) (proposalId : bytes32)
  : result World :=
  let s := engine w in
  let proposal := getProposal s proposalId in
  when (negb (status_eqb (status proposal) Pending)) revert ProposalNotActive ;;
  when (block_timestamp e <? expiresAt proposal) revert ProposalNotFinalized ;;
  let s1 := set_proposal s proposalId (with_status proposal Expired) in
  let s2 := _removeFromActive s1 proposalId in
  Ok (set_engine w (emit s2 (ProposalExpired proposalId))).

(** *** Admin functions *)

Definition registerAgent (e : Env) (w : World) (agent : address) : result World :=
  let s := engine w in
  when (negb (msg_sender e =? owner s)) revert NotOwner ;;
  when (agent =? 0) revert ZeroAddress ;;
  let s1 := set_agent s agent (with_registered (getAgentInfo s agent) true) in
  Ok (set_engine w (emit s1 (AgentRegistered agent))).

Definition setVault (e : Env) (w : World) (_vault : address) : result World :=
  let s := engine w in
  when (negb (msg_sender e =? owner s)) revert NotOwner ;;
  Ok (set_engine w (emit (set_vault s _vault) (VaultUpdated _vault))).

Definition renounceOwnership (e : Env) (w : World) : result World :=
  let s := engine w in
  when (negb (msg_sender e =? owner s)) revert NotOwner ;;
  Ok (set_engine w (set_owner s 0)).

(** The engine right after [constructor(_barrelToken, _vault)]. *)
Definition deploy (deployer _vault : address) : State :=
  mkState _vault deployer ∅ ∅ ∅ ∅ [] [] [].

End Consensus.

(** ** Derived descriptions of the engine's behaviour

    Closed forms of what each function leaves in storage, used to state
    the properties below. *)

Module Outcome.
Import Consensus.

(** The quorum rule in the words of the specification: no decision on an
    empty proposal; otherwise shares in basis points by integer division,
    the "for" side examined first.  [Pending] stands for "no decision". *)
Definition quorum_rule (forTotal againstTotal : N) : ProposalStatus :=
  let total := forTotal + againstTotal in
  if total =? 0 then Pending
  else if 6600 <=? forTotal * 10000 / total then Executed
  else if 6600 <=? againstTotal * 10000 / total then Rejected
  else Pending.

(** The engine after [_checkConsensus] has reached the decision [st]. *)
Definition finalized (s : State) (proposalId : bytes32) (st : ProposalStatus)
  : State :=
  let p := getProposal s proposalId in
  let s1 := _removeFromActive
              (set_proposal s proposalId (with_status p st)) proposalId in
  match st with
  | Executed =>
      emit s1 (ConsensusReached proposalId (direction p) (totalStakeFor p))
  | Rejected => emit s1 (ProposalRejected proposalId)
  | _ => s
  end.

(** The proposal record after [amount] has been added to one side. *)
Definition backed (p : Proposal) (amount : uint256) (isFor : bool) : Proposal :=
  if isFor then with_totalStakeFor p (totalStakeFor p + amount)
  else with_totalStakeAgainst p (totalStakeAgainst p + amount).

(** The engine after the storage writes of [stake], before the consensus
    check runs. *)
Definition staked (e : Env) (s : State) (proposalId : bytes32)
  (amount : uint256) (isFor : bool) : State :=
  let u := msg_sender e in
  let s1 := set_stake s proposalId u (mkStake amount isFor false) in
  let s2 := push_staker s1 proposalId u in
  let s3 := set_agent s2 u
              (with_totalStaked (getAgentInfo s u)
                                (totalStaked (getAgentInfo s u) + amount)) in
  let s4 := set_proposal s3 proposalId
              (backed (getProposal s proposalId) amount isFor) in
  emit s4 (StakePlaced proposalId u amount isFor).

(** The record [createProposal] writes. *)
Definition fresh_proposal (e : Env) (token : address)
  (direction : TradeDirection) (initialStake : uint256) : Proposal :=
  let now := block_timestamp e in
  mkProposal (keccak256 e token direction now (msg_sender e)) token direction
             now (now + PROPOSAL_TIMEOUT) initialStake 0 Pending (msg_sender e).

(** The engine after a successful [createProposal]. *)
Definition created (e : Env) (s : State) (token : address)
  (direction : TradeDirection) (initialStake : uint256) : State :=
  let u := msg_sender e in
  let p := fresh_proposal e token direction initialStake in
  let s1 := set_proposal s (id p) p in
  let s2 := set_stake s1 (id p) u (mkStake initialStake true false) in
  let s3 := push_staker s2 (id p) u in
  let s4 := set_agent s3 u
              (with_totalStaked (getAgentInfo s u)
                                (totalStaked (getAgentInfo s u) + initialStake)) in
  let s5 := set_active s4 (activeProposalIds s4 ++ [id p]) in
  let s6 := set_all s5 (allProposalIds s5 ++ [id p]) in
  let s7 := emit s6 (ProposalCreated (id p) token direction u) in
  emit s7 (StakePlaced (id p) u initialStake true).

(** How [claimRewards] classifies a stake on a finalized proposal. *)
Inductive Verdict : Set := Winner | Refund | Loser.

Definition classify (st : ProposalStatus) (k : Stake) : Verdict :=
  if (status_eqb st Executed && isFor k)
     || (status_eqb st Rejected && negb (isFor k))
  then Winner
  else if status_eqb st Expired then Refund
  else Loser.

Definition bonus_of (k : Stake) : uint256 := amount k * REWARD_BPS / 10000.
Definition slash_of (k : Stake) : uint256 := amount k * SLASH_BPS / 10000.

Definition payout_of (st : ProposalStatus) (k : Stake) : uint256 :=
  match classify st k with
  | Winner => amount k + bonus_of k
  | Refund => amount k
  | Loser => amount k - slash_of k
  end.

(** The agent record after its stake has been settled at time [now]. *)
Definition settled_agent (now : uint256) (v : Verdict) (a : AgentInfo)
  : AgentInfo :=
  match v with
  | Winner => with_wins a (wins a + 1)
  | Refund => a
  | Loser =>
      with_cooldownUntil (with_losses a (losses a + 1)) (now + COOLDOWN_PERIOD)
  end.

(** The events a settlement emits. *)
Definition settlement_events (u : address) (proposalId : bytes32)
  (st : ProposalStatus) (k : Stake) : list Event :=
  match classify st k with
  | Winner => [RewardClaimed u proposalId (payout_of st k)]
  | Refund => []
  | Loser => [AgentSlashed u (slash_of k)]
  end.

Definition is_venue_call (c : ExtCall) : bool :=
  match c with CallExecuteSimpleTrade _ _ _ _ => true | _ => false end.

(** Sums over the stakers of one proposal. *)
Fixpoint sum_over (f : Stake -> N) (s : State) (proposalId : bytes32)
  (stakers : list N) : N :=
  match stakers with
  | [] => 0
  | a :: l => f (getStake s proposalId a) + sum_over f s proposalId l
  end.

(** Storage invariants of the engine: whoever holds a stake, or has been
    put on cooldown, is a registered agent. *)
Definition stakers_registered (s : State) : Prop :=
  forall proposalId a,
    amount (getStake s proposalId a) <> 0 ->
    registered (getAgentInfo s a) = true.

Definition cooled_registered (s : State) : Prop :=
  forall a,
    cooldownUntil (getAgentInfo s a) <> 0 ->
    registered (getAgentInfo s a) = true.

End Outcome.

(** ** Transactions and executions

    A chain is the deployed pair of contracts plus the block timestamp.
    A step either lets time pass or submits one external call; a call that
    reverts leaves every contract as it was. *)

Module Chain.
Import Consensus.

Inductive Call : Type :=
| CreateProposal (token : address) (direction : TradeDirection)
                 (initialStake : uint256)
| PlaceStake (proposalId : bytes32) (amount : uint256) (isFor : bool)
| ClaimRewards (proposalId : bytes32)
| ExpireProposal (proposalId : bytes32)
| RegisterAgent (agent : address)
| SetVault (_vault : address)
| RenounceOwnership
| TokenMint (to : address) (amount : uint256)
| TokenApprove (spender : address) (amount : uint256)
| TokenTransfer (to : address) (amount : uint256)
| TokenTransferFrom (from to : address) (amount : uint256).

Inductive Step : Type :=
| Warp (seconds : N)
| Transact (sender : address) (c : Call).

Record State : Type := mkChain {
  self : address;
  hash : address -> TradeDirection -> uint256 -> address -> bytes32;
  world : World;
  now : uint256
}.

Definition env_of (c : State) (sender : address) : Env :=
  mkEnv (self c) (hash c) sender (now c).

Definition on_ledger (w : World) (r : result Token.State) : result World :=
  t <- r ;; Ok (mkWorld (engine w) t (calls w)).

Definition exec (e : Env) (w : World) (c : Call) : result World :=
  match c with
  | CreateProposal token direction initialStake =>
      r <- createProposal e w token direction initialStake ;; Ok (fst r)
  | PlaceStake proposalId amount isFor => stake e w proposalId amount isFor
  | ClaimRewards proposalId => claimRewards e w proposalId
  | ExpireProposal proposalId => expireProposal e w proposalId
  | RegisterAgent agent => registerAgent e w agent
  | SetVault v => setVault e w v
  | RenounceOwnership => renounceOwnership e w
  | TokenMint to amount =>
      on_ledger w (Token.mint (msg_sender e) (ledger w) to amount)
  | TokenApprove spender amount =>
      on_ledger w (Token.approve (msg_sender e) (ledger w) spender amount)
  | TokenTransfer to amount =>
      on_ledger w (Token.transfer (msg_sender e) (ledger w) to amount)
  | TokenTransferFrom from to amount =>
      on_ledger w (Token.transferFrom (msg_sender e) (ledger w) from to amount)
  end.

Definition step (c : State) (st : Step) : State :=
  match st with
  | Warp seconds => mkChain (self c) (hash c) (world c) (now c + seconds)
  | Transact sender call =>
      match exec (env_of c sender) (world c) call with
      | Ok w => mkChain (self c) (hash c) w (now c)
      | Err _ => c
      end
  end.

Definition run (c : State) (l : list Step) : State := fold_left step l c.

(** Both contracts deployed by [deployer] at time [t0]. *)
Definition genesis (self_ : address)
  (hash_ : address -> TradeDirection -> uint256 -> address -> bytes32)
  (deployer _vault : address) (t0 : uint256) : State :=
  mkChain self_ hash_
          (mkWorld (Consensus.deploy deployer _vault) (Token.deploy deployer) [])
          t0.

Inductive reachable : State -> Prop :=
| reachable_genesis self_ hash_ deployer _vault t0 :
    reachable (genesis self_ hash_ deployer _vault t0)
| reachable_step c st : reachable c -> reachable (step c st).

(** A step that does not derive the identifier [proposalId] anew: every
    step except a [createProposal] whose arguments hash to [proposalId]. *)
Definition spares (proposalId : bytes32) (c : State) (st : Step) : Prop :=
  match st with
  | Transact sender (CreateProposal token direction _) =>
      hash c token direction (now c) sender <> proposalId
  | _ => True
  end.

Fixpoint spared (proposalId : bytes32) (c : State) (l : list Step) : Prop :=
  match l with
  | [] => True
  | st :: l' => spares proposalId c st /\ spared proposalId (step c st) l'
  end.

End Chain.

(** ** A concrete deployment used to evaluate the contracts

    The addresses are those of the repository's Foundry test; the
    identifier derivation is replaced by an injective packing of its four
    arguments. *)

Module Scenario.
Import Consensus Chain.

Definition deployer : address := 4096.
Definition mo : address := 1.
Definition vox : address := 2.
Definition degen : address := 3.
Definition stranger : address := 2457.
Definition targetToken : address := 256.
Definition engineAddr : address := 8192.
Definition vaultAddr : address := 12288.

Definition direction_code (d : TradeDirection) : N :=
  match d with Long => 0 | Short => 1 | Hold => 2 end.

Definition pack (token : address) (d : TradeDirection) (time : uint256)
  (sender : address) : bytes32 :=
  ((token * 4 + direction_code d) * 2 ^ 64 + time) * 2 ^ 160 + sender.

Definition t0 : uint256 := 1000.

Definition setUp : list Step :=
  [ Transact deployer (TokenMint deployer 1000000);
    Transact deployer (RegisterAgent mo);
    Transact deployer (RegisterAgent vox);
    Transact deployer (RegisterAgent degen);
    Transact deployer (TokenTransfer mo 100000);
    Transact deployer (TokenTransfer vox 100000);
    Transact deployer (TokenTransfer degen 100000);
    Transact mo (TokenApprove engineAddr MAX_UINT256);
    Transact vox (TokenApprove engineAddr MAX_UINT256);
    Transact degen (TokenApprove engineAddr MAX_UINT256) ].

Definition start : Chain.State :=
  run (genesis engineAddr pack deployer vaultAddr t0) setUp.

Definition pidLong : bytes32 := pack targetToken Long t0 mo.

Definition propose : Step := Transact mo (CreateProposal targetToken Long 10000).

(** Scenario A: a second agent backs the proposal and it is executed. *)
Definition executed : Chain.State :=
  run start [propose; Transact vox (PlaceStake pidLong 20000 true)].

(** Scenario B: a second agent outweighs the creator and it is rejected. *)
Definition rejected : Chain.State :=
  run start [propose; Transact vox (PlaceStake pidLong 25000 false)].

(** The engine in scenario B when the consensus check starts. *)
Definition rejecting : Consensus.State :=
  let c := run start [propose] in
  Outcome.staked (env_of c vox) (engine (world c)) pidLong 25000 false.

(** The creator of the rejected proposal claims, and is settled as a loser. *)
Definition slashed : Chain.State :=
  run rejected [Transact mo (ClaimRewards pidLong)].

(** Scenario C: an even split leaves the proposal pending. *)
Definition split : Chain.State :=
  run start [propose; Transact vox (PlaceStake pidLong 10000 false)].

(** Scenario D: nobody else stakes and the timeout elapses. *)
Definition overdue : Chain.State := run start [propose; Warp 30].
Definition expired : Chain.State :=
  run overdue [Transact stranger (ExpireProposal pidLong)].

(** Scenario A with the creator's reward paid: the engine holds 19,500 and
    owes the second winner 21,000. *)
Definition underfunded : Chain.State :=
  run executed [Transact mo (ClaimRewards pidLong)].

(** The creator of the evenly split proposal submits the same proposal
    again within the same block, with a stake of one base unit. *)
Definition replayed : Chain.State :=
  step split (Transact mo (CreateProposal targetToken Long 1)).

(** A proposal to hold, about to be backed by a second agent. *)
Definition pidHold : bytes32 := pack targetToken Hold t0 mo.
Definition holdProposed : Chain.State :=
  run start [Transact mo (CreateProposal targetToken Hold 10000)].

(** Scenario A while another agent has 5,000 in escrow on a proposal of
    its own, and after both winners of scenario A have claimed. *)
Definition funded : Chain.State :=
  run executed [Transact degen (CreateProposal targetToken Short 5000)].
Definition settledAll : Chain.State :=
  run funded [Transact mo (ClaimRewards pidLong);
              Transact vox (ClaimRewards pidLong)].

(** What happens to the executed proposal of scenario A afterwards. *)
Definition aftermath : list Step :=
  [ Transact vox (PlaceStake pidLong 1 false);
    Warp 100;
    Transact mo (ClaimRewards pidLong);
    Transact degen (CreateProposal targetToken Short 5000);
    Transact stranger (ExpireProposal pidLong);
    Transact mo (PlaceStake pidLong 7 true) ].

(** The creator of the executed proposal of scenario A has claimed.  Within
    the same block it submits the same proposal again with a stake of one
    base unit; a third agent backs the new proposal with one unit, which
    executes it, and the creator claims once more. *)
Definition reopened : Chain.State :=
  run underfunded [Transact mo (CreateProposal targetToken Long 1)].
Definition reclosed : Chain.State :=
  run reopened [Transact degen (PlaceStake pidLong 1 true)].
Definition reclaimed : Chain.State :=
  run reclosed [Transact mo (ClaimRewards pidLong)].

(** The proposal of the second winner's own, with 5,000 in escrow. *)
Definition pidOther : bytes32 := pack targetToken Short t0 degen.

(** While the slashed creator of scenario B is on cooldown, another agent
    opens a proposal. *)
Definition pidRival : bytes32 := pack targetToken Short t0 vox.
Definition rivalled : Chain.State :=
  run slashed [Transact vox (CreateProposal targetToken Short 5000)].

End Scenario.

(** ** The ledger on its own

    The two remaining functions of [BarrelToken], and the executions of the
    token contract alone: any caller, any of its external functions.  The
    calls the engine makes are among them, with the engine as caller. *)

Module Ledger.

Definition finishMinting (sender : address) (t : Token.State)
  : result Token.State :=
  when (negb (sender =? Token.owner t)) revert TokenNotOwner ;;
  Ok (Token.mkState (Token._totalSupply t) (Token._balances t)
                    (Token._allowances t) (Token.owner t) true (Token.logs t)).

Definition renounceOwnership (sender : address) (t : Token.State)
  : result Token.State :=
  when (negb (sender =? Token.owner t)) revert TokenNotOwner ;;
  Ok (Token.mkState (Token._totalSupply t) (Token._balances t)
                    (Token._allowances t) 0 (Token.mintingFinished t)
                    (Token.logs t)).

Inductive Call : Set :=
| Transfer (to : address) (amount : uint256)
| Approve (spender : address) (amount : uint256)
| TransferFrom (from to : address) (amount : uint256)
| Mint (to : address) (amount : uint256)
| FinishMinting
| RenounceOwnership.

Definition exec (sender : address) (t : Token.State) (c : Call)
  : result Token.State :=
  match c with
  | Transfer to amount => Token.transfer sender t to amount
  | Approve spender amount => Token.approve sender t spender amount
  | TransferFrom from to amount => Token.transferFrom sender t from to amount
  | Mint to amount => Token.mint sender t to amount
  | FinishMinting => finishMinting sender t
  | RenounceOwnership => renounceOwnership sender t
  end.

(** A call that reverts leaves the ledger as it was. *)
Definition step (t : Token.State) (tx : address * Call) : Token.State :=
  match exec (fst tx) t (snd tx) with
  | Ok t' => t'
  | Err _ => t
  end.

Definition run (t : Token.State) (l : list (address * Call)) : Token.State :=
  fold_left step l t.

Inductive reachable : Token.State -> Prop :=
| reachable_deploy deployer : reachable (Token.deploy deployer)
| reachable_step t tx : reachable t -> reachable (step t tx).

(** The sum of all balances. *)
Definition sum_map (m : gmap N N) : N :=
  map_fold (fun _ v acc => v + acc) 0 m.

Definition total_balance (t : Token.State) : N := sum_map (Token._balances t).

(** The supply is what the holders hold, and fits 256 bits. *)
Definition sound (t : Token.State) : Prop :=
  total_balance t = Token._totalSupply t /\
  Token._totalSupply t <= MAX_UINT256.

End Ledger.

(** A ledger with a minted supply spread over three holders, one of whom
    has approved a spender. *)
Module LedgerScenario.
Import Ledger.

Definition issuer : address := 4096.
Definition alice : address := 1.
Definition bob : address := 2.
Definition spender : address := 8192.

Definition funded : Token.State :=
  run (Token.deploy issuer)
      [ (issuer, Mint issuer 1000000);
        (issuer, Transfer alice 100000);
        (issuer, Transfer bob 50000);
        (alice, Approve spender 30000);
        (bob, Approve spender MAX_UINT256) ].

Definition closed : Token.State := run funded [(issuer, FinishMinting)].

End LedgerScenario.

(** Three agents each have one pending proposal. *)
Module Board.
Import Consensus Chain Scenario.

Definition pidShort : bytes32 := pack targetToken Short t0 vox.
Definition pidDegen : bytes32 := pack targetToken Hold t0 degen.

Definition three : Chain.State :=
  run start [ propose;
              Transact vox (CreateProposal targetToken Short 10000);
              Transact degen (CreateProposal targetToken Hold 10000) ].

Definition unknown : bytes32 := 77.

(** More backing for the short proposal, which stays pending, and the
    expiry of the hold proposal once its time is up. *)
Definition backing : list Step :=
  [ Transact Scenario.mo (PlaceStake pidShort 5000 true);
    Warp 40;
    Transact Scenario.stranger (ExpireProposal pidDegen) ].

(** The deployer gives the engine up; attempts at administration follow. *)
Definition ownerless : Chain.State :=
  run three [Transact Scenario.deployer RenounceOwnership].

Definition takeover : list Step :=
  [ Transact Scenario.stranger (RegisterAgent Scenario.stranger);
    Transact Scenario.deployer (SetVault 5);
    Transact Scenario.deployer (RegisterAgent Scenario.stranger) ].

End Board.

(** ** Storage invariants of the engine along its executions *)

Module Audit.
Import Consensus Outcome Chain.

(** The stake a record puts on one side. *)
Definition side_amount (side : bool) (k : Stake) : N :=
  if Bool.eqb (isFor k) side then amount k else 0.

(** What one agent has staked over a list of proposals. *)
Fixpoint staked_on (s : Consensus.State) (a : address) (pids : list N) : N :=
  match pids with
  | [] => 0
  | pid :: l => amount (getStake s pid a) + staked_on s a l
  end.

(** The record of a created proposal is well formed: it carries its own
    identifier, which is the hash of its token, direction, creation time
    and creator, it expires one timeout after its creation, it was not
    created in the future, it has a non-empty "for" total, and its creator
    is a registered agent holding a "for" stake on it. *)
Definition well_formed (c : Chain.State) (pid : bytes32) : Prop :=
  let s := engine (world c) in
  let p := getProposal s pid in
  id p = pid /\
  hash c (token p) (direction p) (createdAt p) (creator p) = pid /\
  expiresAt p = createdAt p + PROPOSAL_TIMEOUT /\
  createdAt p <= now c /\
  totalStakeFor p <> 0 /\
  registered (getAgentInfo s (creator p)) = true /\
  amount (getStake s pid (creator p)) <> 0 /\
  isFor (getStake s pid (creator p)) = true.

(** What a successful call does to the engine, case by case. *)
Inductive effect (e : Env) (w w' : World) : Call -> Prop :=
| eff_create token direction initialStake :
    registered (getAgentInfo (engine w) (msg_sender e)) = true ->
    initialStake <> 0 ->
    engine w' = created e (engine w) token direction initialStake ->
    effect e w w' (CreateProposal token direction initialStake)
| eff_stake pid amt isFor :
    registered (getAgentInfo (engine w) (msg_sender e)) = true ->
    status (getProposal (engine w) pid) = Pending ->
    block_timestamp e < expiresAt (getProposal (engine w) pid) ->
    amount (getStake (engine w) pid (msg_sender e)) = 0 ->
    amt <> 0 ->
    engine w'
    = finalized (staked e (engine w) pid amt isFor) pid
        (quorum_rule
           (totalStakeFor (backed (getProposal (engine w) pid) amt isFor))
           (totalStakeAgainst (backed (getProposal (engine w) pid) amt isFor))) ->
    effect e w w' (PlaceStake pid amt isFor)
| eff_claim pid :
    status (getProposal (engine w) pid) <> Pending ->
    amount (getStake (engine w) pid (msg_sender e)) <> 0 ->
    proposals (engine w') = proposals (engine w) ->
    stakes (engine w')
    = <[(pid, msg_sender e)
        := with_claimed (getStake (engine w) pid (msg_sender e)) true]>
        (stakes (engine w)) ->
    (forall x, getAgentInfo (engine w') x
               = if decide (msg_sender e = x)
                 then settled_agent (block_timestamp e)
                        (classify (status (getProposal (engine w) pid))
                                  (getStake (engine w) pid (msg_sender e)))
                        (getAgentInfo (engine w) (msg_sender e))
                 else getAgentInfo (engine w) x) ->
    proposalStakers (engine w') = proposalStakers (engine w) ->
    activeProposalIds (engine w') = activeProposalIds (engine w) ->
    allProposalIds (engine w') = allProposalIds (engine w) ->
    vault (engine w') = vault (engine w) ->
    owner (engine w') = owner (engine w) ->
    effect e w w' (ClaimRewards pid)
| eff_expire pid :
    status (getProposal (engine w) pid) = Pending ->
    expiresAt (getProposal (engine w) pid) <= block_timestamp e ->
    engine w'
    = emit (_removeFromActive
              (set_proposal (engine w) pid
                 (with_status (getProposal (engine w) pid) Expired)) pid)
           (ProposalExpired pid) ->
    effect e w w' (ExpireProposal pid)
| eff_register agent :
    msg_sender e = owner (engine w) ->
    agent <> 0 ->
    engine w'
    = emit (set_agent (engine w) agent
              (with_registered (getAgentInfo (engine w) agent) true))
           (AgentRegistered agent) ->
    effect e w w' (RegisterAgent agent)
| eff_setVault v :
    msg_sender e = owner (engine w) ->
    engine w' = emit (set_vault (engine w) v) (VaultUpdated v) ->
    effect e w w' (SetVault v)
| eff_renounce :
    msg_sender e = owner (engine w) ->
    engine w' = set_owner (engine w) 0 ->
    effect e w w' RenounceOwnership
| eff_mint to amt :
    engine w' = engine w -> effect e w w' (TokenMint to amt)
| eff_approve spender amt :
    engine w' = engine w -> effect e w w' (TokenApprove spender amt)
| eff_transfer to amt :
    engine w' = engine w -> effect e w w' (TokenTransfer to amt)
| eff_transferFrom from to amt :
    engine w' = engine w -> effect e w w' (TokenTransferFrom from to amt).

(** The list of stakers of a proposal names exactly the holders of a
    stake on it, and an identifier that is not listed has no expiry, no
    staker and no stake. *)
Definition holders_listed (s : Consensus.State) : Prop :=
  (forall pid a,
     In a (getProposalStakers s pid) <-> amount (getStake s pid a) <> 0) /\
  (forall pid,
     ~ In pid (allProposalIds s) ->
     expiresAt (getProposal s pid) = 0 /\ getProposalStakers s pid = []).

(** A step that creates no proposal under an identifier already listed. *)
Definition is_fresh (c : Chain.State) (st : Step) : bool :=
  match st with
  | Transact sender (CreateProposal token direction _) =>
      negb (existsb (N.eqb (hash c token direction (now c) sender))
                    (allProposalIds (engine (world c))))
  | _ => true
  end.

Fixpoint all_fresh (c : Chain.State) (l : list Step) : bool :=
  match l with
  | [] => true
  | st :: l' => is_fresh c st && all_fresh (step c st) l'
  end.

(** The executions in which no identifier is derived twice. *)
Inductive orderly : Chain.State -> Prop :=
| orderly_genesis self_ hash_ deployer _vault t0 :
    orderly (genesis self_ hash_ deployer _vault t0)
| orderly_step c st :
    orderly c -> is_fresh c st = true -> orderly (step c st).

(** The two lists of identifiers agree with the records: neither names an
    identifier twice, and the active list names exactly the listed
    proposals that are still pending. *)
Definition lists_agree (s : Consensus.State) : Prop :=
  List.NoDup (allProposalIds s) /\
  List.NoDup (activeProposalIds s) /\
  (forall pid,
     In pid (activeProposalIds s) <->
     In pid (allProposalIds s) /\ status (getProposal s pid) = Pending).

(** The totals of every proposal are the sums of the stakes of its
    stakers, side by side, and no staker is named twice. *)
Definition totals_agree (s : Consensus.State) : Prop :=
  forall pid,
    List.NoDup (getProposalStakers s pid) /\
    totalStakeFor (getProposal s pid)
    = sum_over (side_amount true) s pid (getProposalStakers s pid) /\
    totalStakeAgainst (getProposal s pid)
    = sum_over (side_amount false) s pid (getProposalStakers s pid).

(** The running total of every agent is what it staked on the listed
    proposals. *)
Definition staked_agree (s : Consensus.State) : Prop :=
  forall a, totalStaked (getAgentInfo s a) = staked_on s a (allProposalIds s).

(** A call that creates no proposal under a listed identifier. *)
Definition fresh_call (e : Env) (w : World) (call : Call) : Prop :=
  forall token direction initialStake,
    call = CreateProposal token direction initialStake ->
    ~ In (keccak256 e token direction (block_timestamp e) (msg_sender e))
         (allProposalIds (engine w)).

(** No step is sent from the zero address. *)
Definition from_accounts (l : list Step) : Prop :=
  Forall (fun st => match st with
                    | Transact sender _ => sender <> 0
                    | Warp _ => True
                    end) l.

End Audit.

(** ** The treasury ([BarrelVault])

    The storage of the vault and the functions that touch nothing but this
    storage: [executeSimpleTrade], the owner's settings and the views on
    the trade records.  [executeTrade], [deposit], [withdraw] and
    [getBalance] call into token and exchange contracts given by address
    and are left out. *)

Module Vault.

Inductive VaultError : Set :=
| NotOwner
| NotConsensus
| UnsupportedToken
| AlreadyExecuted
| InsufficientBalance
| ZeroAddress
| ZeroAmount.

Inductive outcome (A : Type) : Type :=
| Done (a : A)
| Reverted (e : VaultError).
Arguments Done {A} a.
Arguments Reverted {A} e.

Record Trade : Set := mkTrade {
  proposalId : bytes32;
  tokenIn : address;
  tokenOut : address;
  amountIn : uint256;
  amountOut : uint256;
  executedAt : uint256
}.

Inductive VaultEvent : Set :=
| TradeExecuted (proposalId : bytes32) (tokenIn tokenOut : address)
                (amountIn amountOut : uint256)
| TokenSupported (token : address) (supported : bool)
| ConsensusUpdated (newConsensus : address).

Record State : Type := mkState {
  consensus : address;
  owner : address;
  supportedTokens : gmap N bool;
  trades : list Trade;
  executedProposals : gmap N bool;
  logs : list VaultEvent
}.

(** The public getters of the two mappings. *)
Definition isSupported (s : State) (token : address) : bool :=
  default false (supportedTokens s !! token).

Definition isExecuted (s : State) (proposalId : bytes32) : bool :=
  default false (executedProposals s !! proposalId).

Definition getTradeCount (s : State) : nat := length (trades s).

(** [getTrade(index)]; reading past the end of the array panics. *)
Definition getTrade (s : State) (index : nat) : option Trade :=
  trades s !! index.

Definition deploy (deployer _consensus : address) : State :=
  mkState _consensus deployer ∅ [] ∅ [].

Definition executeSimpleTrade (sender : address) (timestamp : uint256)
  (s : State) (proposalId : bytes32) (tokenIn tokenOut : address)
  (amountIn : uint256) : outcome State :=
  if negb (sender =? consensus s) then Reverted NotConsensus
  else if isExecuted s proposalId then Reverted AlreadyExecuted
  else if negb (isSupported s tokenIn) then Reverted UnsupportedToken
  else if amountIn =? 0 then Reverted ZeroAmount
  else
    Done (mkState (consensus s) (owner s) (supportedTokens s)
            (trades s
             ++ [mkTrade proposalId tokenIn tokenOut amountIn 0 timestamp])
            (<[proposalId := true]> (executedProposals s))
            (logs s
             ++ [TradeExecuted proposalId tokenIn tokenOut amountIn 0])).

Definition setConsensus (sender : address) (s : State) (_consensus : address)
  : outcome State :=
  if negb (sender =? owner s) then Reverted NotOwner
  else if _consensus =? 0 then Reverted ZeroAddress
  else
    Done (mkState _consensus (owner s) (supportedTokens s) (trades s)
            (executedProposals s) (logs s ++ [ConsensusUpdated _consensus])).

Definition setSupportedToken (sender : address) (s : State) (token : address)
  (supported : bool) : outcome State :=
  if negb (sender =? owner s) then Reverted NotOwner
  else if token =? 0 then Reverted ZeroAddress
  else
    Done (mkState (consensus s) (owner s)
            (<[token := supported]> (supportedTokens s)) (trades s)
            (executedProposals s)
            (logs s ++ [TokenSupported token supported])).

Definition renounceOwnership (sender : address) (s : State) : outcome State :=
  if negb (sender =? owner s) then Reverted NotOwner
  else
    Done (mkState (consensus s) 0 (supportedTokens s) (trades s)
            (executedProposals s) (logs s)).

Inductive Call : Set :=
| ExecuteSimpleTrade (proposalId : bytes32) (tokenIn tokenOut : address)
                     (amountIn : uint256)
| SetConsensus (_consensus : address)
| SetSupportedToken (token : address) (supported : bool)
| RenounceOwnership.

(** A transaction: its sender, the time of its block, and the call. *)
Record Tx : Set := mkTx {
  sender : address;
  timestamp : uint256;
  call : Call
}.

Definition exec (tx : Tx) (s : State) : outcome State :=
  match call tx with
  | ExecuteSimpleTrade proposalId tokenIn tokenOut amountIn =>
      executeSimpleTrade (sender tx) (timestamp tx) s proposalId tokenIn
                         tokenOut amountIn
  | SetConsensus c => setConsensus (sender tx) s c
  | SetSupportedToken token supported =>
      setSupportedToken (sender tx) s token supported
  | RenounceOwnership => renounceOwnership (sender tx) s
  end.

(** A transaction that reverts leaves the vault as it was. *)
Definition step (s : State) (tx : Tx) : State :=
  match exec tx s with
  | Done s' => s'
  | Reverted _ => s
  end.

Definition run (s : State) (l : list Tx) : State := fold_left step l s.

Inductive reachable : State -> Prop :=
| reachable_deploy deployer _consensus :
    reachable (deploy deployer _consensus)
| reachable_step s tx : reachable s -> reachable (step s tx).

(** The bookkeeping of trades: a proposal is marked exactly when a trade is
    recorded for it, no proposal has two trades, and every record holds a
    non-zero input amount and no output amount. *)
Definition books (s : State) : Prop :=
  List.NoDup (map proposalId (trades s)) /\
  (forall pid, isExecuted s pid = true <-> In pid (map proposalId (trades s))) /\
  Forall (fun t => amountIn t <> 0 /\ amountOut t = 0) (trades s).

End Vault.

(** A treasury whose consensus is the engine of the scenario. *)
Module Treasury.

Definition weth : address := 51966.

Definition traded : Vault.State :=
  Vault.run (Vault.deploy Scenario.deployer Scenario.engineAddr)
    [ Vault.mkTx Scenario.deployer 1000 (Vault.SetSupportedToken weth true);
      Vault.mkTx Scenario.engineAddr 1010
                 (Vault.ExecuteSimpleTrade Scenario.pidLong weth 0 500) ].

(** What follows the trade: the owner withdraws support for the token and
    names another consensus contract. *)
Definition later : list Vault.Tx :=
  [ Vault.mkTx Scenario.deployer 1020 (Vault.SetSupportedToken weth false);
    Vault.mkTx Scenario.deployer 1030 (Vault.SetConsensus Scenario.mo);
    Vault.mkTx Scenario.deployer 1040 (Vault.SetSupportedToken weth true) ].

End Treasury.

(** * Properties *)

Import Consensus Outcome Chain.

(** ** Results and checked arithmetic *)

Lemma bind_Ok {A B} (r : result A) (k : A -> result B) (b : B) :
  bind r k = Ok b -> exists a, r = Ok a /\ k a = Ok b.
Proof. destruct r as [a|err]; simpl; [eauto | discriminate]. Qed.

Lemma add256_Ok x y z : add256 x y = Ok z <-> z = x + y /\ x + y <= MAX_UINT256.
Proof.
  unfold add256. destruct (N.leb_spec (x + y) MAX_UINT256); split.
  - intros [= <-]. auto.
  - intros [-> _]. reflexivity.
  - discriminate.
  - intros [_ ?]. lia.
Qed.

Lemma mul256_Ok x y z : mul256 x y = Ok z <-> z = x * y /\ x * y <= MAX_UINT256.
Proof.
  unfold mul256. destruct (N.leb_spec (x * y) MAX_UINT256); split.
  - intros [= <-]. auto.
  - intros [-> _]. reflexivity.
  - discriminate.
  - intros [_ ?]. lia.
Qed.

Lemma sub256_Ok x y z : sub256 x y = Ok z <-> z = x - y /\ y <= x.
Proof.
  unfold sub256. destruct (N.leb_spec y x); split.
  - intros [= <-]. auto.
  - intros [-> _]. reflexivity.
  - discriminate.
  - intros [_ ?]. lia.
Qed.

Lemma add256_fits x y : x + y <= MAX_UINT256 -> add256 x y = Ok (x + y).
Proof. intros. apply add256_Ok. auto. Qed.

Lemma mul256_fits x y : x * y <= MAX_UINT256 -> mul256 x y = Ok (x * y).
Proof. intros. apply mul256_Ok. auto. Qed.

Lemma sub256_fits x y : y <= x -> sub256 x y = Ok (x - y).
Proof. intros. apply sub256_Ok. auto. Qed.

(** Peel one layer off a hypothesis saying that a computation succeeded. *)
Ltac ok_step H :=
  lazymatch type of H with
  | bind ?r _ = Ok _ =>
      let a := fresh "a" in
      let Ha := fresh "Hrun" in
      apply bind_Ok in H; destruct H as (a & Ha & H)
  | (if ?c then _ else _) = Ok _ =>
      let Hc := fresh "Hc" in
      destruct c eqn:Hc; [ | ]; try discriminate H
  | Err _ = Ok _ => discriminate H
  end.

Tactic Notation "ok_bind" hyp(H) "as" ident(a) ident(Ha) :=
  apply bind_Ok in H; destruct H as (a & Ha & H).

Ltac arith_ok :=
  repeat match goal with
  | H : add256 _ _ = Ok _ |- _ => apply add256_Ok in H; destruct H as [-> H]
  | H : mul256 _ _ = Ok _ |- _ => apply mul256_Ok in H; destruct H as [-> H]
  | H : sub256 _ _ = Ok _ |- _ => apply sub256_Ok in H; destruct H as [-> H]
  end.

(** ** Storage *)


Lemma status_eqb_eq a b : status_eqb a b = true <-> a = b.
Proof. destruct a, b; simpl; split; congruence. Qed.

Lemma status_eqb_neq a b : status_eqb a b = false <-> a <> b.
Proof. destruct a, b; simpl; split; congruence. Qed.

Lemma getProposal_set_proposal s pid p x :
  getProposal (set_proposal s pid p) x
  = if decide (pid = x) then p else getProposal s x.
Proof.
  unfold getProposal, set_proposal; simpl. rewrite lookup_insert.
  destruct (decide (pid = x)); reflexivity.
Qed.

Lemma getStake_set_stake s pid a k x b :
  getStake (set_stake s pid a k) x b
  = if decide ((pid, a) = (x, b)) then k else getStake s x b.
Proof.
  unfold getStake, set_stake; simpl. rewrite lookup_insert.
  destruct (decide ((pid, a) = (x, b))); reflexivity.
Qed.

Lemma getAgentInfo_set_agent s a i x :
  getAgentInfo (set_agent s a i) x
  = if decide (a = x) then i else getAgentInfo s x.
Proof.
  unfold getAgentInfo, set_agent; simpl. rewrite lookup_insert.
  destruct (decide (a = x)); reflexivity.
Qed.

(** [_removeFromActive] only rewrites the active list. *)
Lemma removeFromActive_frame s pid :
  exists l, _removeFromActive s pid = set_active s l.
Proof.
  unfold _removeFromActive.
  destruct (index_of pid (activeProposalIds s) 0).
  - destruct (last (activeProposalIds s)); eauto.
    exists (activeProposalIds s). destruct s; reflexivity.
  - exists (activeProposalIds s). destruct s; reflexivity.
Qed.

Lemma removeFromActive_proposals s pid :
  proposals (_removeFromActive s pid) = proposals s.
Proof. destruct (removeFromActive_frame s pid) as [l ->]. reflexivity. Qed.

Lemma removeFromActive_stakes s pid :
  stakes (_removeFromActive s pid) = stakes s.
Proof. destruct (removeFromActive_frame s pid) as [l ->]. reflexivity. Qed.

Lemma removeFromActive_agents s pid :
  agents (_removeFromActive s pid) = agents s.
Proof. destruct (removeFromActive_frame s pid) as [l ->]. reflexivity. Qed.

Lemma removeFromActive_events s pid :
  events (_removeFromActive s pid) = events s.
Proof. destruct (removeFromActive_frame s pid) as [l ->]. reflexivity. Qed.

Lemma removeFromActive_vault s pid :
  vault (_removeFromActive s pid) = vault s.
Proof. destruct (removeFromActive_frame s pid) as [l ->]. reflexivity. Qed.

Lemma removeFromActive_owner s pid :
  owner (_removeFromActive s pid) = owner s.
Proof. destruct (removeFromActive_frame s pid) as [l ->]. reflexivity. Qed.

(** *** The quorum rule *)

Lemma checkConsensus_Ok s pid s' :
  _checkConsensus s pid = Ok s' ->
  let p := getProposal s pid in
  totalStakeFor p + totalStakeAgainst p <= MAX_UINT256 /\
  s' = finalized s pid (quorum_rule (totalStakeFor p) (totalStakeAgainst p)).
Proof.
  unfold _checkConsensus, quorum_rule, finalized. cbv zeta. intros H.
  ok_step H. arith_ok. split; [assumption|].
  destruct (_ =? 0) eqn:Hz.
  - congruence.
  - ok_step H. ok_step H. arith_ok. unfold QUORUM_BPS in H.
    destruct (6600 <=? _) eqn:Hfor in H |- *.
    + destruct (_ && _); congruence.
    + clear Hfor. destruct (6600 <=? _) eqn:Hagainst in H |- *; congruence.
Qed.

Lemma checkConsensus_fits s pid :
  let p := getProposal s pid in
  totalStakeFor p * 10000 <= MAX_UINT256 ->
  totalStakeAgainst p * 10000 <= MAX_UINT256 ->
  _checkConsensus s pid
  = Ok (finalized s pid (quorum_rule (totalStakeFor p) (totalStakeAgainst p))).
Proof.
  cbv zeta. intros Hf Ha.
  assert (Hmax : MAX_UINT256 = 2 ^ 256 - 1) by reflexivity.
  unfold _checkConsensus, quorum_rule, finalized. cbv zeta.
  rewrite add256_fits by lia. simpl bind.
  destruct (_ =? 0) eqn:Hz; [reflexivity|].
  rewrite !mul256_fits by assumption. simpl bind. unfold QUORUM_BPS.
  destruct (6600 <=? _) eqn:Hfor.
  - destruct (_ && _); reflexivity.
  - clear Hfor. destruct (6600 <=? _) eqn:Hagainst; reflexivity.
Qed.

Lemma finalized_proposal s pid st x :
  getProposal (finalized s pid st) x
  = match st with
    | Executed | Rejected =>
        if decide (pid = x) then with_status (getProposal s pid) st
        else getProposal s x
    | _ => getProposal s x
    end.
Proof.
  unfold finalized. cbv zeta.
  destruct st; try reflexivity;
    unfold getProposal at 1; simpl;
    rewrite removeFromActive_proposals; simpl; rewrite lookup_insert;
    destruct (decide (pid = x)); reflexivity.
Qed.

Lemma finalized_stakes s pid st : stakes (finalized s pid st) = stakes s.
Proof.
  unfold finalized. cbv zeta.
  destruct st; try reflexivity; simpl; rewrite removeFromActive_stakes; reflexivity.
Qed.

Lemma finalized_agents s pid st : agents (finalized s pid st) = agents s.
Proof.
  unfold finalized. cbv zeta.
  destruct st; try reflexivity; simpl; rewrite removeFromActive_agents; reflexivity.
Qed.

Lemma finalized_events s pid st :
  events (finalized s pid st)
  = events s ++
    match st with
    | Executed =>
        [ConsensusReached pid (direction (getProposal s pid))
                          (totalStakeFor (getProposal s pid))]
    | Rejected => [ProposalRejected pid]
    | _ => []
    end.
Proof.
  unfold finalized. cbv zeta.
  destruct st; simpl; rewrite ?app_nil_r; try reflexivity;
    rewrite removeFromActive_events; reflexivity.
Qed.

(** Comparing the floored basis-point share with the quorum is comparing
    the exact share with 66%. *)
Lemma share_reaches_quorum x total :
  total <> 0 -> (6600 <= x * 10000 / total <-> 66 * total <= 100 * x).
Proof.
  intros Ht. split; intros H.
  - pose proof (N.Div0.mul_div_le (x * 10000) total). nia.
  - apply N.div_le_lower_bound; [assumption | lia].
Qed.


(** ** What each external function leaves behind *)

Lemma token_transferFrom_Ok e w from to amount w' :
  token_transferFrom e w from to amount = Ok w' ->
  engine w' = engine w /\
  Token.transferFrom (this e) (ledger w) from to amount = Ok (ledger w') /\
  calls w' = calls w ++ [CallTransferFrom from to amount].
Proof.
  unfold token_transferFrom. intros H. ok_step H. injection H as <-.
  simpl. auto.
Qed.

Lemma token_transfer_Ok e w to amount w' :
  token_transfer e w to amount = Ok w' ->
  engine w' = engine w /\
  Token.transfer (this e) (ledger w) to amount = Ok (ledger w') /\
  calls w' = calls w ++ [CallTransfer to amount].
Proof.
  unfold token_transfer. intros H. ok_step H. injection H as <-.
  simpl. auto.
Qed.

Lemma createProposal_Ok e w token direction initialStake w' pid :
  createProposal e w token direction initialStake = Ok (w', pid) ->
  let s := engine w in
  let u := msg_sender e in
  registered (getAgentInfo s u) = true /\
  cooldownUntil (getAgentInfo s u) <= block_timestamp e /\
  initialStake <> 0 /\
  pid = keccak256 e token direction (block_timestamp e) u /\
  engine w' = created e s token direction initialStake /\
  Token.transferFrom (this e) (ledger w) u (this e) initialStake
    = Ok (ledger w') /\
  calls w' = calls w ++ [CallTransferFrom u (this e) initialStake].
Proof.
  unfold createProposal. cbv zeta. intros H.
  do 6 ok_step H. arith_ok.
  apply token_transferFrom_Ok in Hrun1. destruct Hrun1 as (He & Hl & Hcalls).
  injection H as <- <-. simpl.
  apply negb_false_iff in Hc. apply N.ltb_ge in Hc0. apply N.eqb_neq in Hc1.
  repeat split; try assumption.
  rewrite He. reflexivity.
Qed.

Lemma stake_Ok e w pid amount isFor w' :
  stake e w pid amount isFor = Ok w' ->
  let s := engine w in
  let u := msg_sender e in
  let p := getProposal s pid in
  let p' := backed p amount isFor in
  registered (getAgentInfo s u) = true /\
  status p = Pending /\
  block_timestamp e < expiresAt p /\
  Consensus.amount (getStake s pid u) = 0 /\
  amount <> 0 /\
  totalStakeFor p' + totalStakeAgainst p' <= MAX_UINT256 /\
  engine w' = finalized (staked e s pid amount isFor) pid
                (quorum_rule (totalStakeFor p') (totalStakeAgainst p')) /\
  Token.transferFrom (this e) (ledger w) u (this e) amount = Ok (ledger w') /\
  calls w' = calls w ++ [CallTransferFrom u (this e) amount].
Proof.
  unfold stake. cbv zeta. intros H.
  do 6 ok_step H. arith_ok.
  ok_bind H as s4 Hs4'.
  assert (Hs4 : s4 = set_proposal
                  (set_agent
                     (push_staker
                        (set_stake (engine w) pid (msg_sender e)
                           (mkStake amount isFor false)) pid (msg_sender e))
                     (msg_sender e)
                     (with_totalStaked (getAgentInfo (engine w) (msg_sender e))
                        (totalStaked (getAgentInfo (engine w) (msg_sender e))
                         + amount)))
                  pid (backed (getProposal (engine w) pid) amount isFor)).
  { unfold backed. destruct isFor; ok_step Hs4'; arith_ok;
      injection Hs4' as <-; reflexivity. }
  clear Hs4'. ok_bind H as w1 Hw1. ok_bind H as s6 Hs6. injection H as <-.
  apply token_transferFrom_Ok in Hw1. destruct Hw1 as (He & Hl & Hcalls).
  apply checkConsensus_Ok in Hs6. cbv zeta in Hs6.
  destruct Hs6 as [Hfit Hfin].
  assert (Hp : getProposal (emit (engine w1) (StakePlaced pid (msg_sender e) amount isFor)) pid
               = backed (getProposal (engine w) pid) amount isFor).
  { rewrite He, Hs4. unfold getProposal at 1. simpl.
    rewrite lookup_insert_eq. reflexivity. }
  rewrite Hp in Hfit, Hfin.
  apply negb_false_iff in Hc, Hc0. apply status_eqb_eq in Hc0.
  apply N.leb_gt in Hc1. apply N.ltb_ge in Hc2. apply N.eqb_neq in Hc3.
  repeat split; try assumption; try lia.
  simpl. rewrite Hfin, He, Hs4. reflexivity.
Qed.

(** Read an agent record back after a chain of storage writes. *)
Ltac agent_lookup :=
  unfold getAgentInfo; simpl; rewrite ?lookup_insert;
  repeat case_decide; subst; simpl; rewrite ?lookup_insert_eq;
  try congruence; try reflexivity.

Lemma settle_Ok e s pid s' payout :
  settle e s pid = Ok (s', payout) ->
  let u := msg_sender e in
  let p := getProposal s pid in
  let k := getStake s pid u in
  let v := classify (status p) k in
  status p <> Pending /\
  amount k <> 0 /\
  claimed k = false /\
  payout = payout_of (status p) k /\
  slash_of k <= amount k /\
  proposals s' = proposals s /\
  stakes s' = <[(pid, u) := with_claimed k true]> (stakes s) /\
  (forall x, getAgentInfo s' x
             = if decide (u = x)
               then settled_agent (block_timestamp e) v (getAgentInfo s u)
               else getAgentInfo s x) /\
  events s' = events s ++ settlement_events u pid (status p) k /\
  vault s' = vault s /\ owner s' = owner s /\
  proposalStakers s' = proposalStakers s.
Proof.
  unfold settle. cbv zeta. intros H.
  do 3 ok_step H.
  apply status_eqb_neq in Hc. apply N.eqb_neq in Hc0.
  pose proof (N.Div0.div_le_upper_bound
                (amount (getStake s pid (msg_sender e)) * SLASH_BPS) 10000
                (amount (getStake s pid (msg_sender e)))) as Hslash.
  assert (Hle : slash_of (getStake s pid (msg_sender e))
                <= amount (getStake s pid (msg_sender e))).
  { unfold slash_of. apply Hslash. unfold SLASH_BPS. lia. }
  unfold settlement_events, payout_of, classify.
  destruct (_ || _) eqn:Hwin.
  - do 3 ok_step H. arith_ok. injection H as <- <-.
    repeat split; try assumption; try reflexivity.
    intros x. agent_lookup.
  - destruct (status_eqb _ Expired) eqn:Hexp.
    + injection H as <- <-.
      repeat split; try assumption; try reflexivity.
      * intros x. agent_lookup.
      * simpl. rewrite app_nil_r. reflexivity.
    + do 4 ok_step H. arith_ok. injection H as <- <-.
      repeat split; try assumption; try reflexivity.
      intros x. agent_lookup.
Qed.

(** A stake of ten or fewer base units loses nothing to the slash, and no
    stake loses everything: the payout of a non-empty stake is never zero. *)
Lemma slash_below_stake k : amount k <> 0 -> slash_of k < amount k.
Proof.
  intros Ha. unfold slash_of, SLASH_BPS.
  apply N.Div0.div_lt_upper_bound. lia.
Qed.

Lemma payout_positive st k : amount k <> 0 -> 0 < payout_of st k.
Proof.
  intros Ha. pose proof (slash_below_stake k Ha).
  unfold payout_of. destruct (classify st k); lia.
Qed.

Lemma claimRewards_Ok e w pid w' :
  claimRewards e w pid = Ok w' ->
  let u := msg_sender e in
  let payout := payout_of (status (getProposal (engine w) pid))
                          (getStake (engine w) pid u) in
  settle e (engine w) pid = Ok (engine w', payout) /\
  0 < payout /\
  Token.transfer (this e) (ledger w) u payout = Ok (ledger w') /\
  calls w' = calls w ++ [CallTransfer u payout].
Proof.
  unfold claimRewards, transfer_payout. cbv zeta. intros H.
  ok_bind H as sp Hsp. destruct sp as [s1 p]. simpl in H.
  pose proof (settle_Ok _ _ _ _ _ Hsp) as Hs. cbv zeta in Hs.
  destruct Hs as (_ & Ha & _ & Hp & _).
  pose proof (payout_positive (status (getProposal (engine w) pid)) _ Ha) as Hpos.
  rewrite <- Hp in *.
  destruct (0 <? p) eqn:Hz; [| apply N.ltb_ge in Hz; lia].
  apply token_transfer_Ok in H. destruct H as (He & Hl & Hcalls).
  simpl in He, Hl, Hcalls. rewrite He. auto.
Qed.

Lemma expireProposal_Ok e w pid w' :
  expireProposal e w pid = Ok w' ->
  let s := engine w in
  let p := getProposal s pid in
  status p = Pending /\
  expiresAt p <= block_timestamp e /\
  engine w' = emit (_removeFromActive
                      (set_proposal s pid (with_status p Expired)) pid)
                   (ProposalExpired pid) /\
  ledger w' = ledger w /\ calls w' = calls w.
Proof.
  unfold expireProposal. cbv zeta. intros H. do 2 ok_step H.
  injection H as <-.
  apply negb_false_iff, status_eqb_eq in Hc. apply N.ltb_ge in Hc0.
  simpl. auto.
Qed.

Lemma registerAgent_Ok e w agent w' :
  registerAgent e w agent = Ok w' ->
  let s := engine w in
  msg_sender e = owner s /\ agent <> 0 /\
  engine w' = emit (set_agent s agent
                      (with_registered (getAgentInfo s agent) true))
                   (AgentRegistered agent) /\
  ledger w' = ledger w /\ calls w' = calls w.
Proof.
  unfold registerAgent. cbv zeta. intros H. do 2 ok_step H.
  injection H as <-.
  apply negb_false_iff, N.eqb_eq in Hc. apply N.eqb_neq in Hc0.
  simpl. auto.
Qed.

Lemma setVault_Ok e w v w' :
  setVault e w v = Ok w' ->
  engine w' = emit (set_vault (engine w) v) (VaultUpdated v) /\
  ledger w' = ledger w /\ calls w' = calls w.
Proof.
  unfold setVault. cbv zeta. intros H. ok_step H. injection H as <-.
  simpl. auto.
Qed.

Lemma renounceOwnership_Ok e w w' :
  renounceOwnership e w = Ok w' ->
  engine w' = set_owner (engine w) 0 /\
  ledger w' = ledger w /\ calls w' = calls w.
Proof.
  unfold renounceOwnership. cbv zeta. intros H. ok_step H. injection H as <-.
  simpl. auto.
Qed.

Lemma on_ledger_Ok w r w' :
  on_ledger w r = Ok w' -> engine w' = engine w /\ calls w' = calls w.
Proof.
  unfold on_ledger. intros H. ok_step H. injection H as <-. simpl. auto.
Qed.

(** ** Reading storage after a call *)

Ltac storage_lookup :=
  unfold getProposal, getStake, getAgentInfo; simpl;
  rewrite ?removeFromActive_proposals, ?removeFromActive_stakes,
    ?removeFromActive_agents; simpl;
  rewrite ?lookup_insert;
  repeat case_decide; subst; simpl; rewrite ?lookup_insert_eq;
  try congruence; try reflexivity.

Lemma getProposal_ext s1 s2 x :
  proposals s1 = proposals s2 -> getProposal s1 x = getProposal s2 x.
Proof. unfold getProposal. intros ->. reflexivity. Qed.

Lemma getStake_ext s1 s2 x a :
  stakes s1 = stakes s2 -> getStake s1 x a = getStake s2 x a.
Proof. unfold getStake. intros ->. reflexivity. Qed.

Lemma getAgentInfo_ext s1 s2 a :
  agents s1 = agents s2 -> getAgentInfo s1 a = getAgentInfo s2 a.
Proof. unfold getAgentInfo. intros ->. reflexivity. Qed.

Lemma created_proposal e s token direction initialStake x :
  getProposal (created e s token direction initialStake) x
  = if decide (keccak256 e token direction (block_timestamp e) (msg_sender e) = x)
    then fresh_proposal e token direction initialStake
    else getProposal s x.
Proof. unfold created, fresh_proposal. cbv zeta. storage_lookup. Qed.

Lemma created_stake e s token direction initialStake x a :
  getStake (created e s token direction initialStake) x a
  = if decide ((keccak256 e token direction (block_timestamp e) (msg_sender e),
                msg_sender e) = (x, a))
    then mkStake initialStake true false
    else getStake s x a.
Proof. unfold created, fresh_proposal. cbv zeta. storage_lookup. Qed.

Lemma created_agent e s token direction initialStake a :
  getAgentInfo (created e s token direction initialStake) a
  = if decide (msg_sender e = a)
    then with_totalStaked (getAgentInfo s a)
           (totalStaked (getAgentInfo s a) + initialStake)
    else getAgentInfo s a.
Proof. unfold created, fresh_proposal. cbv zeta. storage_lookup. Qed.

Lemma staked_proposal e s pid amount isFor x :
  getProposal (staked e s pid amount isFor) x
  = if decide (pid = x) then backed (getProposal s pid) amount isFor
    else getProposal s x.
Proof. unfold staked. cbv zeta. storage_lookup. Qed.

Lemma staked_stake e s pid amount isFor x a :
  getStake (staked e s pid amount isFor) x a
  = if decide ((pid, msg_sender e) = (x, a)) then mkStake amount isFor false
    else getStake s x a.
Proof. unfold staked. cbv zeta. storage_lookup. Qed.

Lemma staked_agent e s pid amount isFor a :
  getAgentInfo (staked e s pid amount isFor) a
  = if decide (msg_sender e = a)
    then with_totalStaked (getAgentInfo s a)
           (totalStaked (getAgentInfo s a) + amount)
    else getAgentInfo s a.
Proof. unfold staked. cbv zeta. storage_lookup. Qed.

Lemma backed_status p amount isFor : status (backed p amount isFor) = status p.
Proof. unfold backed. destruct isFor; reflexivity. Qed.

Lemma backed_expiresAt p amount isFor :
  expiresAt (backed p amount isFor) = expiresAt p.
Proof. unfold backed. destruct isFor; reflexivity. Qed.

Lemma backed_direction p amount isFor :
  direction (backed p amount isFor) = direction p.
Proof. unfold backed. destruct isFor; reflexivity. Qed.

Lemma quorum_rule_not_Expired f a : quorum_rule f a <> Expired.
Proof.
  unfold quorum_rule. cbv zeta.
  repeat match goal with |- context [if ?c then _ else _] => destruct c end;
    discriminate.
Qed.

(** *** Steps of a chain *)

Lemma step_cases c st :
  self (step c st) = self c /\ hash (step c st) = hash c /\
  now c <= now (step c st) /\
  (world (step c st) = world c \/
   exists sender call,
     st = Transact sender call /\ now (step c st) = now c /\
     exec (env_of c sender) (world c) call = Ok (world (step c st))).
Proof.
  destruct st as [dt | sender call]; simpl.
  - repeat split; try lia. left. reflexivity.
  - destruct (exec _ _ call) eqn:Hexec; simpl.
    + repeat split; try lia. right. eauto.
    + repeat split; try lia. left. reflexivity.
Qed.

(** A finalized proposal is left alone by every call, a re-derivation of
    its identifier by [createProposal] set aside. *)
Lemma exec_finalized_frozen c sender call w' pid :
  exec (env_of c sender) (world c) call = Ok w' ->
  status (getProposal (engine (world c)) pid) <> Pending ->
  spares pid c (Transact sender call) ->
  getProposal (engine w') pid = getProposal (engine (world c)) pid.
Proof.
  intros Hexec Hfin Hspare.
  destruct call; simpl in Hexec.
  - ok_bind Hexec as r Hr. destruct r as [w1 pid1]. injection Hexec as <-.
    apply createProposal_Ok in Hr. cbv zeta in Hr.
    destruct Hr as (_ & _ & _ & _ & -> & _). simpl in Hspare |- *.
    rewrite created_proposal. simpl. case_decide; [contradiction|reflexivity].
  - apply stake_Ok in Hexec. cbv zeta in Hexec.
    destruct Hexec as (_ & Hp & _ & _ & _ & _ & -> & _).
    rewrite finalized_proposal.
    assert (proposalId <> pid) by congruence.
    destruct (quorum_rule _ _); rewrite ?staked_proposal;
      repeat case_decide; try congruence.
    all: rewrite staked_proposal; case_decide; congruence.
  - apply claimRewards_Ok in Hexec. cbv zeta in Hexec.
    destruct Hexec as (Hs & _). apply settle_Ok in Hs. cbv zeta in Hs.
    destruct Hs as (_ & _ & _ & _ & _ & Hprop & _).
    apply getProposal_ext. assumption.
  - apply expireProposal_Ok in Hexec. cbv zeta in Hexec.
    destruct Hexec as (Hp & _ & -> & _).
    assert (proposalId <> pid) by congruence.
    storage_lookup.
  - apply registerAgent_Ok in Hexec. cbv zeta in Hexec.
    destruct Hexec as (_ & _ & -> & _). reflexivity.
  - apply setVault_Ok in Hexec. destruct Hexec as (-> & _). reflexivity.
  - apply renounceOwnership_Ok in Hexec. destruct Hexec as (-> & _).
    reflexivity.
  - apply on_ledger_Ok in Hexec. destruct Hexec as (-> & _). reflexivity.
  - apply on_ledger_Ok in Hexec. destruct Hexec as (-> & _). reflexivity.
  - apply on_ledger_Ok in Hexec. destruct Hexec as (-> & _). reflexivity.
  - apply on_ledger_Ok in Hexec. destruct Hexec as (-> & _). reflexivity.
Qed.

Lemma step_finalized_frozen c st pid :
  status (getProposal (engine (world c)) pid) <> Pending ->
  spares pid c st ->
  getProposal (engine (world (step c st))) pid
  = getProposal (engine (world c)) pid.
Proof.
  intros Hfin Hspare.
  destruct (step_cases c st) as (_ & _ & _ & [-> | (sender & call & -> & _ & Hexec)]).
  - reflexivity.
  - eapply exec_finalized_frozen; eassumption.
Qed.

Lemma run_cons c st l : run c (st :: l) = run (step c st) l.
Proof. reflexivity. Qed.

Lemma run_finalized_frozen l : forall c pid,
  status (getProposal (engine (world c)) pid) <> Pending ->
  spared pid c l ->
  getProposal (engine (world (run c l))) pid
  = getProposal (engine (world c)) pid.
Proof.
  induction l as [| st l IH]; intros c pid Hfin Hsp.
  - reflexivity.
  - destruct Hsp as [Hst Hl]. rewrite run_cons.
    pose proof (step_finalized_frozen c st pid Hfin Hst) as Hstep.
    rewrite IH; [assumption | rewrite Hstep; assumption | assumption].
Qed.

(** ** Stakes and registrations along an execution *)

Lemma settled_agent_registered now v a :
  registered (settled_agent now v a) = registered a.
Proof. destruct v; reflexivity. Qed.

(** Registration is never withdrawn. *)
Lemma exec_registered e w call w' a :
  exec e w call = Ok w' ->
  registered (getAgentInfo (engine w) a) = true ->
  registered (getAgentInfo (engine w') a) = true.
Proof.
  intros Hexec Hreg.
  destruct call; simpl in Hexec.
  - ok_bind Hexec as r Hr. destruct r as [w1 pid1]. injection Hexec as <-.
    apply createProposal_Ok in Hr. cbv zeta in Hr.
    destruct Hr as (_ & _ & _ & _ & -> & _). simpl.
    rewrite created_agent. case_decide; assumption.
  - apply stake_Ok in Hexec. cbv zeta in Hexec.
    destruct Hexec as (_ & _ & _ & _ & _ & _ & -> & _).
    rewrite (getAgentInfo_ext _ _ a (finalized_agents _ _ _)).
    rewrite staked_agent. case_decide; assumption.
  - apply claimRewards_Ok in Hexec. cbv zeta in Hexec.
    destruct Hexec as (Hs & _). apply settle_Ok in Hs. cbv zeta in Hs.
    destruct Hs as (_ & _ & _ & _ & _ & _ & _ & Hag & _).
    rewrite Hag. case_decide; [subst a|assumption].
    rewrite settled_agent_registered. assumption.
  - apply expireProposal_Ok in Hexec. cbv zeta in Hexec.
    destruct Hexec as (_ & _ & -> & _).
    revert Hreg. storage_lookup; auto.
  - apply registerAgent_Ok in Hexec. cbv zeta in Hexec.
    destruct Hexec as (_ & _ & -> & _).
    revert Hreg. storage_lookup; auto.
  - apply setVault_Ok in Hexec. destruct Hexec as (-> & _). assumption.
  - apply renounceOwnership_Ok in Hexec. destruct Hexec as (-> & _).
    assumption.
  - apply on_ledger_Ok in Hexec. destruct Hexec as (-> & _). assumption.
  - apply on_ledger_Ok in Hexec. destruct Hexec as (-> & _). assumption.
  - apply on_ledger_Ok in Hexec. destruct Hexec as (-> & _). assumption.
  - apply on_ledger_Ok in Hexec. destruct Hexec as (-> & _). assumption.
Qed.

(** A call either leaves a stake record alone, or writes a new one for its
    registered sender, or sets the claimed flag of the sender's own record. *)
Lemma exec_stake_cases e w call w' pid a :
  exec e w call = Ok w' ->
  getStake (engine w') pid a = getStake (engine w) pid a \/
  (a = msg_sender e /\ registered (getAgentInfo (engine w) a) = true /\
   ((exists amount isFor,
       call = PlaceStake pid amount isFor /\
       Consensus.amount (getStake (engine w) pid a) = 0) \/
    (exists token direction initialStake,
       call = CreateProposal token direction initialStake /\
       pid = keccak256 e token direction (block_timestamp e) (msg_sender e)))) \/
  (a = msg_sender e /\ call = ClaimRewards pid /\
   status (getProposal (engine w) pid) <> Pending /\
   Consensus.amount (getStake (engine w) pid a) <> 0 /\
   getStake (engine w') pid a
   = with_claimed (getStake (engine w) pid a) true).
Proof.
  intros Hexec.
  destruct call; simpl in Hexec.
  - ok_bind Hexec as r Hr. destruct r as [w1 pid1]. injection Hexec as <-.
    apply createProposal_Ok in Hr. cbv zeta in Hr.
    destruct Hr as (Hreg & _ & _ & _ & -> & _). simpl.
    rewrite created_stake. case_decide as Heq; [|auto].
    injection Heq as <- <-. right. left. repeat split; eauto 10.
  - apply stake_Ok in Hexec. cbv zeta in Hexec.
    destruct Hexec as (Hreg & _ & _ & Hzero & _ & _ & -> & _).
    rewrite (getStake_ext _ _ pid a (finalized_stakes _ _ _)).
    rewrite staked_stake. case_decide as Heq; [|auto].
    injection Heq as <- <-. right. left. repeat split; eauto 10.
  - apply claimRewards_Ok in Hexec. cbv zeta in Hexec.
    destruct Hexec as (Hs & _). apply settle_Ok in Hs. cbv zeta in Hs.
    destruct Hs as (Hfin & Hamt & _ & _ & _ & _ & Hst & _).
    assert (Hk : getStake (engine w') pid a
                 = if decide ((proposalId, msg_sender e) = (pid, a))
                   then with_claimed
                          (getStake (engine w) proposalId (msg_sender e)) true
                   else getStake (engine w) pid a).
    { unfold getStake at 1. rewrite Hst, lookup_insert.
      case_decide; reflexivity. }
    case_decide as Heq; [|auto].
    injection Heq as <- <-. right. right. auto.
  - apply expireProposal_Ok in Hexec. cbv zeta in Hexec.
    destruct Hexec as (_ & _ & -> & _). left. storage_lookup.
  - apply registerAgent_Ok in Hexec. cbv zeta in Hexec.
    destruct Hexec as (_ & _ & -> & _). left. reflexivity.
  - apply setVault_Ok in Hexec. destruct Hexec as (-> & _). auto.
  - apply renounceOwnership_Ok in Hexec. destruct Hexec as (-> & _). auto.
  - apply on_ledger_Ok in Hexec. destruct Hexec as (-> & _). auto.
  - apply on_ledger_Ok in Hexec. destruct Hexec as (-> & _). auto.
  - apply on_ledger_Ok in Hexec. destruct Hexec as (-> & _). auto.
  - apply on_ledger_Ok in Hexec. destruct Hexec as (-> & _). auto.
Qed.

(** A placed stake keeps its amount and side, and a set claimed flag stays
    set, as long as the identifier of its proposal is not derived anew. *)
Lemma exec_stake_kept c sender call w' pid a :
  exec (env_of c sender) (world c) call = Ok w' ->
  amount (getStake (engine (world c)) pid a) <> 0 ->
  spares pid c (Transact sender call) ->
  let k := getStake (engine (world c)) pid a in
  let k' := getStake (engine w') pid a in
  amount k' = amount k /\ isFor k' = isFor k /\
  (claimed k = true -> claimed k' = true).
Proof.
  intros Hexec Hamt Hspare. cbv zeta.
  destruct (exec_stake_cases _ _ _ _ pid a Hexec)
    as [-> | [(_ & _ & [(? & ? & _ & Hz) | (? & ? & ? & -> & Hpid)])
             | (_ & _ & _ & _ & ->)]].
  - auto.
  - contradiction.
  - simpl in Hspare, Hpid. congruence.
  - simpl. auto.
Qed.

Lemma run_stake_kept l : forall c pid a,
  amount (getStake (engine (world c)) pid a) <> 0 ->
  spared pid c l ->
  let k := getStake (engine (world c)) pid a in
  let k' := getStake (engine (world (run c l))) pid a in
  amount k' = amount k /\ isFor k' = isFor k /\
  (claimed k = true -> claimed k' = true).
Proof.
  induction l as [| st l IH]; intros c pid a Hamt Hsp; cbv zeta.
  - auto.
  - destruct Hsp as [Hst Hl]. rewrite run_cons.
    assert (Hstep : amount (getStake (engine (world (step c st))) pid a)
                    = amount (getStake (engine (world c)) pid a) /\
                    isFor (getStake (engine (world (step c st))) pid a)
                    = isFor (getStake (engine (world c)) pid a) /\
                    (claimed (getStake (engine (world c)) pid a) = true ->
                     claimed (getStake (engine (world (step c st))) pid a) = true)).
    { destruct (step_cases c st)
        as (_ & _ & _ & [-> | (sender & call & -> & _ & Hexec)]); [auto|].
      eapply exec_stake_kept; eassumption. }
    destruct Hstep as (Ha & Hf & Hc).
    assert (Hamt' : amount (getStake (engine (world (step c st))) pid a) <> 0)
      by congruence.
    destruct (IH (step c st) pid a Hamt' Hl) as (Ha' & Hf' & Hc').
    repeat split; try congruence. auto.
Qed.

(** *** The invariants hold in every reachable state *)

Lemma exec_stakers_registered e w call w' :
  exec e w call = Ok w' ->
  stakers_registered (engine w) -> stakers_registered (engine w').
Proof.
  intros Hexec Hinv pid a Hamt.
  destruct (exec_stake_cases _ _ _ _ pid a Hexec)
    as [Heq | [(_ & Hreg & _) | (_ & _ & _ & Ha & _)]].
  - rewrite Heq in Hamt. eapply exec_registered; eauto.
  - eapply exec_registered; eauto.
  - eapply exec_registered; eauto.
Qed.

Lemma exec_cooldown_cases e w call w' a :
  exec e w call = Ok w' ->
  cooldownUntil (getAgentInfo (engine w') a)
  = cooldownUntil (getAgentInfo (engine w) a) \/
  (exists pid, call = ClaimRewards pid /\ a = msg_sender e /\
               amount (getStake (engine w) pid a) <> 0).
Proof.
  intros Hexec.
  destruct call; simpl in Hexec.
  - ok_bind Hexec as r Hr. destruct r as [w1 pid1]. injection Hexec as <-.
    apply createProposal_Ok in Hr. cbv zeta in Hr.
    destruct Hr as (_ & _ & _ & _ & -> & _). simpl.
    rewrite created_agent. case_decide; auto.
  - apply stake_Ok in Hexec. cbv zeta in Hexec.
    destruct Hexec as (_ & _ & _ & _ & _ & _ & -> & _).
    rewrite (getAgentInfo_ext _ _ a (finalized_agents _ _ _)).
    rewrite staked_agent. case_decide; auto.
  - apply claimRewards_Ok in Hexec. cbv zeta in Hexec.
    destruct Hexec as (Hs & _). apply settle_Ok in Hs. cbv zeta in Hs.
    destruct Hs as (_ & Hamt & _ & _ & _ & _ & _ & Hag & _).
    rewrite Hag. case_decide; [subst a; eauto | auto].
  - apply expireProposal_Ok in Hexec. cbv zeta in Hexec.
    destruct Hexec as (_ & _ & -> & _). left. storage_lookup.
  - apply registerAgent_Ok in Hexec. cbv zeta in Hexec.
    destruct Hexec as (_ & _ & -> & _). left. storage_lookup.
  - apply setVault_Ok in Hexec. destruct Hexec as (-> & _). auto.
  - apply renounceOwnership_Ok in Hexec. destruct Hexec as (-> & _). auto.
  - apply on_ledger_Ok in Hexec. destruct Hexec as (-> & _). auto.
  - apply on_ledger_Ok in Hexec. destruct Hexec as (-> & _). auto.
  - apply on_ledger_Ok in Hexec. destruct Hexec as (-> & _). auto.
  - apply on_ledger_Ok in Hexec. destruct Hexec as (-> & _). auto.
Qed.

Lemma exec_cooled_registered e w call w' :
  exec e w call = Ok w' ->
  stakers_registered (engine w) ->
  cooled_registered (engine w) -> cooled_registered (engine w').
Proof.
  intros Hexec Hst Hinv a Hcool.
  destruct (exec_cooldown_cases _ _ _ _ a Hexec) as [Heq | (pid & _ & _ & Ha)].
  - rewrite Heq in Hcool. eapply exec_registered; eauto.
  - eapply exec_registered; eauto.
Qed.

Lemma reachable_invariants c :
  reachable c ->
  stakers_registered (engine (world c)) /\
  cooled_registered (engine (world c)).
Proof.
  induction 1 as [| c st Hreach [IH1 IH2]].
  - split; intros ? **; exfalso; eauto.
  - destruct (step_cases c st)
      as (_ & _ & _ & [-> | (sender & call & -> & _ & Hexec)]); [auto|].
    split.
    + eapply exec_stakers_registered; eauto.
    + eapply exec_cooled_registered; eauto.
Qed.

Lemma reachable_run l : forall c, reachable c -> reachable (run c l).
Proof.
  induction l as [| st l IH]; intros c Hc; [assumption|].
  rewrite run_cons. apply IH. constructor. assumption.
Qed.

(** ** The quorum rule (C2) *)

(** C2. The decision [_checkConsensus] takes on the totals
    [(forTotal, againstTotal)] of a proposal, as long as the scaled totals
    fit 256 bits: nothing happens on an empty proposal; otherwise the
    shares are [x * 10000 / total], a "for" share of at least 6600 makes
    the proposal Executed whatever the "against" share is, else an
    "against" share of at least 6600 makes it Rejected, else nothing
    changes.  Every successful [stake] on a Pending proposal adds the amount
    to one total and leaves the proposal in the status this rule gives on
    the new totals. *)
Theorem C2_quorum_decision :
  (forall s pid,
     let p := getProposal s pid in
     let f := totalStakeFor p in
     let a := totalStakeAgainst p in
     f * 10000 <= MAX_UINT256 ->
     a * 10000 <= MAX_UINT256 ->
     exists s',
       _checkConsensus s pid = Ok s' /\
       (f + a = 0 -> s' = s) /\
       (f + a <> 0 -> 6600 <= f * 10000 / (f + a) ->
        getProposal s' pid = with_status p Executed) /\
       (f + a <> 0 -> f * 10000 / (f + a) < 6600 ->
        6600 <= a * 10000 / (f + a) ->
        getProposal s' pid = with_status p Rejected) /\
       (f + a <> 0 -> f * 10000 / (f + a) < 6600 ->
        a * 10000 / (f + a) < 6600 -> s' = s)) /\
  (forall e w pid amount isFor w',
     stake e w pid amount isFor = Ok w' ->
     let p := getProposal (engine w) pid in
     let p' := getProposal (engine w') pid in
     status p = Pending /\
     totalStakeFor p'
       = (if isFor then totalStakeFor p + amount else totalStakeFor p) /\
     totalStakeAgainst p'
       = (if isFor then totalStakeAgainst p else totalStakeAgainst p + amount) /\
     status p' = quorum_rule (totalStakeFor p') (totalStakeAgainst p')).
Proof.
  split.
  - intros s pid p f a Hf Ha.
    exists (finalized s pid (quorum_rule f a)).
    split; [apply checkConsensus_fits; assumption|].
    unfold quorum_rule. cbv zeta.
    repeat split.
    + intros Hz. apply N.eqb_eq in Hz. rewrite Hz. reflexivity.
    + intros Hz Hq. apply N.eqb_neq in Hz. apply N.leb_le in Hq.
      rewrite Hz, Hq. rewrite finalized_proposal.
      case_decide; [reflexivity|contradiction].
    + intros Hz Hq Hr. apply N.eqb_neq in Hz. apply N.leb_gt in Hq.
      apply N.leb_le in Hr. rewrite Hz, Hq, Hr. rewrite finalized_proposal.
      case_decide; [reflexivity|contradiction].
    + intros Hz Hq Hr. apply N.eqb_neq in Hz. apply N.leb_gt in Hq, Hr.
      rewrite Hz, Hq, Hr. reflexivity.
  - intros e w pid amount isFor w' H. cbv zeta.
    apply stake_Ok in H. cbv zeta in H.
    destruct H as (_ & Hp & _ & _ & _ & _ & -> & _).
    set (p1 := backed (getProposal (engine w) pid) amount isFor).
    assert (Hp1 : status p1 = Pending)
      by (unfold p1; rewrite backed_status; assumption).
    assert (Hnew : getProposal
                     (finalized (staked e (engine w) pid amount isFor) pid
                        (quorum_rule (totalStakeFor p1) (totalStakeAgainst p1)))
                     pid
                   = with_status p1
                       (quorum_rule (totalStakeFor p1) (totalStakeAgainst p1))).
    { rewrite finalized_proposal, staked_proposal. fold p1.
      destruct (quorum_rule _ _) eqn:Hq; case_decide; try contradiction;
        try reflexivity.
      - clear -Hp1. clearbody p1. destruct p1; simpl in *. subst.
        reflexivity.
      - exfalso. eapply quorum_rule_not_Expired; eassumption. }
    rewrite Hnew. simpl.
    repeat split; try assumption; unfold p1, backed; destruct isFor; reflexivity.
Qed.

(** Scenario B: 10,000 for and 25,000 against make the proposal Rejected,
    in the consensus check and in the [stake] call that runs it. *)
Lemma C2_quorum_decision_witness :
  (exists s',
     _checkConsensus Scenario.rejecting Scenario.pidLong = Ok s' /\
     getProposal s' Scenario.pidLong
     = with_status (getProposal Scenario.rejecting Scenario.pidLong) Rejected) /\
  (exists w',
     stake (env_of (run Scenario.start [Scenario.propose]) Scenario.vox)
           (world (run Scenario.start [Scenario.propose]))
           Scenario.pidLong 25000 false = Ok w' /\
     totalStakeFor (getProposal (engine w') Scenario.pidLong) = 10000 /\
     totalStakeAgainst (getProposal (engine w') Scenario.pidLong) = 25000 /\
     status (getProposal (engine w') Scenario.pidLong) = Rejected).
Proof.
  split.
  - destruct (proj1 C2_quorum_decision Scenario.rejecting Scenario.pidLong)
      as (s' & Hrun & _ & _ & Hrej & _).
    + vm_compute. discriminate.
    + vm_compute. discriminate.
    + exists s'. split; [exact Hrun|].
      apply Hrej.
      * vm_compute. discriminate.
      * vm_compute. reflexivity.
      * vm_compute. discriminate.
  - destruct (stake (env_of (run Scenario.start [Scenario.propose]) Scenario.vox)
                    (world (run Scenario.start [Scenario.propose]))
                    Scenario.pidLong 25000 false)
      as [w'|err] eqn:H; [|vm_compute in H; discriminate].
    exists w'. split; [reflexivity|].
    pose proof (proj2 C2_quorum_decision _ _ _ _ _ _ H) as Hst.
    cbv zeta in Hst. destruct Hst as (_ & Hf & Ha & Hs).
    rewrite Hs, Hf, Ha. repeat split; vm_compute; reflexivity.
Defined.

(** ** Settlement of one stake (C3) *)

Lemma classify_Winner st k :
  classify st k = Winner <->
  (st = Executed /\ isFor k = true) \/ (st = Rejected /\ isFor k = false).
Proof.
  unfold classify. destruct st, (isFor k); simpl; split;
    intros H; try discriminate; try reflexivity; auto;
    destruct H as [[? ?] | [? ?]]; discriminate.
Qed.

Lemma classify_Refund st k :
  classify st k = Refund <-> st = Expired.
Proof.
  unfold classify. destruct st, (isFor k); simpl; split;
    intros H; try discriminate; try reflexivity.
Qed.

Lemma classify_Loser st k :
  st <> Pending ->
  classify st k = Loser <->
  ~ ((st = Executed /\ isFor k = true) \/ (st = Rejected /\ isFor k = false))
  /\ st <> Expired.
Proof.
  intros Hfin. unfold classify. destruct st, (isFor k); simpl; split;
    intros H; try discriminate; try reflexivity; try contradiction;
    try (split; [intros [[? ?] | [? ?]]; discriminate | discriminate]);
    destruct H as [H1 H2]; try (exfalso; apply H2; reflexivity);
    exfalso; apply H1; auto.
Qed.

(** Conditions under which a claim goes through. *)
Lemma claimRewards_succeeds e w pid :
  let u := msg_sender e in
  let p := getProposal (engine w) pid in
  let k := getStake (engine w) pid u in
  let ag := getAgentInfo (engine w) u in
  status p <> Pending ->
  amount k <> 0 ->
  claimed k = false ->
  amount k * 1000 <= MAX_UINT256 ->
  wins ag + 1 <= MAX_UINT256 ->
  losses ag + 1 <= MAX_UINT256 ->
  block_timestamp e + COOLDOWN_PERIOD <= MAX_UINT256 ->
  this e <> 0 ->
  u <> 0 ->
  payout_of (status p) k <= Token.balanceOf (ledger w) (this e) ->
  exists w', claimRewards e w pid = Ok w'.
Proof.
  cbv zeta. intros Hfin Hamt Hcl Hfit Hw Hl Ht Hthis Hu Hbal.
  pose proof (payout_positive (status (getProposal (engine w) pid)) _ Hamt)
    as Hpos.
  pose proof (slash_below_stake _ Hamt) as Hslash.
  assert (Hbonus : bonus_of (getStake (engine w) pid (msg_sender e))
                   <= amount (getStake (engine w) pid (msg_sender e))).
  { unfold bonus_of, REWARD_BPS. apply N.Div0.div_le_upper_bound. lia. }
  assert (Hsettle : exists s1,
            settle e (engine w) pid
            = Ok (s1, payout_of (status (getProposal (engine w) pid))
                                (getStake (engine w) pid (msg_sender e)))).
  { unfold settle. cbv zeta.
    apply status_eqb_neq in Hfin. rewrite Hfin.
    apply N.eqb_neq in Hamt. rewrite Hamt, Hcl.
    unfold payout_of, classify, bonus_of, slash_of in *.
    destruct (_ || _).
    - unfold REWARD_BPS in *.
      rewrite mul256_fits by lia. simpl bind.
      rewrite add256_fits by lia. simpl bind.
      rewrite add256_fits by exact Hw. simpl bind. eauto.
    - destruct (status_eqb _ Expired); [eauto|].
      unfold SLASH_BPS in *.
      rewrite mul256_fits by lia. simpl bind.
      rewrite sub256_fits by lia. simpl bind.
      rewrite add256_fits by exact Hl. simpl bind.
      rewrite add256_fits by exact Ht. simpl bind. eauto. }
  destruct Hsettle as [s1 Hs1].
  unfold claimRewards, transfer_payout. rewrite Hs1. simpl.
  apply N.ltb_lt in Hpos. rewrite Hpos.
  unfold token_transfer, Token.transfer, Token._transfer. simpl.
  apply N.eqb_neq in Hthis, Hu. rewrite Hthis, Hu.
  apply N.ltb_ge in Hbal. rewrite Hbal. simpl. eauto.
Qed.

(** C3. A successful claim on a finalized proposal transfers to the staker
    of amount [a], through the ledger: [a + a * 500 / 10000] to a winner
    (Executed and staked for, or Rejected and staked against), whose win
    count goes up by one; exactly [a] on an Expired proposal, the agent
    record staying as it was; [a - a * 1000 / 10000] to anyone else, whose
    loss count goes up by one.  The claim goes through whenever the
    arithmetic fits 256 bits and the engine's balance covers the payout. *)
Theorem C3_settlement_payout :
  forall e w pid,
    let u := msg_sender e in
    let p := getProposal (engine w) pid in
    let k := getStake (engine w) pid u in
    let ag := getAgentInfo (engine w) u in
    let won := (status p = Executed /\ isFor k = true) \/
               (status p = Rejected /\ isFor k = false) in
    (forall w',
       claimRewards e w pid = Ok w' ->
       let ag' := getAgentInfo (engine w') u in
       exists payout,
         Token.transfer (this e) (ledger w) u payout = Ok (ledger w') /\
         calls w' = calls w ++ [CallTransfer u payout] /\
         (won ->
          payout = amount k + amount k * 500 / 10000 /\
          wins ag' = wins ag + 1 /\ losses ag' = losses ag /\
          cooldownUntil ag' = cooldownUntil ag) /\
         (status p = Expired -> payout = amount k /\ ag' = ag) /\
         (~ won -> status p <> Expired ->
          payout = amount k - amount k * 1000 / 10000 /\
          losses ag' = losses ag + 1 /\ wins ag' = wins ag)) /\
    (status p <> Pending ->
     amount k <> 0 ->
     claimed k = false ->
     amount k * 1000 <= MAX_UINT256 ->
     wins ag + 1 <= MAX_UINT256 ->
     losses ag + 1 <= MAX_UINT256 ->
     block_timestamp e + COOLDOWN_PERIOD <= MAX_UINT256 ->
     this e <> 0 ->
     u <> 0 ->
     payout_of (status p) k <= Token.balanceOf (ledger w) (this e) ->
     exists w', claimRewards e w pid = Ok w').
Proof.
  intros e w pid. cbv zeta. split; [| apply claimRewards_succeeds].
  intros w' H.
  apply claimRewards_Ok in H. cbv zeta in H.
  destruct H as (Hs & _ & Hl & Hcalls).
  apply settle_Ok in Hs. cbv zeta in Hs.
  destruct Hs as (Hfin & _ & _ & _ & _ & _ & _ & Hag & _).
  specialize (Hag (msg_sender e)).
  destruct (decide (msg_sender e = msg_sender e)); [|contradiction].
  eexists. split; [exact Hl|]. split; [exact Hcalls|].
  rewrite Hag. unfold payout_of.
  repeat split.
  - apply classify_Winner in H. rewrite H. reflexivity.
  - apply classify_Winner in H. rewrite H. reflexivity.
  - apply classify_Winner in H. rewrite H. reflexivity.
  - apply classify_Winner in H. rewrite H. reflexivity.
  - apply (classify_Refund _ (getStake (engine w) pid (msg_sender e))) in H.
    rewrite H. reflexivity.
  - apply (classify_Refund _ (getStake (engine w) pid (msg_sender e))) in H.
    rewrite H. reflexivity.
  - rewrite (proj2 (classify_Loser _ _ Hfin) (conj H H0)). reflexivity.
  - rewrite (proj2 (classify_Loser _ _ Hfin) (conj H H0)). reflexivity.
  - rewrite (proj2 (classify_Loser _ _ Hfin) (conj H H0)). reflexivity.
Qed.

(** Scenario E: a winning stake of 10,000 is paid 10,500 and a losing one
    9,000. *)
Lemma C3_settlement_payout_witness :
  (exists w',
     claimRewards (env_of Scenario.executed Scenario.mo)
                  (world Scenario.executed) Scenario.pidLong = Ok w' /\
     calls w' = calls (world Scenario.executed)
                ++ [CallTransfer Scenario.mo 10500]) /\
  (exists w',
     claimRewards (env_of Scenario.rejected Scenario.mo)
                  (world Scenario.rejected) Scenario.pidLong = Ok w' /\
     calls w' = calls (world Scenario.rejected)
                ++ [CallTransfer Scenario.mo 9000]).
Proof.
  split.
  - pose proof (C3_settlement_payout (env_of Scenario.executed Scenario.mo)
                  (world Scenario.executed) Scenario.pidLong) as HH.
    cbv zeta in HH. destruct HH as [Hpay Hrun].
    specialize (Hrun ltac:(vm_compute; discriminate)
                     ltac:(vm_compute; discriminate)
                     ltac:(vm_compute; reflexivity)
                     ltac:(vm_compute; discriminate)
                     ltac:(vm_compute; discriminate)
                     ltac:(vm_compute; discriminate)
                     ltac:(vm_compute; discriminate)
                     ltac:(vm_compute; discriminate)
                     ltac:(vm_compute; discriminate)
                     ltac:(vm_compute; discriminate)).
    destruct Hrun as [w' Hw']. exists w'. split; [assumption|].
    destruct (Hpay w' Hw') as (payout & _ & Hcalls & Hwon & _).
    destruct Hwon as (Hp & _).
    { left. split; vm_compute; reflexivity. }
    rewrite Hcalls, Hp. vm_compute. reflexivity.
  - pose proof (C3_settlement_payout (env_of Scenario.rejected Scenario.mo)
                  (world Scenario.rejected) Scenario.pidLong) as HH.
    cbv zeta in HH. destruct HH as [Hpay Hrun].
    specialize (Hrun ltac:(vm_compute; discriminate)
                     ltac:(vm_compute; discriminate)
                     ltac:(vm_compute; reflexivity)
                     ltac:(vm_compute; discriminate)
                     ltac:(vm_compute; discriminate)
                     ltac:(vm_compute; discriminate)
                     ltac:(vm_compute; discriminate)
                     ltac:(vm_compute; discriminate)
                     ltac:(vm_compute; discriminate)
                     ltac:(vm_compute; discriminate)).
    destruct Hrun as [w' Hw']. exists w'. split; [assumption|].
    destruct (Hpay w' Hw') as (payout & _ & Hcalls & _ & _ & Hlost).
    destruct Hlost as (Hp & _).
    { intros [[H _] | [_ H]]; vm_compute in H; discriminate. }
    { vm_compute. discriminate. }
    rewrite Hcalls, Hp. vm_compute. reflexivity.
Defined.

(** ** Cooldown (C9) *)

Lemma bind_not_Err {A B} (r : result A) (k : A -> result B) (err : Error) :
  r <> Err err -> (forall a, k a <> Err err) -> bind r k <> Err err.
Proof.
  destruct r as [a|err']; simpl; intros Hr Hk; [apply Hk | congruence].
Qed.

Lemma add256_panics x y err : err <> Panic -> add256 x y <> Err err.
Proof. unfold add256. destruct (_ <=? _); congruence. Qed.

Lemma mul256_panics x y err : err <> Panic -> mul256 x y <> Err err.
Proof. unfold mul256. destruct (_ <=? _); congruence. Qed.

Lemma sub256_panics x y err : err <> Panic -> sub256 x y <> Err err.
Proof. unfold sub256. destruct (_ <=? _); congruence. Qed.

(** A computation cannot revert with a given engine error if none of its
    checks raises it: walk through the checks. *)
Ltac never_reverts_with :=
  repeat first
    [ discriminate
    | apply add256_panics; discriminate
    | apply mul256_panics; discriminate
    | apply sub256_panics; discriminate
    | match goal with
      | |- (if ?b then _ else _) <> _ => destruct b
      | |- bind _ _ <> _ => apply bind_not_Err; [| intros ?]
      end ].

Lemma token_transferFrom_own_errors e w from to amount :
  token_transferFrom e w from to amount <> Err AgentOnCooldown.
Proof.
  unfold token_transferFrom, Token.transferFrom, Token._approve,
    Token._transfer. cbv zeta.
  never_reverts_with.
Qed.

Lemma checkConsensus_own_errors s pid :
  _checkConsensus s pid <> Err AgentOnCooldown.
Proof. unfold _checkConsensus. cbv zeta. never_reverts_with. Qed.

Lemma createProposal_on_cooldown e w token direction initialStake :
  registered (getAgentInfo (engine w) (msg_sender e)) = true ->
  block_timestamp e < cooldownUntil (getAgentInfo (engine w) (msg_sender e)) ->
  createProposal e w token direction initialStake = Err AgentOnCooldown.
Proof.
  intros Hreg Hcool. unfold createProposal. cbv zeta.
  rewrite Hreg. simpl. apply N.ltb_lt in Hcool. rewrite Hcool. reflexivity.
Qed.

Lemma createProposal_off_cooldown e w token direction initialStake :
  cooldownUntil (getAgentInfo (engine w) (msg_sender e)) <= block_timestamp e ->
  createProposal e w token direction initialStake <> Err AgentOnCooldown.
Proof.
  intros Hcool. unfold createProposal. cbv zeta.
  apply N.ltb_ge in Hcool. rewrite Hcool.
  never_reverts_with. apply token_transferFrom_own_errors.
Qed.

Lemma stake_never_on_cooldown e w pid amount isFor :
  stake e w pid amount isFor <> Err AgentOnCooldown.
Proof.
  unfold stake. cbv zeta. never_reverts_with.
  - apply token_transferFrom_own_errors.
  - apply checkConsensus_own_errors.
Qed.

(** [createProposal] goes through once the cooldown is over and nothing
    else stands in its way. *)
Lemma createProposal_goes_through e w token direction initialStake t' :
  registered (getAgentInfo (engine w) (msg_sender e)) = true ->
  cooldownUntil (getAgentInfo (engine w) (msg_sender e)) <= block_timestamp e ->
  initialStake <> 0 ->
  block_timestamp e + PROPOSAL_TIMEOUT <= MAX_UINT256 ->
  totalStaked (getAgentInfo (engine w) (msg_sender e)) + initialStake
  <= MAX_UINT256 ->
  Token.transferFrom (this e) (ledger w) (msg_sender e) (this e) initialStake
  = Ok t' ->
  exists w',
    createProposal e w token direction initialStake
    = Ok (w', keccak256 e token direction (block_timestamp e) (msg_sender e)) /\
    engine w' = created e (engine w) token direction initialStake /\
    ledger w' = t'.
Proof.
  intros Hreg Hcool Hst Hexp Htot Hpay.
  assert (Hrun : exists w',
             createProposal e w token direction initialStake
             = Ok (w', keccak256 e token direction (block_timestamp e)
                                 (msg_sender e)) /\ ledger w' = t').
  { unfold createProposal. cbv zeta. rewrite Hreg. simpl negb. cbv iota.
    rewrite (proj2 (N.ltb_ge _ _) Hcool).
    rewrite (proj2 (N.eqb_neq _ _) Hst).
    rewrite (add256_fits _ _ Hexp). simpl bind.
    change (getAgentInfo (push_staker _ _ _) (msg_sender e))
      with (getAgentInfo (engine w) (msg_sender e)).
    rewrite (add256_fits _ _ Htot). simpl bind.
    unfold token_transferFrom. simpl ledger. rewrite Hpay. simpl bind.
    eexists. split; reflexivity. }
  destruct Hrun as (w' & Hrun & Hl). exists w'.
  split; [exact Hrun|]. split; [|exact Hl].
  apply createProposal_Ok in Hrun. cbv zeta in Hrun. tauto.
Qed.

(** [stake] goes through on an open proposal the caller has no stake on,
    whatever the caller's cooldown is. *)
Lemma stake_goes_through e w pid amount isFor t' :
  let s := engine w in
  let u := msg_sender e in
  let p' := backed (getProposal s pid) amount isFor in
  registered (getAgentInfo s u) = true ->
  status (getProposal s pid) = Pending ->
  block_timestamp e < expiresAt (getProposal s pid) ->
  Consensus.amount (getStake s pid u) = 0 ->
  amount <> 0 ->
  totalStaked (getAgentInfo s u) + amount <= MAX_UINT256 ->
  totalStakeFor p' * 10000 <= MAX_UINT256 ->
  totalStakeAgainst p' * 10000 <= MAX_UINT256 ->
  Token.transferFrom (this e) (ledger w) u (this e) amount = Ok t' ->
  exists w',
    stake e w pid amount isFor = Ok w' /\
    engine w' = finalized (staked e s pid amount isFor) pid
                  (quorum_rule (totalStakeFor p') (totalStakeAgainst p')) /\
    ledger w' = t'.
Proof.
  cbv zeta. intros Hreg Hpend Htime Hzero Hamt Htot Hfor Hagainst Hpay.
  assert (Hrun : exists w', stake e w pid amount isFor = Ok w' /\ ledger w' = t').
  { unfold stake. cbv zeta. rewrite Hreg, Hpend. simpl negb. cbv iota.
    rewrite (proj2 (N.leb_gt _ _) Htime).
    rewrite Hzero. simpl (0 <? 0). cbv iota.
    rewrite (proj2 (N.eqb_neq _ _) Hamt).
    change (getAgentInfo (push_staker _ _ _) (msg_sender e))
      with (getAgentInfo (engine w) (msg_sender e)).
    rewrite (add256_fits _ _ Htot). simpl bind.
    change (getProposal (set_agent _ _ _) pid)
      with (getProposal (engine w) pid).
    assert (Hmax : MAX_UINT256 = 2 ^ 256 - 1) by reflexivity.
    unfold backed in Hfor, Hagainst.
    destruct isFor; simpl in Hfor, Hagainst.
    - rewrite add256_fits by lia. simpl bind.
      unfold token_transferFrom. simpl ledger. rewrite Hpay. simpl bind.
      rewrite checkConsensus_fits.
      + simpl bind. eexists. split; reflexivity.
      + cbv zeta. unfold getProposal. simpl. rewrite lookup_insert_eq.
        simpl. exact Hfor.
      + cbv zeta. unfold getProposal. simpl. rewrite lookup_insert_eq.
        simpl. exact Hagainst.
    - rewrite add256_fits by lia. simpl bind.
      unfold token_transferFrom. simpl ledger. rewrite Hpay. simpl bind.
      rewrite checkConsensus_fits.
      + simpl bind. eexists. split; reflexivity.
      + cbv zeta. unfold getProposal. simpl. rewrite lookup_insert_eq.
        simpl. exact Hfor.
      + cbv zeta. unfold getProposal. simpl. rewrite lookup_insert_eq.
        simpl. exact Hagainst. }
  destruct Hrun as (w' & Hrun & Hl). exists w'.
  split; [exact Hrun|]. split; [|exact Hl].
  apply stake_Ok in Hrun. cbv zeta in Hrun. tauto.
Qed.

(** C9. In every reachable state: a claim that settles the caller as a
    loser sets the caller's [cooldownUntil] to the current time plus
    [COOLDOWN_PERIOD].  While the current time is below an agent's
    [cooldownUntil], every [createProposal] of that agent reverts with
    [AgentOnCooldown].  From [cooldownUntil] on the cooldown no longer
    counts: no [createProposal] of the agent reverts with that error, and
    the call of a registered agent with a non-zero stake goes through
    whenever the ledger accepts the transfer of the stake (and no counter
    overflows), creating the proposal.  Cooldown never counts for
    [stake]: it never reverts with [AgentOnCooldown], and on a pending
    proposal that is not overdue, a non-zero stake of a registered agent
    that has no stake on it yet goes through whenever the ledger accepts
    the transfer (and no counter overflows), whatever the agent's
    [cooldownUntil] is. *)
Theorem C9_cooldown_enforced :
  forall c,
    reachable c ->
    (forall u pid w',
       let p := getProposal (engine (world c)) pid in
       let k := getStake (engine (world c)) pid u in
       claimRewards (env_of c u) (world c) pid = Ok w' ->
       ~ ((status p = Executed /\ isFor k = true) \/
          (status p = Rejected /\ isFor k = false)) ->
       status p <> Expired ->
       cooldownUntil (getAgentInfo (engine w') u) = now c + COOLDOWN_PERIOD) /\
    (forall u token direction initialStake,
       now c < cooldownUntil (getAgentInfo (engine (world c)) u) ->
       createProposal (env_of c u) (world c) token direction initialStake
       = Err AgentOnCooldown) /\
    (forall u token direction initialStake,
       cooldownUntil (getAgentInfo (engine (world c)) u) <= now c ->
       createProposal (env_of c u) (world c) token direction initialStake
       <> Err AgentOnCooldown) /\
    (forall u token direction initialStake t',
       cooldownUntil (getAgentInfo (engine (world c)) u) <= now c ->
       registered (getAgentInfo (engine (world c)) u) = true ->
       initialStake <> 0 ->
       now c + PROPOSAL_TIMEOUT <= MAX_UINT256 ->
       totalStaked (getAgentInfo (engine (world c)) u) + initialStake
       <= MAX_UINT256 ->
       Token.transferFrom (self c) (ledger (world c)) u (self c) initialStake
       = Ok t' ->
       exists w',
         createProposal (env_of c u) (world c) token direction initialStake
         = Ok (w', hash c token direction (now c) u) /\
         engine w'
         = created (env_of c u) (engine (world c)) token direction
                   initialStake /\
         ledger w' = t') /\
    (forall u pid amount isFor,
       stake (env_of c u) (world c) pid amount isFor <> Err AgentOnCooldown) /\
    (forall u pid amount isFor t',
       let s := engine (world c) in
       let p' := backed (getProposal s pid) amount isFor in
       registered (getAgentInfo s u) = true ->
       status (getProposal s pid) = Pending ->
       now c < expiresAt (getProposal s pid) ->
       Consensus.amount (getStake s pid u) = 0 ->
       amount <> 0 ->
       totalStaked (getAgentInfo s u) + amount <= MAX_UINT256 ->
       totalStakeFor p' * 10000 <= MAX_UINT256 ->
       totalStakeAgainst p' * 10000 <= MAX_UINT256 ->
       Token.transferFrom (self c) (ledger (world c)) u (self c) amount
       = Ok t' ->
       exists w',
         stake (env_of c u) (world c) pid amount isFor = Ok w' /\
         engine w'
         = finalized (staked (env_of c u) s pid amount isFor) pid
             (quorum_rule (totalStakeFor p') (totalStakeAgainst p')) /\
         ledger w' = t').
Proof.
  intros c Hreach.
  destruct (reachable_invariants c Hreach) as [_ Hcooled].
  split; [|split; [|split; [|split; [|split]]]].
  - intros u pid w'. cbv zeta. intros H Hlost Hexp.
    apply claimRewards_Ok in H. cbv zeta in H. destruct H as (Hs & _).
    apply settle_Ok in Hs. cbv zeta in Hs.
    destruct Hs as (Hfin & _ & _ & _ & _ & _ & _ & Hag & _).
    specialize (Hag u). simpl in Hag.
    destruct (decide (u = u)); [|contradiction].
    rewrite Hag.
    rewrite (proj2 (classify_Loser _ _ Hfin) (conj Hlost Hexp)). reflexivity.
  - intros u token direction initialStake Hcool.
    apply createProposal_on_cooldown; [|exact Hcool].
    apply Hcooled. simpl. lia.
  - intros u token direction initialStake Hcool.
    apply createProposal_off_cooldown. exact Hcool.
  - intros u token direction initialStake t' Hcool Hreg Hst Hexp Htot Hpay.
    exact (createProposal_goes_through (env_of c u) (world c) token direction
             initialStake t' Hreg Hcool Hst Hexp Htot Hpay).
  - intros u pid amount isFor. apply stake_never_on_cooldown.
  - intros u pid amount isFor t'. cbv zeta.
    intros Hreg Hpend Htime Hzero Hamt Htot Hfor Hagainst Hpay.
    exact (stake_goes_through (env_of c u) (world c) pid amount isFor t'
             Hreg Hpend Htime Hzero Hamt Htot Hfor Hagainst Hpay).
Qed.

Lemma reachable_start : reachable Scenario.start.
Proof. apply reachable_run. constructor. Qed.

Lemma reachable_slashed : reachable Scenario.slashed.
Proof. do 2 apply reachable_run. apply reachable_start. Qed.

(** The slashed creator of scenario B is on cooldown until 1060.  Until
    then it cannot propose, though its stake on the open proposal of
    another agent goes through; after sixty seconds its proposal goes
    through as well. *)
Lemma C9_cooldown_enforced_witness :
  cooldownUntil (getAgentInfo (engine (world Scenario.slashed)) Scenario.mo)
  = 1060 /\
  now Scenario.rivalled = 1000 /\
  createProposal (env_of Scenario.slashed Scenario.mo)
                 (world Scenario.slashed) Scenario.targetToken Long 5000
  = Err AgentOnCooldown /\
  (exists w',
     stake (env_of Scenario.rivalled Scenario.mo) (world Scenario.rivalled)
           Scenario.pidRival 1000 false = Ok w') /\
  (exists w',
     createProposal (env_of (step Scenario.slashed (Warp 60)) Scenario.mo)
                    (world (step Scenario.slashed (Warp 60)))
                    Scenario.targetToken Long 5000
     = Ok (w', Scenario.pack Scenario.targetToken Long 1060 Scenario.mo)).
Proof.
  split; [vm_compute; reflexivity|]. split; [vm_compute; reflexivity|].
  split; [|split].
  - apply (C9_cooldown_enforced Scenario.slashed reachable_slashed).
    vm_compute. reflexivity.
  - destruct (Token.transferFrom (self Scenario.rivalled)
                (ledger (world Scenario.rivalled)) Scenario.mo
                (self Scenario.rivalled) 1000) as [t'|err] eqn:Hpay;
      [|vm_compute in Hpay; discriminate].
    pose proof (C9_cooldown_enforced Scenario.rivalled
                  (reachable_run _ _ reachable_slashed)) as HC.
    destruct HC as (_ & _ & _ & _ & _ & Hstake).
    specialize (Hstake Scenario.mo Scenario.pidRival 1000 false t').
    cbv zeta in Hstake.
    destruct (Hstake ltac:(vm_compute; reflexivity)
                     ltac:(vm_compute; reflexivity)
                     ltac:(vm_compute; reflexivity)
                     ltac:(vm_compute; reflexivity)
                     ltac:(vm_compute; discriminate)
                     ltac:(vm_compute; discriminate)
                     ltac:(vm_compute; discriminate)
                     ltac:(vm_compute; discriminate)
                     Hpay) as (w' & Hrun & _).
    exists w'. exact Hrun.
  - destruct (Token.transferFrom (self (step Scenario.slashed (Warp 60)))
                (ledger (world (step Scenario.slashed (Warp 60)))) Scenario.mo
                (self (step Scenario.slashed (Warp 60))) 5000)
      as [t'|err] eqn:Hpay; [|vm_compute in Hpay; discriminate].
    pose proof (C9_cooldown_enforced (step Scenario.slashed (Warp 60))
                  (reachable_step _ _ reachable_slashed)) as HC.
    destruct HC as (_ & _ & _ & Hcreate & _).
    destruct (Hcreate Scenario.mo Scenario.targetToken Long 5000 t'
                ltac:(vm_compute; discriminate)
                ltac:(vm_compute; reflexivity)
                ltac:(vm_compute; discriminate)
                ltac:(vm_compute; discriminate)
                ltac:(vm_compute; discriminate)
                Hpay) as (w' & Hrun & _).
    exists w'. exact Hrun.
Defined.

(** ** Terminal proposals stay as they are (C5) *)

Lemma stake_on_inactive e w pid amount isFor :
  let p := getProposal (engine w) pid in
  status p <> Pending \/ expiresAt p <= block_timestamp e ->
  stake e w pid amount isFor
  = Err (if registered (getAgentInfo (engine w) (msg_sender e))
         then ProposalNotActive else NotRegisteredAgent).
Proof.
  cbv zeta. intros Hin. unfold stake. cbv zeta.
  destruct (registered _); [simpl|reflexivity].
  destruct (status_eqb _ Pending) eqn:Hst; [simpl|reflexivity].
  destruct Hin as [Hin | Hin].
  - apply status_eqb_eq in Hst. contradiction.
  - apply N.leb_le in Hin. rewrite Hin. reflexivity.
Qed.

(** C5, as amended.  Once a proposal has left Pending, no sequence of later
    steps that spares its identifier changes its record, so status and
    both totals stay what they were, and every staking attempt on it is
    rejected: with [ProposalNotActive] for a registered caller, with
    [NotRegisteredAgent] for any other. *)
Theorem C5_terminal_frozen :
  forall c pid l,
    status (getProposal (engine (world c)) pid) <> Pending ->
    spared pid c l ->
    let c' := run c l in
    getProposal (engine (world c')) pid = getProposal (engine (world c)) pid /\
    (forall u amount isFor,
       stake (env_of c' u) (world c') pid amount isFor
       = Err (if registered (getAgentInfo (engine (world c')) u)
              then ProposalNotActive else NotRegisteredAgent)).
Proof.
  intros c pid l Hfin Hsp. cbv zeta.
  pose proof (run_finalized_frozen l c pid Hfin Hsp) as Hsame.
  split; [assumption|].
  intros u amount isFor. apply stake_on_inactive. cbv zeta.
  left. rewrite Hsame. assumption.
Qed.

Lemma C5_terminal_frozen_witness :
  getProposal (engine (world (run Scenario.executed Scenario.aftermath)))
              Scenario.pidLong
  = getProposal (engine (world Scenario.executed)) Scenario.pidLong.
Proof.
  assert (Hsp : spared Scenario.pidLong Scenario.executed Scenario.aftermath)
    by (vm_compute; repeat split; discriminate).
  pose proof (C5_terminal_frozen Scenario.executed Scenario.pidLong
                Scenario.aftermath ltac:(vm_compute; discriminate) Hsp) as H.
  cbv zeta in H. destruct H as [H _]. exact H.
Defined.

(** The claim as stated fails for a caller that is not a registered agent:
    the modifier [onlyAgent] rejects the attempt before the status of the
    proposal is looked at. *)
Lemma C5_counterexample :
  status (getProposal (engine (world Scenario.executed)) Scenario.pidLong)
  = Executed /\
  stake (env_of Scenario.executed Scenario.stranger)
        (world Scenario.executed) Scenario.pidLong 5000 true
  = Err NotRegisteredAgent /\
  stake (env_of Scenario.executed Scenario.stranger)
        (world Scenario.executed) Scenario.pidLong 5000 true
  <> Err ProposalNotActive.
Proof. repeat split; vm_compute; congruence. Qed.

(** ** One stake per participant and proposal (C10) *)

Lemma stake_again e w pid amount isFor :
  let p := getProposal (engine w) pid in
  registered (getAgentInfo (engine w) (msg_sender e)) = true ->
  Consensus.amount (getStake (engine w) pid (msg_sender e)) <> 0 ->
  stake e w pid amount isFor
  = Err (if status_eqb (status p) Pending
            && (block_timestamp e <? expiresAt p)
         then AlreadyStaked else ProposalNotActive).
Proof.
  cbv zeta. intros Hreg Hamt. unfold stake. cbv zeta.
  rewrite Hreg. simpl.
  destruct (status_eqb _ Pending); [simpl|reflexivity].
  destruct (N.leb_spec (expiresAt (getProposal (engine w) pid))
                       (block_timestamp e)) as [Hle | Hgt].
  { apply N.ltb_ge in Hle. rewrite Hle. reflexivity. }
  apply N.ltb_lt in Hgt. rewrite Hgt.
  assert (Hpos : (0 <? Consensus.amount
                         (getStake (engine w) pid (msg_sender e))) = true)
    by (apply N.ltb_lt; lia).
  rewrite Hpos. reflexivity.
Qed.

(** A stake, once placed, is never taken out of storage: no call brings
    its amount back to zero, not even a [createProposal] that derives the
    identifier again, since that call writes a non-zero stake. *)
Lemma exec_stake_stays e w call w' pid a :
  exec e w call = Ok w' ->
  amount (getStake (engine w) pid a) <> 0 ->
  amount (getStake (engine w') pid a) <> 0.
Proof.
  intros Hexec Hamt.
  destruct (exec_stake_cases _ _ _ _ pid a Hexec)
    as [-> | [(-> & _ & [(? & ? & _ & Hz) | (tok & dir & st0 & -> & ->)])
             | (_ & _ & _ & _ & ->)]].
  - assumption.
  - contradiction.
  - simpl in Hexec. ok_bind Hexec as r Hr. destruct r as [w1 pid1].
    injection Hexec as <-.
    pose proof (createProposal_Ok _ _ _ _ _ _ _ Hr) as Hok.
    cbv zeta in Hok. destruct Hok as (_ & _ & Hst & _ & He & _).
    simpl. rewrite He, created_stake.
    rewrite decide_True by reflexivity. simpl. assumption.
  - simpl. assumption.
Qed.

Lemma run_stake_stays l : forall c pid a,
  amount (getStake (engine (world c)) pid a) <> 0 ->
  amount (getStake (engine (world (run c l))) pid a) <> 0.
Proof.
  induction l as [| st l IH]; intros c pid a Hamt; [assumption|].
  rewrite run_cons. apply IH.
  destruct (step_cases c st)
    as (_ & _ & _ & [-> | (sender & call & _ & _ & Hexec)]); [assumption|].
  exact (exec_stake_stays _ _ _ _ pid a Hexec Hamt).
Qed.

(** C10, as amended.  In a reachable state, let a participant hold a stake
    on a proposal.  Whatever steps follow, every further [stake] call of
    the participant on the proposal is rejected: with [AlreadyStaked]
    while the proposal is Pending and not past its expiry, with
    [ProposalNotActive] otherwise.  And over every sequence of later steps
    that spares the proposal's identifier (stakes, claims, expiries and
    everything else but a [createProposal] deriving the identifier again)
    the stake keeps its amount and its side. *)
Theorem C10_single_stake :
  forall c pid a l,
    reachable c ->
    amount (getStake (engine (world c)) pid a) <> 0 ->
    let c' := run c l in
    let k := getStake (engine (world c)) pid a in
    let k' := getStake (engine (world c')) pid a in
    let p' := getProposal (engine (world c')) pid in
    (forall amount isFor,
       stake (env_of c' a) (world c') pid amount isFor
       = Err (if status_eqb (status p') Pending && (now c' <? expiresAt p')
              then AlreadyStaked else ProposalNotActive)) /\
    (spared pid c l -> amount k' = amount k /\ isFor k' = isFor k).
Proof.
  intros c pid a l Hreach Hamt. cbv zeta. split.
  - intros amount isFor.
    pose proof (run_stake_stays l c pid a Hamt) as Hamt'.
    destruct (reachable_invariants _ (reachable_run l c Hreach)) as [Hinv _].
    apply (stake_again (env_of (run c l) a)); simpl.
    + eapply Hinv. eassumption.
    + assumption.
  - intros Hsp.
    destruct (run_stake_kept l c pid a Hamt Hsp) as (Ha & Hf & _).
    split; assumption.
Qed.

Lemma reachable_executed : reachable Scenario.executed.
Proof. apply reachable_run, reachable_start. Qed.

Lemma reachable_split : reachable Scenario.split.
Proof. apply reachable_run, reachable_start. Qed.

(** While the evenly split proposal is pending the creator's second stake
    is refused with [AlreadyStaked], also after the creator has submitted
    the proposal anew; and five seconds on, the creator's stake is what
    it was. *)
Lemma C10_single_stake_witness :
  stake (env_of (run Scenario.split
                     [Transact Scenario.mo
                        (CreateProposal Scenario.targetToken Long 1)])
                Scenario.mo)
        (world (run Scenario.split
                    [Transact Scenario.mo
                       (CreateProposal Scenario.targetToken Long 1)]))
        Scenario.pidLong 5000 true
  = Err AlreadyStaked /\
  amount (getStake (engine (world (run Scenario.split [Warp 5])))
                   Scenario.pidLong Scenario.mo)
  = amount (getStake (engine (world Scenario.split)) Scenario.pidLong
                     Scenario.mo).
Proof.
  split.
  - pose proof (C10_single_stake Scenario.split Scenario.pidLong Scenario.mo
                  [Transact Scenario.mo
                     (CreateProposal Scenario.targetToken Long 1)]
                  reachable_split ltac:(vm_compute; discriminate)) as H.
    cbv zeta in H. destruct H as (H & _).
    etransitivity; [exact (H 5000 true)|].
    vm_compute. reflexivity.
  - pose proof (C10_single_stake Scenario.split Scenario.pidLong Scenario.mo
                  [Warp 5] reachable_split ltac:(vm_compute; discriminate))
      as H.
    cbv zeta in H. destruct H as (_ & H).
    exact (proj1 (H (conj I I))).
Defined.

(** The claim as stated fails once the proposal is no longer active: the
    status check comes first, and the creator's second stake on the
    executed proposal is refused with [ProposalNotActive]. *)
Lemma C10_counterexample :
  amount (getStake (engine (world Scenario.executed)) Scenario.pidLong
                   Scenario.mo) = 10000 /\
  stake (env_of Scenario.executed Scenario.mo) (world Scenario.executed)
        Scenario.pidLong 5000 true
  = Err ProposalNotActive /\
  stake (env_of Scenario.executed Scenario.mo) (world Scenario.executed)
        Scenario.pidLong 5000 true
  <> Err AlreadyStaked.
Proof. repeat split; vm_compute; congruence. Qed.

(** ** Claiming once (C4) *)

Lemma claimRewards_pending e w pid :
  status (getProposal (engine w) pid) = Pending ->
  claimRewards e w pid = Err ProposalNotFinalized.
Proof.
  intros Hp. unfold claimRewards, settle. cbv zeta. rewrite Hp. reflexivity.
Qed.

Lemma claimRewards_again e w pid :
  status (getProposal (engine w) pid) <> Pending ->
  amount (getStake (engine w) pid (msg_sender e)) <> 0 ->
  claimed (getStake (engine w) pid (msg_sender e)) = true ->
  claimRewards e w pid = Err AlreadyClaimed.
Proof.
  intros Hp Ha Hc. unfold claimRewards, settle. cbv zeta.
  apply status_eqb_neq in Hp. apply N.eqb_neq in Ha.
  rewrite Hp, Ha, Hc. reflexivity.
Qed.

(** How far the rule reaches.  After a claim that went through, over
    every sequence of later steps that spares the proposal's identifier,
    every further claim of the same participant on the same proposal
    reverts with [AlreadyClaimed] and changes nothing. *)
Lemma claim_refused_while_spared c u pid w' l :
  claimRewards (env_of c u) (world c) pid = Ok w' ->
  let c1 := step c (Transact u (ClaimRewards pid)) in
  spared pid c1 l ->
  let c' := run c1 l in
  claimRewards (env_of c' u) (world c') pid = Err AlreadyClaimed /\
  step c' (Transact u (ClaimRewards pid)) = c'.
Proof.
  intros H c1 Hsp c'.
  pose proof (claimRewards_Ok _ _ _ _ H) as Hok. cbv zeta in Hok.
  destruct Hok as (Hs & _).
  pose proof (settle_Ok _ _ _ _ _ Hs) as Hst. cbv zeta in Hst.
  destruct Hst as (Hfin & Hamt & _ & _ & _ & Hprop & Hstakes & _).
  simpl in Hfin, Hamt, Hprop, Hstakes.
  assert (Hw1 : world c1 = w').
  { unfold c1. simpl. rewrite H. reflexivity. }
  assert (Hfin1 : status (getProposal (engine (world c1)) pid) <> Pending).
  { rewrite Hw1. rewrite (getProposal_ext _ _ pid Hprop). assumption. }
  assert (Hk1 : getStake (engine (world c1)) pid u
                = with_claimed (getStake (engine (world c)) pid u) true).
  { rewrite Hw1. unfold getStake at 1.
    rewrite Hstakes, lookup_insert_eq. reflexivity. }
  assert (Hamt1 : amount (getStake (engine (world c1)) pid u) <> 0)
    by (rewrite Hk1; assumption).
  destruct (run_stake_kept l c1 pid u Hamt1 Hsp) as (Ha & _ & Hc).
  pose proof (run_finalized_frozen l c1 pid Hfin1 Hsp) as Hp.
  assert (Hagain : claimRewards (env_of c' u) (world c') pid
                   = Err AlreadyClaimed).
  { apply claimRewards_again; simpl.
    - unfold c'. rewrite Hp. assumption.
    - unfold c'. rewrite Ha. assumption.
    - apply Hc. rewrite Hk1. reflexivity. }
  split; [assumption|].
  simpl. rewrite Hagain. reflexivity.
Qed.

(** C4.  The code at the failing input.  The proposal of scenario A is
    Executed and its creator claims: the flag is set, 10,500 are
    transferred, and a further claim is refused with [AlreadyClaimed].
    Within the same block the creator calls [createProposal] with the
    same token and direction and a stake of 1.  The call derives the same
    identifier and overwrites the record and the creator's stake, claimed
    flag included: the proposal is Pending again, so the creator's next
    claim is refused with [ProposalNotFinalized], not with
    [AlreadyClaimed]; and once a third agent's stake of 1 has executed
    the proposal anew, the creator's claim goes through a second time and
    a second payout is transferred to the same proposal and
    participant. *)
Theorem C4_replay_pays_again :
  let pid := Scenario.pidLong in
  let mo := Scenario.mo in
  let engine_ := Scenario.engineAddr in
  status (getProposal (engine (world Scenario.executed)) pid) = Executed /\
  getStake (engine (world Scenario.executed)) pid mo
  = mkStake 10000 true false /\
  getStake (engine (world Scenario.underfunded)) pid mo
  = mkStake 10000 true true /\
  claimRewards (env_of Scenario.underfunded mo) (world Scenario.underfunded)
               pid
  = Err AlreadyClaimed /\
  now Scenario.reopened = createdAt (getProposal
                                       (engine (world Scenario.executed)) pid) /\
  Scenario.pack Scenario.targetToken Long (now Scenario.underfunded) mo
  = pid /\
  status (getProposal (engine (world Scenario.reopened)) pid) = Pending /\
  getStake (engine (world Scenario.reopened)) pid mo
  = mkStake 1 true false /\
  claimRewards (env_of Scenario.reopened mo) (world Scenario.reopened) pid
  = Err ProposalNotFinalized /\
  status (getProposal (engine (world Scenario.reclosed)) pid) = Executed /\
  getStake (engine (world Scenario.reclaimed)) pid mo
  = mkStake 1 true true /\
  calls (world Scenario.reclaimed)
  = [ CallTransferFrom mo engine_ 10000;
      CallTransferFrom Scenario.vox engine_ 20000;
      CallTransfer mo 10500;
      CallTransferFrom mo engine_ 1;
      CallTransferFrom Scenario.degen engine_ 1;
      CallTransfer mo 1 ] /\
  Token.balanceOf (ledger (world Scenario.executed)) mo = 90000 /\
  Token.balanceOf (ledger (world Scenario.reclaimed)) mo = 100500.
Proof. cbv zeta. repeat split; vm_compute; reflexivity. Qed.

(** ** Expiry is lazy (C6) *)

Lemma expireProposal_overdue e w pid :
  let p := getProposal (engine w) pid in
  status p = Pending ->
  expiresAt p <= block_timestamp e ->
  exists w',
    expireProposal e w pid = Ok w' /\
    getProposal (engine w') pid = with_status p Expired.
Proof.
  cbv zeta. intros Hp Hexp. unfold expireProposal. cbv zeta.
  rewrite Hp. simpl. apply N.ltb_ge in Hexp. rewrite Hexp.
  eexists. split; [reflexivity|]. storage_lookup.
Qed.

Lemma expireProposal_early e w pid :
  let p := getProposal (engine w) pid in
  status p = Pending ->
  block_timestamp e < expiresAt p ->
  expireProposal e w pid = Err ProposalNotFinalized.
Proof.
  cbv zeta. intros Hp Hexp. unfold expireProposal. cbv zeta.
  rewrite Hp. simpl. apply N.ltb_lt in Hexp. rewrite Hexp. reflexivity.
Qed.

(** C6, as amended.  A proposal is Pending and not yet past its expiry when
    it is created, and whenever a stake on it is accepted.  The passage of
    time changes no storage, so a Pending proposal can be past its expiry:
    it then takes no further stake, and any caller's [expireProposal] makes
    it Expired, which the same call refuses with [ProposalNotFinalized]
    before the expiry. *)
Theorem C6_lazy_expiry :
  (forall e w token direction initialStake w' pid,
     createProposal e w token direction initialStake = Ok (w', pid) ->
     let p := getProposal (engine w') pid in
     status p = Pending /\
     expiresAt p = block_timestamp e + PROPOSAL_TIMEOUT /\
     block_timestamp e < expiresAt p) /\
  (forall e w pid amount isFor w',
     stake e w pid amount isFor = Ok w' ->
     let p := getProposal (engine w) pid in
     status p = Pending /\ block_timestamp e < expiresAt p) /\
  (forall c seconds,
     world (step c (Warp seconds)) = world c /\
     now (step c (Warp seconds)) = now c + seconds) /\
  (forall c pid,
     let p := getProposal (engine (world c)) pid in
     status p = Pending ->
     expiresAt p <= now c ->
     (forall u amount isFor,
        stake (env_of c u) (world c) pid amount isFor
        = Err (if registered (getAgentInfo (engine (world c)) u)
               then ProposalNotActive else NotRegisteredAgent)) /\
     (forall u, exists w',
        expireProposal (env_of c u) (world c) pid = Ok w' /\
        getProposal (engine w') pid = with_status p Expired)) /\
  (forall c pid u,
     let p := getProposal (engine (world c)) pid in
     status p = Pending ->
     now c < expiresAt p ->
     expireProposal (env_of c u) (world c) pid = Err ProposalNotFinalized).
Proof.
  repeat split.
  - apply createProposal_Ok in H. cbv zeta in H.
    destruct H as (_ & _ & _ & -> & -> & _).
    rewrite created_proposal. case_decide; [reflexivity|contradiction].
  - apply createProposal_Ok in H. cbv zeta in H.
    destruct H as (_ & _ & _ & -> & -> & _).
    rewrite created_proposal. case_decide; [reflexivity|contradiction].
  - apply createProposal_Ok in H. cbv zeta in H.
    destruct H as (_ & _ & _ & -> & -> & _).
    rewrite created_proposal. case_decide; [|contradiction].
    simpl. unfold PROPOSAL_TIMEOUT. lia.
  - apply stake_Ok in H. cbv zeta in H. tauto.
  - apply stake_Ok in H. cbv zeta in H. tauto.
  - intros u amount isFor. apply stake_on_inactive. cbv zeta. auto.
  - intros u. apply (expireProposal_overdue (env_of c u)); assumption.
  - intros c pid u p Hp Hnow. apply (expireProposal_early (env_of c u));
      assumption.
Qed.

(** Scenario D: thirty seconds after its creation the proposal is still
    Pending, takes no stake, and is expired by a stranger's call. *)
Lemma C6_lazy_expiry_witness :
  stake (env_of Scenario.overdue Scenario.vox) (world Scenario.overdue)
        Scenario.pidLong 20000 true
  = Err ProposalNotActive /\
  exists w',
    expireProposal (env_of Scenario.overdue Scenario.stranger)
                   (world Scenario.overdue) Scenario.pidLong = Ok w' /\
    status (getProposal (engine w') Scenario.pidLong) = Expired.
Proof.
  destruct C6_lazy_expiry as (_ & _ & _ & H & _).
  specialize (H Scenario.overdue Scenario.pidLong
                ltac:(vm_compute; reflexivity)
                ltac:(vm_compute; discriminate)).
  destruct H as [Hstake Hexpire]. split.
  - etransitivity; [exact (Hstake Scenario.vox 20000 true)|].
    vm_compute. reflexivity.
  - destruct (Hexpire Scenario.stranger) as (w' & Hrun & Hp).
    exists w'. split; [exact Hrun|]. rewrite Hp. reflexivity.
Defined.

Lemma reachable_overdue : reachable Scenario.overdue.
Proof. apply reachable_run, reachable_start. Qed.

(** The claim as stated fails in a reachable state: nobody has called
    [expireProposal] when the timeout has elapsed. *)
Lemma C6_counterexample :
  reachable Scenario.overdue /\
  status (getProposal (engine (world Scenario.overdue)) Scenario.pidLong)
  = Pending /\
  expiresAt (getProposal (engine (world Scenario.overdue)) Scenario.pidLong)
  = 1030 /\
  now Scenario.overdue = 1030 /\
  ~ (now Scenario.overdue
     < expiresAt (getProposal (engine (world Scenario.overdue))
                              Scenario.pidLong)).
Proof.
  split; [exact reachable_overdue|].
  repeat split; try (vm_compute; reflexivity).
  vm_compute. discriminate.
Qed.

(** ** What the engine tells the outside on consensus (C7) *)

(** A call of the engine adds nothing to the trace of outgoing calls, or
    adds one call to the ledger. *)
Lemma exec_calls e w call w' :
  exec e w call = Ok w' ->
  calls w' = calls w \/
  (exists from to amount, calls w' = calls w ++ [CallTransferFrom from to amount]) \/
  (exists to amount, calls w' = calls w ++ [CallTransfer to amount]).
Proof.
  intros Hexec.
  destruct call; simpl in Hexec.
  - ok_bind Hexec as r Hr. destruct r as [w1 pid1]. injection Hexec as <-.
    apply createProposal_Ok in Hr. cbv zeta in Hr.
    destruct Hr as (_ & _ & _ & _ & _ & _ & Hc). simpl in *. eauto 10.
  - apply stake_Ok in Hexec. cbv zeta in Hexec.
    destruct Hexec as (_ & _ & _ & _ & _ & _ & _ & _ & Hc). eauto 10.
  - apply claimRewards_Ok in Hexec. cbv zeta in Hexec.
    destruct Hexec as (_ & _ & _ & Hc). eauto 10.
  - apply expireProposal_Ok in Hexec. cbv zeta in Hexec. tauto.
  - apply registerAgent_Ok in Hexec. cbv zeta in Hexec. tauto.
  - apply setVault_Ok in Hexec. tauto.
  - apply renounceOwnership_Ok in Hexec. tauto.
  - apply on_ledger_Ok in Hexec. tauto.
  - apply on_ledger_Ok in Hexec. tauto.
  - apply on_ledger_Ok in Hexec. tauto.
  - apply on_ledger_Ok in Hexec. tauto.
Qed.

Lemma reachable_no_venue_call c :
  reachable c -> forall x, In x (calls (world c)) -> is_venue_call x = false.
Proof.
  induction 1 as [| c st Hreach IH]; intros x Hin.
  - contradiction.
  - destruct (step_cases c st)
      as (_ & _ & _ & [Hw | (sender & call & -> & _ & Hexec)]).
    + rewrite Hw in Hin. auto.
    + destruct (exec_calls _ _ _ _ Hexec)
        as [Hc | [(? & ? & ? & Hc) | (? & ? & Hc)]];
        rewrite Hc in Hin; auto;
        apply in_app_or in Hin; destruct Hin as [Hin | [<- | []]];
        auto.
Qed.

(** C7, as amended.  A stake that brings a proposal to Executed emits, for
    every direction and Hold included, the events [StakePlaced] and
    [ConsensusReached(proposalId, direction, totalStakeFor)], the latter
    without the token, and makes one outgoing call, the [transferFrom] of
    the stake on the ledger.  The engine never calls the trade-execution
    venue in any reachable state, so nothing the venue does reaches the
    status of a proposal. *)
Theorem C7_consensus_event :
  (forall e w pid amount isFor w',
     stake e w pid amount isFor = Ok w' ->
     let p' := getProposal (engine w') pid in
     status p' = Executed ->
     events (engine w')
     = events (engine w)
       ++ [StakePlaced pid (msg_sender e) amount isFor;
           ConsensusReached pid (direction p') (totalStakeFor p')] /\
     calls w' = calls w ++ [CallTransferFrom (msg_sender e) (this e) amount]) /\
  (forall c,
     reachable c ->
     forall x, In x (calls (world c)) -> is_venue_call x = false).
Proof.
  split; [| exact reachable_no_venue_call].
  intros e w pid amount isFor w' H. cbv zeta.
  apply stake_Ok in H. cbv zeta in H.
  destruct H as (_ & Hp & _ & _ & _ & _ & He & _ & Hc).
  rewrite He. rewrite finalized_proposal, finalized_events, staked_proposal.
  case_decide; [|contradiction].
  destruct (quorum_rule _ _) eqn:Hq; simpl; intros Hst.
  - rewrite backed_status in Hst. congruence.
  - split; [|exact Hc]. rewrite <- app_assoc. reflexivity.
  - rewrite backed_status in Hst. congruence.
  - discriminate.
Qed.

(** A Hold proposal that reaches consensus emits the same event. *)
Lemma C7_consensus_event_witness :
  exists w',
    stake (env_of Scenario.holdProposed Scenario.vox)
          (world Scenario.holdProposed) Scenario.pidHold 20000 true = Ok w' /\
    events (engine w')
    = events (engine (world Scenario.holdProposed))
      ++ [StakePlaced Scenario.pidHold Scenario.vox 20000 true;
          ConsensusReached Scenario.pidHold Hold 30000] /\
    calls w'
    = calls (world Scenario.holdProposed)
      ++ [CallTransferFrom Scenario.vox Scenario.engineAddr 20000] /\
    forall x, In x (calls (world Scenario.executed)) -> is_venue_call x = false.
Proof.
  pose proof (proj2 C7_consensus_event Scenario.executed reachable_executed)
    as Hnone.
  pose proof (proj1 C7_consensus_event
                (env_of Scenario.holdProposed Scenario.vox)
                (world Scenario.holdProposed) Scenario.pidHold 20000 true)
    as Hev.
  destruct (stake (env_of Scenario.holdProposed Scenario.vox)
                  (world Scenario.holdProposed) Scenario.pidHold 20000 true)
    as [w'|err] eqn:H; [|vm_compute in H; discriminate].
  specialize (Hev w' eq_refl). cbv zeta in Hev.
  assert (Hp : getProposal (engine w') Scenario.pidHold
               = mkProposal Scenario.pidHold Scenario.targetToken Hold
                            1000 1030 30000 0 Executed Scenario.mo).
  { revert H. vm_compute. intros [= <-]. reflexivity. }
  rewrite Hp in Hev. destruct (Hev eq_refl) as [Hevents Hcalls].
  exists w'. split; [reflexivity|]. split; [exact Hevents|].
  split; [exact Hcalls | exact Hnone].
Defined.

(** The claim as stated fails on scenario A: the proposal to go long is
    executed, and the engine has made no call to the venue; its only
    outgoing calls are the two [transferFrom] of the stakes, and the
    notification it emitted carries no token. *)
Lemma C7_counterexample :
  let w := world Scenario.executed in
  status (getProposal (engine w) Scenario.pidLong) = Executed /\
  direction (getProposal (engine w) Scenario.pidLong) = Long /\
  calls w = [CallTransferFrom Scenario.mo Scenario.engineAddr 10000;
             CallTransferFrom Scenario.vox Scenario.engineAddr 20000] /\
  filter (fun x => is_venue_call x = true) (calls w) = [] /\
  events (engine w)
  = events (engine (world (run Scenario.start [Scenario.propose])))
    ++ [StakePlaced Scenario.pidLong Scenario.vox 20000 true;
        ConsensusReached Scenario.pidLong Long 30000].
Proof. cbv zeta. repeat split; vm_compute; reflexivity. Qed.

(** ** Re-deriving an identifier (C8) *)

(** [createProposal] writes the proposal record and the creator's stake
    without looking at what the identifier already holds. *)
Lemma createProposal_overwrites e w token direction initialStake w' pid :
  createProposal e w token direction initialStake = Ok (w', pid) ->
  pid = keccak256 e token direction (block_timestamp e) (msg_sender e) /\
  getProposal (engine w') pid
  = fresh_proposal e token direction initialStake /\
  getStake (engine w') pid (msg_sender e) = mkStake initialStake true false.
Proof.
  intros H. apply createProposal_Ok in H. cbv zeta in H.
  destruct H as (_ & _ & _ & -> & -> & _).
  rewrite created_proposal, created_stake.
  repeat case_decide; try contradiction. auto.
Qed.

(** C8.  The code at the failing input: the evenly split proposal holds
    10,000 for, from its creator, and 10,000 against.  Within the same
    block the creator calls [createProposal] with the same token and
    direction and a stake of 1.  The call succeeds under the same
    identifier and replaces the record and the creator's stake: the totals
    read 1 for and 0 against, the creator's stake of 10,000 is gone from
    storage while the engine keeps the tokens, and the identifier is listed
    twice among the active proposals. *)
Theorem C8_replay_overwrites :
  let c := Scenario.split in
  let c' := Scenario.replayed in
  let pid := Scenario.pidLong in
  now c' = now c /\
  Scenario.pack Scenario.targetToken Long (now c) Scenario.mo = pid /\
  getProposal (engine (world c)) pid
  = mkProposal pid Scenario.targetToken Long 1000 1030 10000 10000 Pending
               Scenario.mo /\
  getStake (engine (world c)) pid Scenario.mo = mkStake 10000 true false /\
  getProposal (engine (world c')) pid
  = mkProposal pid Scenario.targetToken Long 1000 1030 1 0 Pending
               Scenario.mo /\
  getStake (engine (world c')) pid Scenario.mo = mkStake 1 true false /\
  getStake (engine (world c')) pid Scenario.vox = mkStake 10000 false false /\
  Token.balanceOf (ledger (world c')) Scenario.engineAddr = 20001 /\
  getProposalStakers (engine (world c')) pid
  = [Scenario.mo; Scenario.vox; Scenario.mo] /\
  activeProposalIds (engine (world c')) = [pid; pid].
Proof. cbv zeta. repeat split; vm_compute; reflexivity. Qed.

(** ** Accounting of a settled proposal (C1) *)

Lemma sum_over_ext f s1 s2 pid l :
  (forall a, In a l -> getStake s1 pid a = getStake s2 pid a) ->
  sum_over f s1 pid l = sum_over f s2 pid l.
Proof.
  induction l as [| a l IH]; intros H; simpl; [reflexivity|].
  rewrite H by (left; reflexivity).
  rewrite IH; [reflexivity|]. intros b Hb. apply H. right. assumption.
Qed.

(** C1.  The code at the failing input.  The proposal of scenario A has
    two stakers, 10,000 and 20,000, both for it, and is Executed: nobody
    lost, nothing is slashed, and the engine holds the 30,000 staked.  The
    creator's claim is paid 10,500, stake plus 5%.  The second winner is
    owed 21,000 and the engine holds 19,500: the claim reverts in the
    ledger.  With the 5,000 of another agent's pending proposal in escrow
    both claims go through: 31,500 are paid out on 30,000 staked, no loss
    is recorded for either staker, and the engine is left with 3,500
    against the 5,000 still staked on the pending proposal. *)
Theorem C1_bonus_unfunded :
  let pid := Scenario.pidLong in
  let mo := Scenario.mo in
  let vox := Scenario.vox in
  let engine_ := Scenario.engineAddr in
  let held c a := Token.balanceOf (ledger (world c)) a in
  getProposalStakers (engine (world Scenario.executed)) pid = [mo; vox] /\
  status (getProposal (engine (world Scenario.executed)) pid) = Executed /\
  getStake (engine (world Scenario.executed)) pid mo
  = mkStake 10000 true false /\
  getStake (engine (world Scenario.executed)) pid vox
  = mkStake 20000 true false /\
  held Scenario.executed engine_ = 30000 /\
  held Scenario.underfunded mo = held Scenario.executed mo + 10500 /\
  held Scenario.underfunded engine_ = 19500 /\
  claimRewards (env_of Scenario.underfunded vox) (world Scenario.underfunded)
               pid
  = Err TokenInsufficientBalance /\
  held Scenario.funded engine_ = 35000 /\
  held Scenario.settledAll mo = held Scenario.funded mo + 10500 /\
  held Scenario.settledAll vox = held Scenario.funded vox + 21000 /\
  claimed (getStake (engine (world Scenario.settledAll)) pid mo) = true /\
  claimed (getStake (engine (world Scenario.settledAll)) pid vox) = true /\
  losses (getAgentInfo (engine (world Scenario.settledAll)) mo) = 0 /\
  losses (getAgentInfo (engine (world Scenario.settledAll)) vox) = 0 /\
  held Scenario.settledAll engine_ = 3500 /\
  status (getProposal (engine (world Scenario.settledAll)) Scenario.pidOther)
  = Pending /\
  getStake (engine (world Scenario.settledAll)) Scenario.pidOther
           Scenario.degen
  = mkStake 5000 true false.
Proof. cbv zeta. repeat split; vm_compute; reflexivity. Qed.

(** ** The ledger: supply and balances *)


Lemma sum_map_insert_fresh (m : gmap N N) i x :
  m !! i = None -> Ledger.sum_map (<[i := x]> m) = x + Ledger.sum_map m.
Proof.
  intros Hi. unfold Ledger.sum_map.
  apply (map_fold_insert_L (fun _ v acc => v + acc)); [|assumption].
  intros. lia.
Qed.

Lemma sum_map_delete (m : gmap N N) i :
  Ledger.sum_map m = default 0 (m !! i) + Ledger.sum_map (delete i m).
Proof.
  destruct (m !! i) as [v|] eqn:Hi; simpl.
  - rewrite <- (insert_delete_id m i v Hi) at 1.
    apply sum_map_insert_fresh. apply lookup_delete_eq.
  - rewrite delete_id by assumption. lia.
Qed.

Lemma sum_map_insert (m : gmap N N) i x :
  Ledger.sum_map (<[i := x]> m) + default 0 (m !! i) = Ledger.sum_map m + x.
Proof.
  rewrite (sum_map_delete m i).
  rewrite <- (insert_delete_eq m i x).
  rewrite sum_map_insert_fresh by apply lookup_delete_eq. lia.
Qed.

Lemma sum_map_lookup_le (m : gmap N N) i : default 0 (m !! i) <= Ledger.sum_map m.
Proof. rewrite (sum_map_delete m i). lia. Qed.

Lemma sum_map_two_le (m : gmap N N) i j :
  i <> j -> default 0 (m !! i) + default 0 (m !! j) <= Ledger.sum_map m.
Proof.
  intros Hij. rewrite (sum_map_delete m i).
  pose proof (sum_map_lookup_le (delete i m) j) as H.
  rewrite lookup_delete_ne in H by assumption. lia.
Qed.

Lemma _transfer_Ok t from to amount t' :
  Token._transfer t from to amount = Ok t' ->
  from <> 0 /\ to <> 0 /\ amount <= Token.balanceOf t from /\
  Token._balances t'
  = <[to := wrap256
              (default 0 (<[from := Token.balanceOf t from - amount]>
                            (Token._balances t) !! to) + amount)]>
      (<[from := Token.balanceOf t from - amount]> (Token._balances t)) /\
  Token._totalSupply t' = Token._totalSupply t /\
  Token._allowances t' = Token._allowances t /\
  Token.owner t' = Token.owner t /\
  Token.mintingFinished t' = Token.mintingFinished t /\
  Token.logs t' = Token.logs t ++ [Token.Transfer from to amount].
Proof.
  unfold Token._transfer. cbv zeta. intros H. do 3 ok_step H.
  injection H as <-.
  apply N.eqb_neq in Hc, Hc0. apply N.ltb_ge in Hc1.
  repeat split; assumption.
Qed.

Lemma _approve_Ok t tokenOwner spender amount t' :
  Token._approve t tokenOwner spender amount = Ok t' ->
  tokenOwner <> 0 /\ spender <> 0 /\
  Token._allowances t'
  = <[(tokenOwner, spender) := amount]> (Token._allowances t) /\
  Token._balances t' = Token._balances t /\
  Token._totalSupply t' = Token._totalSupply t /\
  Token.owner t' = Token.owner t /\
  Token.mintingFinished t' = Token.mintingFinished t /\
  Token.logs t' = Token.logs t ++ [Token.Approval tokenOwner spender amount].
Proof.
  unfold Token._approve. cbv zeta. intros H. do 2 ok_step H.
  injection H as <-.
  apply N.eqb_neq in Hc, Hc0.
  repeat split; assumption.
Qed.

Lemma wrap256_small x : x <= MAX_UINT256 -> wrap256 x = x.
Proof.
  intros H. unfold wrap256. apply N.mod_small.
  unfold MAX_UINT256 in H. lia.
Qed.

(** A transfer between holders of a sound ledger moves the amount and
    keeps the ledger sound. *)
Lemma _transfer_sound t from to amount t' :
  Ledger.sound t ->
  Token._transfer t from to amount = Ok t' ->
  Ledger.sound t' /\
  Token.balanceOf t' from
  = (if decide (from = to) then Token.balanceOf t from
     else Token.balanceOf t from - amount) /\
  Token.balanceOf t' to
  = (if decide (from = to) then Token.balanceOf t to
     else Token.balanceOf t to + amount) /\
  (forall a, a <> from -> a <> to ->
             Token.balanceOf t' a = Token.balanceOf t a).
Proof.
  intros [Hsum Hmax] H.
  apply _transfer_Ok in H.
  destruct H as (_ & _ & Hle & Hb & Hs & _).
  unfold Ledger.sound, Ledger.total_balance, Token.balanceOf in *.
  rewrite Hb, Hs. clear Hb Hs. set (m := Token._balances t) in *.
  destruct (decide (from = to)) as [<- | Hne].
  - rewrite lookup_insert_eq. simpl.
    pose proof (sum_map_lookup_le m from) as Hfrom.
    rewrite wrap256_small by lia.
    replace (default 0 (m !! from) - amount + amount)
      with (default 0 (m !! from)) by lia.
    rewrite insert_insert_eq, !lookup_insert_eq. simpl.
    repeat split; try assumption.
    + pose proof (sum_map_insert m from (default 0 (m !! from))). lia.
    + intros a Ha _. rewrite lookup_insert_ne by congruence. reflexivity.
  - rewrite lookup_insert_ne by assumption.
    pose proof (sum_map_two_le m from to Hne) as Htwo.
    rewrite wrap256_small by lia.
    rewrite lookup_insert_eq.
    rewrite lookup_insert_ne by congruence. rewrite lookup_insert_eq. simpl.
    repeat split; try assumption.
    + pose proof (sum_map_insert m from (default 0 (m !! from) - amount)) as H1.
      pose proof (sum_map_insert
                    (<[from := default 0 (m !! from) - amount]> m) to
                    (default 0 (m !! to) + amount)) as H2.
      rewrite lookup_insert_ne in H2 by assumption. lia.
    + intros a Ha Hb. rewrite !lookup_insert_ne by congruence. reflexivity.
Qed.

Lemma transferFrom_Ok sender t from to amount t' :
  Token.transferFrom sender t from to amount = Ok t' ->
  exists t1,
    Token._transfer t1 from to amount = Ok t' /\
    Token._balances t1 = Token._balances t /\
    Token._totalSupply t1 = Token._totalSupply t /\
    Token.owner t1 = Token.owner t /\
    Token.mintingFinished t1 = Token.mintingFinished t /\
    (Token.allowance t from sender = MAX_UINT256 ->
     Token._allowances t1 = Token._allowances t) /\
    (Token.allowance t from sender <> MAX_UINT256 ->
     amount <= Token.allowance t from sender /\
     Token._allowances t1
     = <[(from, sender) := Token.allowance t from sender - amount]>
         (Token._allowances t)).
Proof.
  unfold Token.transferFrom. cbv zeta. intros H.
  ok_bind H as t1 Ht1. exists t1. split; [exact H|].
  destruct (Token.allowance t from sender =? MAX_UINT256) eqn:Hmax.
  - injection Ht1 as <-. apply N.eqb_eq in Hmax.
    repeat split; try reflexivity; contradiction.
  - ok_step Ht1. apply N.eqb_neq in Hmax. apply N.ltb_ge in Hc.
    apply _approve_Ok in Ht1.
    destruct Ht1 as (_ & _ & Ha & Hb & Hs & Ho & Hm & _).
    repeat split; try assumption; contradiction.
Qed.

Lemma mint_Ok sender t to amount t' :
  Token.mint sender t to amount = Ok t' ->
  sender = Token.owner t /\ Token.mintingFinished t = false /\ to <> 0 /\
  Token._totalSupply t + amount <= MAX_UINT256 /\
  Token._totalSupply t' = Token._totalSupply t + amount /\
  Token._balances t'
  = <[to := Token.balanceOf t to + amount]> (Token._balances t) /\
  Token._allowances t' = Token._allowances t /\
  Token.owner t' = Token.owner t /\
  Token.mintingFinished t' = false.
Proof.
  unfold Token.mint. cbv zeta. intros H. do 5 ok_step H. arith_ok.
  injection H as <-.
  apply negb_false_iff, N.eqb_eq in Hc. apply N.eqb_neq in Hc1.
  simpl. repeat split; assumption.
Qed.

Lemma exec_sound sender t call t' :
  Ledger.exec sender t call = Ok t' -> Ledger.sound t -> Ledger.sound t'.
Proof.
  intros H Hs.
  destruct call as [to amt | spender amt | from to amt | to amt | |];
    simpl in H.
  - apply (_transfer_sound _ _ _ _ _ Hs H).
  - apply _approve_Ok in H. destruct H as (_ & _ & _ & Hb & Hsup & _).
    unfold Ledger.sound, Ledger.total_balance in *. rewrite Hb, Hsup. assumption.
  - apply transferFrom_Ok in H.
    destruct H as (t1 & Ht & Hb & Hsup & _).
    assert (Hs1 : Ledger.sound t1).
    { unfold Ledger.sound, Ledger.total_balance in *. rewrite Hb, Hsup. assumption. }
    apply (_transfer_sound _ _ _ _ _ Hs1 Ht).
  - apply mint_Ok in H.
    destruct H as (_ & _ & _ & Hfit & Hsup & Hb & _).
    destruct Hs as [Hsum Hmax].
    unfold Ledger.sound, Ledger.total_balance, Token.balanceOf in *.
    rewrite Hb, Hsup. split; [|assumption].
    pose proof (sum_map_insert (Token._balances t) to
                  (default 0 (Token._balances t !! to) + amt)).
    lia.
  - unfold Ledger.finishMinting in H. ok_step H. injection H as <-. exact Hs.
  - unfold Ledger.renounceOwnership in H. ok_step H. injection H as <-. exact Hs.
Qed.

Lemma ledger_step_cases t tx :
  Ledger.step t tx = t \/ Ledger.exec (fst tx) t (snd tx) = Ok (Ledger.step t tx).
Proof.
  unfold Ledger.step. destruct (Ledger.exec _ _ _); auto.
Qed.

Lemma ledger_run_cons t tx l :
  Ledger.run t (tx :: l) = Ledger.run (Ledger.step t tx) l.
Proof. reflexivity. Qed.

Lemma ledger_reachable_run l : forall t,
  Ledger.reachable t -> Ledger.reachable (Ledger.run t l).
Proof.
  induction l as [| tx l IH]; intros t Ht; [assumption|].
  rewrite ledger_run_cons. apply IH. constructor. assumption.
Qed.

Lemma ledger_reachable_sound t : Ledger.reachable t -> Ledger.sound t.
Proof.
  induction 1 as [deployer | t tx Hr IH].
  - split; [reflexivity|]. simpl. unfold MAX_UINT256. lia.
  - destruct (ledger_step_cases t tx) as [-> | Hexec]; [assumption|].
    eapply exec_sound; eassumption.
Qed.

Lemma transferFrom_sound sender t from to amount t' :
  Ledger.sound t ->
  Token.transferFrom sender t from to amount = Ok t' ->
  amount <= Token.balanceOf t from /\
  Token.balanceOf t' from
  = (if decide (from = to) then Token.balanceOf t from
     else Token.balanceOf t from - amount) /\
  Token.balanceOf t' to
  = (if decide (from = to) then Token.balanceOf t to
     else Token.balanceOf t to + amount).
Proof.
  intros Hs H. apply transferFrom_Ok in H.
  destruct H as (t1 & Ht & Hb & Hsup & _).
  assert (Hs1 : Ledger.sound t1).
  { unfold Ledger.sound, Ledger.total_balance in *. rewrite Hb, Hsup.
    assumption. }
  destruct (_transfer_sound _ _ _ _ _ Hs1 Ht) as (_ & Hfrom & Hto & _).
  apply _transfer_Ok in Ht. destruct Ht as (_ & _ & Hle & _).
  unfold Token.balanceOf in *. rewrite Hb in *. auto.
Qed.

(** X1.  In every state the token contract can reach, the balances add up
    to the total supply, the supply fits 256 bits, and no holder has more
    than the supply. *)
Theorem X_ledger_supply_invariant :
  forall t,
    Ledger.reachable t ->
    Ledger.total_balance t = Token._totalSupply t /\
    Token._totalSupply t <= MAX_UINT256 /\
    (forall a, Token.balanceOf t a <= Token._totalSupply t).
Proof.
  intros t Hr.
  destruct (ledger_reachable_sound t Hr) as [Hsum Hmax].
  repeat split; try assumption.
  intros a. rewrite <- Hsum. apply sum_map_lookup_le.
Qed.

Lemma X_ledger_supply_invariant_witness :
  Ledger.total_balance LedgerScenario.funded = 1000000 /\
  Token.balanceOf LedgerScenario.funded LedgerScenario.alice
  <= Token._totalSupply LedgerScenario.funded.
Proof.
  destruct (X_ledger_supply_invariant LedgerScenario.funded
              (ledger_reachable_run _ _ (Ledger.reachable_deploy _)))
    as (Hsum & _ & Hle).
  split; [|exact (Hle LedgerScenario.alice)].
  etransitivity; [exact Hsum|]. vm_compute. reflexivity.
Defined.

(** X2.  On a reachable ledger a successful [transfer] takes exactly the
    amount from the sender, who had at least that much, and adds exactly
    the amount to the recipient, the unchecked addition never wrapping;
    every other balance and the supply stay; a transfer to oneself changes
    no balance. *)
Theorem X_transfer_exact :
  forall t sender to amount t',
    Ledger.reachable t ->
    Token.transfer sender t to amount = Ok t' ->
    amount <= Token.balanceOf t sender /\
    Token.balanceOf t' sender
    = (if decide (sender = to) then Token.balanceOf t sender
       else Token.balanceOf t sender - amount) /\
    Token.balanceOf t' to
    = (if decide (sender = to) then Token.balanceOf t to
       else Token.balanceOf t to + amount) /\
    (forall a, a <> sender -> a <> to ->
               Token.balanceOf t' a = Token.balanceOf t a) /\
    Token._totalSupply t' = Token._totalSupply t.
Proof.
  intros t sender to amount t' Hr H. unfold Token.transfer in H.
  destruct (_transfer_sound t sender to amount t'
              (ledger_reachable_sound t Hr) H)
    as (_ & Hfrom & Hto & Hrest).
  apply _transfer_Ok in H. destruct H as (_ & _ & Hle & _ & Hsup & _).
  repeat split; assumption.
Qed.

Lemma X_transfer_exact_witness :
  exists t',
    Token.transfer LedgerScenario.alice LedgerScenario.funded
                   LedgerScenario.bob 40000 = Ok t' /\
    Token.balanceOf t' LedgerScenario.alice = 60000 /\
    Token.balanceOf t' LedgerScenario.bob = 90000.
Proof.
  destruct (Token.transfer LedgerScenario.alice LedgerScenario.funded
                           LedgerScenario.bob 40000) as [t'|err] eqn:H;
    [|vm_compute in H; discriminate].
  exists t'. split; [reflexivity|].
  destruct (X_transfer_exact _ _ _ _ _
              (ledger_reachable_run _ _ (Ledger.reachable_deploy _)) H)
    as (_ & Hfrom & Hto & _).
  split.
  - etransitivity; [exact Hfrom|]. vm_compute. reflexivity.
  - etransitivity; [exact Hto|]. vm_compute. reflexivity.
Defined.

(** X3.  [transferFrom] and the allowance: a successful call on a finite
    allowance lowers it by exactly the amount, which it covered; an
    allowance of [type(uint256).max] is left as it is; no other allowance
    changes.  A finite allowance below the amount makes the call revert
    with [InsufficientAllowance] whatever the balances are. *)
Theorem X_transferFrom_allowance :
  (forall sender t from to amount t',
     Token.transferFrom sender t from to amount = Ok t' ->
     Token.allowance t' from sender
     = (if decide (Token.allowance t from sender = MAX_UINT256)
        then MAX_UINT256
        else Token.allowance t from sender - amount) /\
     (Token.allowance t from sender <> MAX_UINT256 ->
      amount <= Token.allowance t from sender) /\
     (forall o s, (o, s) <> (from, sender) ->
                  Token.allowance t' o s = Token.allowance t o s)) /\
  (forall sender t from to amount,
     Token.allowance t from sender <> MAX_UINT256 ->
     Token.allowance t from sender < amount ->
     Token.transferFrom sender t from to amount
     = Err TokenInsufficientAllowance).
Proof.
  split.
  - intros sender t from to amount t' H.
    apply transferFrom_Ok in H.
    destruct H as (t1 & Ht & _ & _ & _ & _ & Hinf & Hfin).
    apply _transfer_Ok in Ht.
    destruct Ht as (_ & _ & _ & _ & _ & Ha & _).
    unfold Token.allowance in *. rewrite Ha.
    destruct (decide (default 0 (Token._allowances t !! (from, sender))
                      = MAX_UINT256)) as [Hmax | Hmax].
    + rewrite (Hinf Hmax). split; [assumption|]. split; [contradiction|].
      reflexivity.
    + destruct (Hfin Hmax) as [Hle ->].
      rewrite lookup_insert_eq. split; [reflexivity|]. split; [auto|].
      intros o s Hne. rewrite lookup_insert_ne by congruence. reflexivity.
  - intros sender t from to amount Hfin Hlt.
    unfold Token.transferFrom. cbv zeta.
    apply N.eqb_neq in Hfin. rewrite Hfin.
    apply N.ltb_lt in Hlt. rewrite Hlt. reflexivity.
Qed.

Lemma X_transferFrom_allowance_witness :
  (exists t',
     Token.transferFrom LedgerScenario.spender LedgerScenario.funded
                        LedgerScenario.alice LedgerScenario.bob 10000
     = Ok t' /\
     Token.allowance t' LedgerScenario.alice LedgerScenario.spender = 20000) /\
  Token.transferFrom LedgerScenario.spender LedgerScenario.funded
                     LedgerScenario.alice LedgerScenario.bob 30001
  = Err TokenInsufficientAllowance.
Proof.
  destruct X_transferFrom_allowance as [Hok Hlow]. split.
  - destruct (Token.transferFrom LedgerScenario.spender LedgerScenario.funded
                LedgerScenario.alice LedgerScenario.bob 10000)
      as [t'|err] eqn:H; [|vm_compute in H; discriminate].
    exists t'. split; [reflexivity|].
    destruct (Hok _ _ _ _ _ _ H) as (Ha & _).
    etransitivity; [exact Ha|]. vm_compute. reflexivity.
  - apply Hlow; vm_compute; [discriminate | reflexivity].
Defined.

(** A call changes the supply only if it is the owner's [mint] before
    minting is finished, and never clears the finished flag. *)
Lemma exec_supply sender t call t' :
  Ledger.exec sender t call = Ok t' ->
  (Token.mintingFinished t = true -> Token.mintingFinished t' = true) /\
  (Token._totalSupply t' = Token._totalSupply t \/
   exists to amt,
     call = Ledger.Mint to amt /\ sender = Token.owner t /\
     Token.mintingFinished t = false /\
     Token._totalSupply t' = Token._totalSupply t + amt).
Proof.
  intros H.
  destruct call as [to amt | spender amt | from to amt | to amt | |];
    simpl in H.
  - apply _transfer_Ok in H.
    destruct H as (_ & _ & _ & _ & Hs & _ & _ & Hm & _).
    rewrite Hm, Hs. auto.
  - apply _approve_Ok in H.
    destruct H as (_ & _ & _ & _ & Hs & _ & Hm & _).
    rewrite Hm, Hs. auto.
  - apply transferFrom_Ok in H.
    destruct H as (t1 & Ht & _ & Hs1 & _ & Hm1 & _).
    apply _transfer_Ok in Ht.
    destruct Ht as (_ & _ & _ & _ & Hs & _ & _ & Hm & _).
    rewrite Hm, Hs, Hm1, Hs1. auto.
  - apply mint_Ok in H.
    destruct H as (Ho & Hf & _ & _ & Hs & _).
    split; [congruence|]. right. eauto 10.
  - unfold Ledger.finishMinting in H. ok_step H. injection H as <-. simpl. auto.
  - unfold Ledger.renounceOwnership in H. ok_step H. injection H as <-. simpl. auto.
Qed.

(** X4.  Once minting is finished it stays finished and the total supply
    never changes again, whatever is called and by whom; before that, the
    supply never shrinks. *)
Theorem X_minting_finished_forever :
  forall t l,
    Token._totalSupply t <= Token._totalSupply (Ledger.run t l) /\
    (Token.mintingFinished t = true ->
     Token.mintingFinished (Ledger.run t l) = true /\
     Token._totalSupply (Ledger.run t l) = Token._totalSupply t /\
     forall sender to amount,
       Token.mint sender (Ledger.run t l) to amount
       = Err (if sender =? Token.owner (Ledger.run t l)
              then TokenMintingFinished else TokenNotOwner)).
Proof.
  intros t l. revert t.
  induction l as [| tx l IH]; intros t.
  - simpl. split; [lia|]. intros Hf. repeat split; try assumption.
    intros sender to amount. unfold Token.mint.
    destruct (sender =? Token.owner t); simpl; [|reflexivity].
    rewrite Hf. reflexivity.
  - rewrite ledger_run_cons.
    destruct (IH (Ledger.step t tx)) as [Hmono Hfin].
    assert (Hstep : Token._totalSupply t <= Token._totalSupply (Ledger.step t tx)
                    /\ (Token.mintingFinished t = true ->
                        Token.mintingFinished (Ledger.step t tx) = true /\
                        Token._totalSupply (Ledger.step t tx)
                        = Token._totalSupply t)).
    { destruct (ledger_step_cases t tx) as [-> | Hexec].
      - split; [lia | auto].
      - destruct (exec_supply _ _ _ _ Hexec)
          as [Hkeep [Hsame | (to & amt & _ & _ & Hopen & Hgrow)]].
        + split; [lia | auto].
        + split; [lia|]. intros Hf. congruence. }
    destruct Hstep as [Hle Hkeep]. split; [lia|].
    intros Hf. destruct (Hkeep Hf) as [Hf' Hs'].
    destruct (Hfin Hf') as (Hf'' & Hs'' & Hmint).
    repeat split; try assumption. congruence.
Qed.

Lemma X_minting_finished_forever_witness :
  Token.mint LedgerScenario.issuer
             (Ledger.run LedgerScenario.closed
                [(LedgerScenario.alice, Ledger.Transfer LedgerScenario.bob 5)])
             LedgerScenario.alice 1
  = Err TokenMintingFinished.
Proof.
  destruct (X_minting_finished_forever LedgerScenario.closed
              [(LedgerScenario.alice, Ledger.Transfer LedgerScenario.bob 5)])
    as [_ H].
  destruct (H ltac:(vm_compute; reflexivity)) as (_ & _ & Hmint).
  etransitivity; [exact (Hmint LedgerScenario.issuer LedgerScenario.alice 1)|].
  vm_compute. reflexivity.
Defined.

(** ** The engine's escrow on the ledger *)

(** What a call of the chain does to the ledger is a call of the ledger. *)
Lemma exec_ledger e w call w' :
  exec e w call = Ok w' ->
  ledger w' = ledger w \/
  exists sender lcall, Ledger.exec sender (ledger w) lcall = Ok (ledger w').
Proof.
  intros Hexec.
  destruct call as [token direction initialStake | pid amt isFor | pid | pid
                   | agent | v | | to amt | spender amt | to amt
                   | from to amt]; simpl in Hexec.
  - ok_bind Hexec as r Hr. destruct r as [w1 pid1]. injection Hexec as <-.
    apply createProposal_Ok in Hr. cbv zeta in Hr.
    destruct Hr as (_ & _ & _ & _ & _ & Hl & _). simpl.
    right. exists (this e), (Ledger.TransferFrom (msg_sender e) (this e) initialStake).
    exact Hl.
  - apply stake_Ok in Hexec. cbv zeta in Hexec.
    destruct Hexec as (_ & _ & _ & _ & _ & _ & _ & Hl & _).
    right. exists (this e), (Ledger.TransferFrom (msg_sender e) (this e) amt).
    exact Hl.
  - apply claimRewards_Ok in Hexec. cbv zeta in Hexec.
    destruct Hexec as (_ & _ & Hl & _).
    right. eexists (this e), (Ledger.Transfer (msg_sender e) _). exact Hl.
  - apply expireProposal_Ok in Hexec. cbv zeta in Hexec. tauto.
  - apply registerAgent_Ok in Hexec. cbv zeta in Hexec. tauto.
  - apply setVault_Ok in Hexec. tauto.
  - apply renounceOwnership_Ok in Hexec. tauto.
  - unfold on_ledger in Hexec. ok_bind Hexec as t1 Ht1.
    injection Hexec as <-. right.
    exists (msg_sender e), (Ledger.Mint to amt). exact Ht1.
  - unfold on_ledger in Hexec. ok_bind Hexec as t1 Ht1.
    injection Hexec as <-. right.
    exists (msg_sender e), (Ledger.Approve spender amt). exact Ht1.
  - unfold on_ledger in Hexec. ok_bind Hexec as t1 Ht1.
    injection Hexec as <-. right.
    exists (msg_sender e), (Ledger.Transfer to amt). exact Ht1.
  - unfold on_ledger in Hexec. ok_bind Hexec as t1 Ht1.
    injection Hexec as <-. right.
    exists (msg_sender e), (Ledger.TransferFrom from to amt). exact Ht1.
Qed.

Lemma chain_ledger_reachable c :
  Chain.reachable c -> Ledger.reachable (ledger (world c)).
Proof.
  induction 1 as [| c st Hreach IH].
  - simpl. constructor.
  - destruct (step_cases c st)
      as (_ & _ & _ & [-> | (sender & call & -> & _ & Hexec)]); [assumption|].
    destruct (exec_ledger _ _ _ _ Hexec) as [-> | (s & lcall & Hl)];
      [assumption|].
    assert (Hstep : ledger (world (step c (Transact sender call)))
                    = Ledger.step (ledger (world c)) (s, lcall)).
    { unfold Ledger.step. simpl fst. simpl snd. rewrite Hl. reflexivity. }
    rewrite Hstep. constructor. assumption.
Qed.

(** X5.  In every reachable state of the chain, for a caller other than the
    engine itself: a successful [createProposal] or [stake] moves exactly
    the staked amount from the caller's balance to the engine's, and a
    successful [claimRewards] moves exactly the payout from the engine's
    balance to the caller's. *)
Theorem X_escrow_exact :
  forall c u,
    Chain.reachable c ->
    u <> self c ->
    let bal := Token.balanceOf (ledger (world c)) in
    (forall token direction initialStake w' pid,
       createProposal (env_of c u) (world c) token direction initialStake
       = Ok (w', pid) ->
       initialStake <= bal u /\
       Token.balanceOf (ledger w') u = bal u - initialStake /\
       Token.balanceOf (ledger w') (self c) = bal (self c) + initialStake) /\
    (forall pid amount isFor w',
       stake (env_of c u) (world c) pid amount isFor = Ok w' ->
       amount <= bal u /\
       Token.balanceOf (ledger w') u = bal u - amount /\
       Token.balanceOf (ledger w') (self c) = bal (self c) + amount) /\
    (forall pid w',
       claimRewards (env_of c u) (world c) pid = Ok w' ->
       let payout := payout_of (status (getProposal (engine (world c)) pid))
                               (getStake (engine (world c)) pid u) in
       payout <= bal (self c) /\
       Token.balanceOf (ledger w') (self c) = bal (self c) - payout /\
       Token.balanceOf (ledger w') u = bal u + payout).
Proof.
  intros c u Hr Hu. cbv zeta.
  pose proof (ledger_reachable_sound _ (chain_ledger_reachable c Hr)) as Hs.
  repeat split.
  all: try (apply createProposal_Ok in H; cbv zeta in H;
            destruct H as (_ & _ & _ & _ & _ & Hl & _); simpl in Hl;
            destruct (transferFrom_sound _ _ _ _ _ _ Hs Hl)
              as (Hle & Hfrom & Hto);
            destruct (decide (u = self c)); [contradiction|]; assumption).
  all: try (apply stake_Ok in H; cbv zeta in H;
            destruct H as (_ & _ & _ & _ & _ & _ & _ & Hl & _); simpl in Hl;
            destruct (transferFrom_sound _ _ _ _ _ _ Hs Hl)
              as (Hle & Hfrom & Hto);
            destruct (decide (u = self c)); [contradiction|]; assumption).
  all: apply claimRewards_Ok in H; cbv zeta in H;
       destruct H as (_ & _ & Hl & _); simpl in Hl;
       unfold Token.transfer in Hl;
       destruct (_transfer_sound _ _ _ _ _ Hs Hl) as (_ & Hfrom & Hto & _);
       apply _transfer_Ok in Hl; destruct Hl as (_ & _ & Hle & _);
       destruct (decide (self c = u)); [congruence|]; assumption.
Qed.

(** The second agent's stake of scenario A: 20,000 leave the agent's
    100,000 and join the creator's 10,000 in the engine. *)
Lemma X_escrow_exact_witness :
  exists w',
    stake (env_of (run Scenario.start [Scenario.propose]) Scenario.vox)
          (world (run Scenario.start [Scenario.propose]))
          Scenario.pidLong 20000 true = Ok w' /\
    Token.balanceOf (ledger w') Scenario.vox = 80000 /\
    Token.balanceOf (ledger w') Scenario.engineAddr = 30000.
Proof.
  destruct (stake (env_of (run Scenario.start [Scenario.propose]) Scenario.vox)
                  (world (run Scenario.start [Scenario.propose]))
                  Scenario.pidLong 20000 true) as [w'|err] eqn:H;
    [|vm_compute in H; discriminate].
  exists w'. split; [reflexivity|].
  assert (Hr : Chain.reachable (run Scenario.start [Scenario.propose]))
    by apply reachable_run, reachable_start.
  pose proof (X_escrow_exact (run Scenario.start [Scenario.propose])
                Scenario.vox Hr ltac:(vm_compute; discriminate)) as HX.
  cbv zeta in HX. destruct HX as (_ & Hstake & _).
  destruct (Hstake _ _ _ _ H) as (_ & Hu & Hself).
  split.
  - etransitivity; [exact Hu|]. vm_compute. reflexivity.
  - etransitivity; [exact Hself|]. vm_compute. reflexivity.
Defined.

(** ** The active list *)

Lemma index_of_Some pid l : forall k i,
  index_of pid l k = Some i ->
  exists l1 l2,
    l = l1 ++ pid :: l2 /\ i = (k + length l1)%nat /\ ~ In pid l1.
Proof.
  induction l as [| x l IH]; intros k i H; simpl in H; [discriminate|].
  destruct (x =? pid) eqn:Hx.
  - apply N.eqb_eq in Hx. subst x. injection H as <-.
    exists [], l. simpl. repeat split; auto with arith.
  - apply N.eqb_neq in Hx.
    destruct (IH _ _ H) as (l1 & l2 & -> & -> & Hnot).
    exists (x :: l1), l2. simpl. repeat split; [lia|].
    intros [Heq | Hin]; [congruence | contradiction].
Qed.

Lemma index_of_None pid l : forall k,
  index_of pid l k = None <-> ~ In pid l.
Proof.
  induction l as [| x l IH]; intros k; simpl.
  - split; [intros _ [] | reflexivity].
  - destruct (x =? pid) eqn:Hx.
    + apply N.eqb_eq in Hx. split; [discriminate | intros H; exfalso; auto].
    + apply N.eqb_neq in Hx. rewrite IH. split.
      * intros H [Heq | Hin]; [congruence | contradiction].
      * intros H Hin. apply H. auto.
Qed.

(** Swap-and-pop on a list: the first occurrence is overwritten with the
    last entry and the last entry is dropped. *)
Lemma swap_pop_split (l1 l2 : list N) pid :
  exists rest,
    match last (l1 ++ pid :: l2) with
    | Some z => removelast (<[length l1 := z]> (l1 ++ pid :: l2)) = rest
    | None => False
    end /\
    Permutation (l1 ++ l2) rest /\
    rest = match last l2 with
           | Some z => l1 ++ z :: removelast l2
           | None => l1
           end.
Proof.
  destruct l2 as [| z l2' _] using rev_ind; cycle 1.
  - exists (l1 ++ z :: l2').
    replace (l1 ++ pid :: l2' ++ [z]) with ((l1 ++ pid :: l2') ++ [z])
      by (rewrite <- app_assoc; reflexivity).
    rewrite !last_snoc. split; [|split].
    + rewrite <- app_assoc. simpl.
      rewrite insert_app_r_alt by lia.
      replace (length l1 - length l1)%nat with 0%nat by lia. simpl.
      replace (l1 ++ z :: l2' ++ [z]) with ((l1 ++ z :: l2') ++ [z])
        by (rewrite <- app_assoc; reflexivity).
      apply removelast_last.
    + apply Permutation_app_head. symmetry. rewrite <- Permutation_cons_append.
      reflexivity.
    + rewrite removelast_last. reflexivity.
  - exists l1.
    replace (l1 ++ [pid]) with (l1 ++ [pid]) by reflexivity.
    rewrite last_snoc. split; [|split].
    + rewrite insert_app_r_alt by lia.
      replace (length l1 - length l1)%nat with 0%nat by lia. simpl.
      apply removelast_last.
    + rewrite app_nil_r. reflexivity.
    + reflexivity.
Qed.

Lemma removeFromActive_absent s pid :
  ~ In pid (activeProposalIds s) -> _removeFromActive s pid = s.
Proof.
  intros Hnot. unfold _removeFromActive.
  rewrite (proj2 (index_of_None pid _ 0%nat) Hnot). reflexivity.
Qed.

Lemma removeFromActive_present s pid :
  In pid (activeProposalIds s) ->
  exists l1 l2,
    activeProposalIds s = l1 ++ pid :: l2 /\ ~ In pid l1 /\
    Permutation (l1 ++ l2) (activeProposalIds (_removeFromActive s pid)) /\
    activeProposalIds (_removeFromActive s pid)
    = match last l2 with
      | Some z => l1 ++ z :: removelast l2
      | None => l1
      end.
Proof.
  intros Hin. unfold _removeFromActive.
  destruct (index_of pid (activeProposalIds s) 0) as [i|] eqn:Hi;
    [| apply index_of_None in Hi; contradiction].
  destruct (index_of_Some _ _ _ _ Hi) as (l1 & l2 & Hl & -> & Hnot).
  exists l1, l2. split; [assumption|]. split; [assumption|].
  destruct (swap_pop_split l1 l2 pid) as (rest & Hrest & Hperm & Hexact).
  rewrite Hl. simpl.
  destruct (last (l1 ++ pid :: l2)) as [z|]; [|contradiction].
  simpl. rewrite Hrest. split; assumption.
Qed.

(** X6.  [_removeFromActive] takes exactly one entry out of the active
    list, the first occurrence of the identifier, by swap-and-pop: the
    last entry of the list is moved into the freed slot and the list is
    shortened by one, the entries before the slot and the other entries
    after it staying where they are; when the identifier is itself the
    last entry the list just loses it.  What is left is therefore a
    rearrangement of the other entries.  An identifier that is not on the
    list leaves the engine as it is.  Nothing but the active list is
    touched. *)
Theorem X_removeFromActive :
  forall s pid,
    (~ In pid (activeProposalIds s) -> _removeFromActive s pid = s) /\
    (In pid (activeProposalIds s) ->
     exists l1 l2,
       activeProposalIds s = l1 ++ pid :: l2 /\ ~ In pid l1 /\
       Permutation (l1 ++ l2) (activeProposalIds (_removeFromActive s pid)) /\
       S (length (activeProposalIds (_removeFromActive s pid)))
       = length (activeProposalIds s) /\
       activeProposalIds (_removeFromActive s pid)
       = match last l2 with
         | Some z => l1 ++ z :: removelast l2
         | None => l1
         end) /\
    proposals (_removeFromActive s pid) = proposals s /\
    stakes (_removeFromActive s pid) = stakes s /\
    agents (_removeFromActive s pid) = agents s /\
    allProposalIds (_removeFromActive s pid) = allProposalIds s /\
    events (_removeFromActive s pid) = events s.
Proof.
  intros s pid.
  split; [| split; [| destruct (removeFromActive_frame s pid) as [l ->];
                      repeat split ]].
  - apply removeFromActive_absent.
  - intros Hin.
    destruct (removeFromActive_present s pid Hin)
      as (l1 & l2 & Hl & Hnot & Hperm & Hexact).
    exists l1, l2. repeat split; try assumption.
    rewrite <- (Permutation_length Hperm), Hl, !length_app. simpl. lia.
Qed.

(** Taking the oldest of three proposals off the list moves the newest
    into its place. *)
Lemma X_removeFromActive_witness :
  activeProposalIds (engine (world Board.three))
  = [Scenario.pidLong; Board.pidShort; Board.pidDegen] /\
  activeProposalIds
    (_removeFromActive (engine (world Board.three)) Scenario.pidLong)
  = [Board.pidDegen; Board.pidShort] /\
  S (length (activeProposalIds
               (_removeFromActive (engine (world Board.three))
                                  Scenario.pidLong)))
  = length (activeProposalIds (engine (world Board.three))) /\
  _removeFromActive (engine (world Board.three)) Board.unknown
  = engine (world Board.three).
Proof.
  destruct (X_removeFromActive (engine (world Board.three)) Board.unknown)
    as (Habsent & _).
  destruct (X_removeFromActive (engine (world Board.three)) Scenario.pidLong)
    as (_ & Hpresent & _).
  split; [vm_compute; reflexivity|]. split; [vm_compute; reflexivity|].
  split.
  - destruct Hpresent as (l1 & l2 & _ & _ & _ & Hlen & _); [|exact Hlen].
    vm_compute. auto.
  - apply Habsent. vm_compute. intros H.
    repeat (destruct H as [H | H]; [discriminate H|]). exact H.
Defined.

(** ** Identifiers nothing was created under *)

(** X7.  The engine never checks that a proposal exists.  On an identifier
    with no record, [stake] is refused as on an inactive proposal,
    [claimRewards] is refused with [ProposalNotFinalized], and
    [expireProposal] succeeds for any caller: it stores an Expired record
    under the identifier and emits [ProposalExpired]. *)
Theorem X_unknown_proposal :
  forall e w pid,
    proposals (engine w) !! pid = None ->
    (forall amount isFor,
       stake e w pid amount isFor
       = Err (if registered (getAgentInfo (engine w) (msg_sender e))
              then ProposalNotActive else NotRegisteredAgent)) /\
    claimRewards e w pid = Err ProposalNotFinalized /\
    exists w',
      expireProposal e w pid = Ok w' /\
      getProposal (engine w') pid = with_status zeroProposal Expired /\
      events (engine w') = events (engine w) ++ [ProposalExpired pid] /\
      allProposalIds (engine w') = allProposalIds (engine w).
Proof.
  intros e w pid Hnone.
  assert (Hp : getProposal (engine w) pid = zeroProposal).
  { unfold getProposal. rewrite Hnone. reflexivity. }
  repeat split.
  - intros amount isFor. apply stake_on_inactive. cbv zeta.
    rewrite Hp. right. simpl. lia.
  - apply claimRewards_pending. rewrite Hp. reflexivity.
  - unfold expireProposal. cbv zeta. rewrite Hp. simpl.
    assert (Hnow : (block_timestamp e <? 0) = false) by (apply N.ltb_ge; lia).
    rewrite Hnow.
    eexists. split; [reflexivity|]. simpl.
    rewrite removeFromActive_events.
    destruct (removeFromActive_frame
                (set_proposal (engine w) pid (with_status zeroProposal Expired))
                pid) as [l Hl].
    rewrite Hl. simpl. repeat split. storage_lookup.
Qed.

Lemma X_unknown_proposal_witness :
  exists w',
    expireProposal (env_of Board.three Scenario.stranger)
                   (world Board.three) Board.unknown = Ok w' /\
    getProposal (engine w') Board.unknown = with_status zeroProposal Expired.
Proof.
  destruct (X_unknown_proposal (env_of Board.three Scenario.stranger)
              (world Board.three) Board.unknown
              ltac:(vm_compute; reflexivity))
    as (_ & _ & w' & Hrun & Hp & _).
  exists w'. auto.
Defined.

(** ** Rounding in settlement and in the quorum *)

Lemma bonus_is_twentieth k : bonus_of k = amount k / 20.
Proof.
  unfold bonus_of, REWARD_BPS.
  replace 10000 with (20 * 500) by reflexivity.
  apply N.Div0.div_mul_cancel_r. discriminate.
Qed.

Lemma slash_is_tenth k : slash_of k = amount k / 10.
Proof.
  unfold slash_of, SLASH_BPS.
  replace 10000 with (10 * 1000) by reflexivity.
  apply N.Div0.div_mul_cancel_r. discriminate.
Qed.

(** X8.  Whatever a settlement pays lies between nine tenths of the stake
    (rounded in the staker's favour) and the stake plus a twentieth
    (rounded down), and is never zero.  Rounding makes small stakes
    immune: a stake below 10 base units is never slashed, and a stake
    below 20 earns no bonus. *)
Theorem X_payout_bounds :
  forall e s pid s' payout,
    settle e s pid = Ok (s', payout) ->
    let a := amount (getStake s pid (msg_sender e)) in
    0 < payout /\
    a - a / 10 <= payout /\
    payout <= a + a / 20 /\
    (a < 10 -> a <= payout) /\
    (a < 20 -> payout <= a).
Proof.
  intros e s pid s' payout H. cbv zeta.
  apply settle_Ok in H. cbv zeta in H.
  destruct H as (_ & Ha & _ & -> & _).
  pose proof (payout_positive (status (getProposal s pid)) _ Ha) as Hpos.
  unfold payout_of in *.
  rewrite bonus_is_twentieth, slash_is_tenth in *.
  set (a := amount (getStake s pid (msg_sender e))) in *.
  clearbody a. clear Hpos.
  pose proof (N.Div0.mul_div_le a 10) as Hten.
  assert (H10 : a < 10 -> a / 10 = 0) by (intros; apply N.div_small; lia).
  assert (H20 : a < 20 -> a / 20 = 0) by (intros; apply N.div_small; lia).
  set (b := a / 20) in *. set (t := a / 10) in *. clearbody b t.
  destruct (classify _ _); repeat split; lia.
Qed.

(** A stake of 9 on the losing side of scenario B would come back whole;
    here the creator's 10,000 come back as 9,000. *)
Lemma X_payout_bounds_witness :
  exists s' payout,
    settle (env_of Scenario.rejected Scenario.mo)
           (engine (world Scenario.rejected)) Scenario.pidLong
    = Ok (s', payout) /\
    9000 <= payout /\ payout <= 10500.
Proof.
  destruct (settle (env_of Scenario.rejected Scenario.mo)
                   (engine (world Scenario.rejected)) Scenario.pidLong)
    as [[s' payout]|err] eqn:H; [|vm_compute in H; discriminate].
  exists s', payout. split; [reflexivity|].
  pose proof (X_payout_bounds _ _ _ _ _ H) as HX. cbv zeta in HX.
  destruct HX as (_ & Hlo & Hhi & _).
  assert (Ha : amount (getStake (engine (world Scenario.rejected))
                                Scenario.pidLong
                                (msg_sender (env_of Scenario.rejected
                                                    Scenario.mo)))
               = 10000) by (vm_compute; reflexivity).
  rewrite Ha in Hlo, Hhi. split.
  - etransitivity; [|exact Hlo]. vm_compute. discriminate.
  - etransitivity; [exact Hhi|]. vm_compute. discriminate.
Defined.

(** The proposal record a successful [stake] leaves behind. *)
Lemma stake_leaves e w pid amount isFor w' :
  stake e w pid amount isFor = Ok w' ->
  let p1 := backed (getProposal (engine w) pid) amount isFor in
  amount <> 0 /\
  status (getProposal (engine w) pid) = Pending /\
  getProposal (engine w') pid
  = with_status p1 (quorum_rule (totalStakeFor p1) (totalStakeAgainst p1)).
Proof.
  intros H. cbv zeta.
  apply stake_Ok in H. cbv zeta in H.
  destruct H as (_ & Hp & _ & _ & Hamt & _ & -> & _).
  split; [assumption|]. split; [assumption|].
  set (p1 := backed (getProposal (engine w) pid) amount isFor).
  assert (Hp1 : status p1 = Pending)
    by (unfold p1; rewrite backed_status; assumption).
  rewrite finalized_proposal, staked_proposal. fold p1.
  destruct (quorum_rule _ _) eqn:Hq; case_decide; try contradiction;
    try reflexivity.
  - clear -Hp1. clearbody p1. destruct p1; simpl in *. subst. reflexivity.
  - exfalso. eapply quorum_rule_not_Expired; eassumption.
Qed.

(** X9.  The outcome of a successful [stake] in exact shares: the proposal
    is Executed exactly when the "for" total is at least 66% of the whole,
    Rejected exactly when the "against" total is while the "for" total is
    not, the two never hold together, and it stays Pending otherwise.  A
    stake that leaves nothing against always executes. *)
Theorem X_quorum_exact_shares :
  forall e w pid amount isFor w',
    stake e w pid amount isFor = Ok w' ->
    let p' := getProposal (engine w') pid in
    let f := totalStakeFor p' in
    let a := totalStakeAgainst p' in
    f + a <> 0 /\
    (status p' = Executed <-> 66 * (f + a) <= 100 * f) /\
    (status p' = Rejected <-> 66 * (f + a) <= 100 * a) /\
    (status p' = Pending <->
     100 * f < 66 * (f + a) /\ 100 * a < 66 * (f + a)) /\
    ~ (66 * (f + a) <= 100 * f /\ 66 * (f + a) <= 100 * a) /\
    (a = 0 -> status p' = Executed).
Proof.
  intros e w pid amount isFor w' H.
  apply stake_leaves in H. cbv zeta in H |- *.
  destruct H as (Hamt & _ & ->).
  set (p1 := backed (getProposal (engine w) pid) amount isFor).
  simpl.
  set (f := totalStakeFor p1). set (a := totalStakeAgainst p1).
  assert (Hz : f + a <> 0).
  { unfold f, a, p1, backed. destruct isFor; simpl; lia. }
  unfold quorum_rule. cbv zeta.
  apply N.eqb_neq in Hz. rewrite Hz. apply N.eqb_neq in Hz.
  pose proof (share_reaches_quorum f (f + a) Hz) as Hfor.
  pose proof (share_reaches_quorum a (f + a) Hz) as Hag.
  destruct (N.leb_spec 6600 (f * 10000 / (f + a))) as [H1 | H1];
    destruct (N.leb_spec 6600 (a * 10000 / (f + a))) as [H2 | H2].
  all: set (x := f * 10000 / (f + a)) in *;
       set (y := a * 10000 / (f + a)) in *; clearbody x y.
  all: repeat split; try discriminate; try lia; intros; try lia.
Qed.

(** Scenario C: an even split is below 66% on both sides. *)
Lemma X_quorum_exact_shares_witness :
  exists w',
    stake (env_of (run Scenario.start [Scenario.propose]) Scenario.vox)
          (world (run Scenario.start [Scenario.propose]))
          Scenario.pidLong 10000 false = Ok w' /\
    status (getProposal (engine w') Scenario.pidLong) = Pending.
Proof.
  destruct (stake (env_of (run Scenario.start [Scenario.propose]) Scenario.vox)
                  (world (run Scenario.start [Scenario.propose]))
                  Scenario.pidLong 10000 false) as [w'|err] eqn:H;
    [|vm_compute in H; discriminate].
  exists w'. split; [reflexivity|].
  pose proof (X_quorum_exact_shares _ _ _ _ _ _ H) as HX. cbv zeta in HX.
  destruct HX as (_ & _ & _ & Hpend & _).
  apply Hpend.
  revert H. vm_compute. intros [= <-]. split; reflexivity.
Defined.

(** ** The engine's lists along an execution *)

Import Audit.

Lemma getProposalStakers_ext s1 s2 x :
  proposalStakers s1 = proposalStakers s2 ->
  getProposalStakers s1 x = getProposalStakers s2 x.
Proof. unfold getProposalStakers. intros ->. reflexivity. Qed.

Lemma created_stakers e s token direction initialStake x :
  getProposalStakers (created e s token direction initialStake) x
  = if decide (keccak256 e token direction (block_timestamp e) (msg_sender e) = x)
    then getProposalStakers s x ++ [msg_sender e]
    else getProposalStakers s x.
Proof.
  unfold created, fresh_proposal, getProposalStakers. cbv zeta. simpl.
  rewrite lookup_insert. case_decide; subst; reflexivity.
Qed.

Lemma staked_stakers e s pid amount isFor x :
  getProposalStakers (staked e s pid amount isFor) x
  = if decide (pid = x) then getProposalStakers s x ++ [msg_sender e]
    else getProposalStakers s x.
Proof.
  unfold staked, getProposalStakers. cbv zeta. simpl.
  rewrite lookup_insert. case_decide; subst; reflexivity.
Qed.

Lemma finalized_stakers s pid st :
  proposalStakers (finalized s pid st) = proposalStakers s.
Proof.
  unfold finalized. cbv zeta.
  destruct st; try reflexivity; simpl;
    destruct (removeFromActive_frame
                (set_proposal s pid (with_status (getProposal s pid) Executed))
                pid) as [l1 H1];
    destruct (removeFromActive_frame
                (set_proposal s pid (with_status (getProposal s pid) Rejected))
                pid) as [l2 H2];
    rewrite ?H1, ?H2; reflexivity.
Qed.

Lemma removeFromActive_all s pid :
  allProposalIds (_removeFromActive s pid) = allProposalIds s.
Proof. destruct (removeFromActive_frame s pid) as [l ->]. reflexivity. Qed.

Lemma removeFromActive_stakers s pid :
  proposalStakers (_removeFromActive s pid) = proposalStakers s.
Proof. destruct (removeFromActive_frame s pid) as [l ->]. reflexivity. Qed.

Lemma finalized_all s pid st :
  allProposalIds (finalized s pid st) = allProposalIds s.
Proof.
  unfold finalized. cbv zeta.
  destruct st; try reflexivity; simpl; rewrite removeFromActive_all;
    reflexivity.
Qed.

Lemma finalized_active s pid st :
  activeProposalIds (finalized s pid st)
  = match st with
    | Executed | Rejected =>
        activeProposalIds
          (_removeFromActive
             (set_proposal s pid (with_status (getProposal s pid) st)) pid)
    | _ => activeProposalIds s
    end.
Proof. unfold finalized. cbv zeta. destruct st; reflexivity. Qed.

Lemma settle_lists e s pid s' payout :
  settle e s pid = Ok (s', payout) ->
  activeProposalIds s' = activeProposalIds s /\
  allProposalIds s' = allProposalIds s.
Proof.
  unfold settle. cbv zeta. intros H. do 3 ok_step H.
  destruct (_ || _).
  - do 3 ok_step H. injection H as <- _. auto.
  - destruct (status_eqb _ Expired).
    + injection H as <- _. auto.
    + do 4 ok_step H. injection H as <- _. auto.
Qed.


Lemma exec_effect e w call w' : exec e w call = Ok w' -> effect e w w' call.
Proof.
  intros Hexec.
  destruct call as [token direction initialStake | pid amt isFor | pid | pid
                   | agent | v | | to amt | spender amt | to amt
                   | from to amt]; simpl in Hexec.
  - ok_bind Hexec as r Hr. destruct r as [w1 pid1]. injection Hexec as <-.
    apply createProposal_Ok in Hr. cbv zeta in Hr.
    destruct Hr as (Hreg & _ & Hst & _ & He & _).
    constructor; assumption.
  - apply stake_Ok in Hexec. cbv zeta in Hexec.
    destruct Hexec as (Hreg & Hp & Ht & Hz & Hamt & _ & He & _).
    constructor; assumption.
  - apply claimRewards_Ok in Hexec. cbv zeta in Hexec.
    destruct Hexec as (Hs & _).
    destruct (settle_lists _ _ _ _ _ Hs) as [Hact Hall].
    apply settle_Ok in Hs. cbv zeta in Hs.
    destruct Hs as (Hfin & Hamt & _ & _ & _ & Hprop & Hst & Hag & _ & Hv & Ho
                    & Hsk).
    constructor; assumption.
  - apply expireProposal_Ok in Hexec. cbv zeta in Hexec.
    destruct Hexec as (Hp & Ht & He & _). constructor; assumption.
  - apply registerAgent_Ok in Hexec. cbv zeta in Hexec.
    destruct Hexec as (Ho & Ha & He & _). constructor; assumption.
  - unfold setVault in Hexec. cbv zeta in Hexec. ok_step Hexec.
    injection Hexec as <-. apply negb_false_iff, N.eqb_eq in Hc.
    constructor; [assumption | reflexivity].
  - unfold renounceOwnership in Hexec. cbv zeta in Hexec. ok_step Hexec.
    injection Hexec as <-. apply negb_false_iff, N.eqb_eq in Hc.
    constructor; [assumption | reflexivity].
  - apply on_ledger_Ok in Hexec. constructor. tauto.
  - apply on_ledger_Ok in Hexec. constructor. tauto.
  - apply on_ledger_Ok in Hexec. constructor. tauto.
  - apply on_ledger_Ok in Hexec. constructor. tauto.
Qed.


(** *** Stakers and stake holders *)

Lemma expired_fields s pid :
  let s' := emit (_removeFromActive
                    (set_proposal s pid
                       (with_status (getProposal s pid) Expired)) pid)
                 (ProposalExpired pid) in
  proposalStakers s' = proposalStakers s /\
  stakes s' = stakes s /\
  agents s' = agents s /\
  allProposalIds s' = allProposalIds s /\
  vault s' = vault s /\ owner s' = owner s /\
  (forall x, getProposal s' x
             = if decide (pid = x)
               then with_status (getProposal s pid) Expired
               else getProposal s x).
Proof.
  cbv zeta.
  destruct (removeFromActive_frame
              (set_proposal s pid (with_status (getProposal s pid) Expired))
              pid) as [l ->].
  simpl. repeat split. intros x. storage_lookup.
Qed.

Lemma in_snoc (x y : N) l : In x (l ++ [y]) <-> In x l \/ x = y.
Proof.
  rewrite in_app_iff. simpl. intuition congruence.
Qed.

(** Name the parts of an [effect]. *)
Ltac effect_cases H :=
  destruct H as
    [ tok dir st0 Hreg Hst He
    | pid1 amt side Hreg Hpend Htime Hzero Hamt He
    | pid1 Hfin Hamt Hprop Hstk Hag Hsk Hact Hall Hv Ho
    | pid1 Hpend Htime He
    | agent1 Ho Hagent He
    | v1 Ho He
    | Ho He
    | to1 amt He | spender1 amt He | to1 amt He | from1 to1 amt He ].

Lemma exec_holders e w call w' :
  exec e w call = Ok w' ->
  holders_listed (engine w) -> holders_listed (engine w').
Proof.
  intros Hexec [Hhold Hun]. apply exec_effect in Hexec.
  effect_cases Hexec.
  - (* createProposal *)
    rewrite He. split.
    + intros pid a. rewrite created_stakers, created_stake.
      destruct (decide (keccak256 e tok dir (block_timestamp e)
                                  (msg_sender e) = pid)) as [<- | Hne].
      * rewrite in_snoc, Hhold.
        case_decide as Heq.
        -- injection Heq as <-. simpl. intuition.
        -- assert (a <> msg_sender e) by congruence. intuition.
      * case_decide as Heq; [injection Heq as Heq _; contradiction|].
        apply Hhold.
    + intros pid Hnot. simpl in Hnot.
      rewrite created_proposal, created_stakers.
      assert (Hne : keccak256 e tok dir (block_timestamp e)
                              (msg_sender e) <> pid).
      { intros <-. apply Hnot. apply in_snoc. auto. }
      repeat case_decide; try contradiction.
      apply Hun. intros Hin. apply Hnot. apply in_snoc. auto.
  - (* stake *)
    rewrite He. split.
    + intros pid0 a.
      rewrite (getProposalStakers_ext _ _ pid0 (finalized_stakers _ _ _)).
      rewrite (getStake_ext _ _ pid0 a (finalized_stakes _ _ _)).
      rewrite staked_stakers, staked_stake.
      destruct (decide (pid1 = pid0)) as [<- | Hne].
      * rewrite in_snoc, Hhold.
        case_decide as Heq.
        -- injection Heq as <-. simpl. intuition.
        -- assert (a <> msg_sender e) by congruence. intuition.
      * case_decide as Heq; [injection Heq as Heq _; contradiction|].
        apply Hhold.
    + intros pid0 Hnot. rewrite finalized_all in Hnot. simpl in Hnot.
      assert (Hne : pid1 <> pid0).
      { intros <-. destruct (Hun _ Hnot) as [Hexp _]. lia. }
      rewrite (getProposalStakers_ext _ _ pid0 (finalized_stakers _ _ _)).
      rewrite staked_stakers, finalized_proposal.
      destruct (quorum_rule _ _); rewrite ?staked_proposal;
        repeat case_decide; try contradiction; apply Hun; assumption.
  - (* claimRewards *)
    split.
    + intros pid0 a.
      rewrite (getProposalStakers_ext _ _ pid0 Hsk).
      unfold getStake at 1. rewrite Hstk, lookup_insert.
      case_decide as Heq; [|apply Hhold].
      injection Heq as <- <-. simpl. apply Hhold.
    + intros pid0 Hnot. rewrite Hall in Hnot.
      rewrite (getProposalStakers_ext _ _ pid0 Hsk).
      rewrite (getProposal_ext _ _ pid0 Hprop). apply Hun. assumption.
  - (* expireProposal *)
    rewrite He.
    destruct (expired_fields (engine w) pid1)
      as (Hsk & Hst & _ & Hall & _ & _ & Hp).
    split.
    + intros pid0 a.
      rewrite (getProposalStakers_ext _ _ pid0 Hsk).
      rewrite (getStake_ext _ _ pid0 a Hst). apply Hhold.
    + intros pid0 Hnot. rewrite Hall in Hnot.
      rewrite (getProposalStakers_ext _ _ pid0 Hsk), Hp.
      case_decide; [subst; simpl|]; apply Hun; assumption.
  - rewrite He. split; [exact Hhold | exact Hun].
  - rewrite He. split; [exact Hhold | exact Hun].
  - rewrite He. split; [exact Hhold | exact Hun].
  - rewrite He. split; assumption.
  - rewrite He. split; assumption.
  - rewrite He. split; assumption.
  - rewrite He. split; assumption.
Qed.

Lemma reachable_holders c :
  Chain.reachable c -> holders_listed (engine (world c)).
Proof.
  induction 1 as [| c st Hreach IH].
  - split.
    + intros pid a. simpl. split; [intros [] | intros H; exfalso; auto].
    + intros pid _. split; reflexivity.
  - destruct (step_cases c st)
      as (_ & _ & _ & [-> | (sender & call & -> & _ & Hexec)]); [assumption|].
    eapply exec_holders; eassumption.
Qed.

(** X10.  In every reachable state of the chain the list of stakers of a
    proposal names exactly the agents who hold a stake on it; a stake is
    only ever held on a listed proposal; and an identifier that is not
    listed has no expiry, no stakers and no stake. *)
Theorem X_stakers_are_holders :
  forall c,
    Chain.reachable c ->
    let s := engine (world c) in
    (forall pid a,
       In a (getProposalStakers s pid) <-> amount (getStake s pid a) <> 0) /\
    (forall pid a,
       amount (getStake s pid a) <> 0 -> In pid (allProposalIds s)) /\
    (forall pid,
       ~ In pid (allProposalIds s) ->
       expiresAt (getProposal s pid) = 0 /\
       getProposalStakers s pid = [] /\
       forall a, amount (getStake s pid a) = 0).
Proof.
  intros c Hr. cbv zeta.
  destruct (reachable_holders c Hr) as [Hhold Hun].
  split; [exact Hhold|]. split.
  - intros pid a Ha.
    destruct (in_dec N.eq_dec pid (allProposalIds (engine (world c))))
      as [Hin | Hnot]; [assumption|].
    destruct (Hun pid Hnot) as [_ Hnil].
    apply Hhold in Ha. rewrite Hnil in Ha. contradiction.
  - intros pid Hnot. destruct (Hun pid Hnot) as [Hexp Hnil].
    repeat split; try assumption.
    intros a.
    destruct (N.eq_dec (amount (getStake (engine (world c)) pid a)) 0)
      as [Hz | Hnz]; [assumption|].
    apply Hhold in Hnz. rewrite Hnil in Hnz. contradiction.
Qed.

Lemma X_stakers_are_holders_witness :
  In Scenario.vox
     (getProposalStakers (engine (world Scenario.executed)) Scenario.pidLong)
  /\ amount (getStake (engine (world Scenario.executed)) Board.unknown
                      Scenario.mo) = 0.
Proof.
  pose proof (X_stakers_are_holders Scenario.executed reachable_executed)
    as HX.
  cbv zeta in HX. destruct HX as (Hhold & _ & Hun).
  split.
  - exact (proj2 (Hhold Scenario.pidLong Scenario.vox)
                 ltac:(vm_compute; discriminate)).
  - assert (Hnot : ~ In Board.unknown
                        (allProposalIds (engine (world Scenario.executed)))).
    { vm_compute. intros H.
      repeat (destruct H as [H | H]; [discriminate H|]). exact H. }
    exact (proj2 (proj2 (Hun Board.unknown Hnot)) Scenario.mo).
Defined.

(** *** Well-formed proposal records *)

Lemma created_all e s token direction initialStake :
  allProposalIds (created e s token direction initialStake)
  = allProposalIds s
    ++ [keccak256 e token direction (block_timestamp e) (msg_sender e)].
Proof. reflexivity. Qed.

Lemma created_active e s token direction initialStake :
  activeProposalIds (created e s token direction initialStake)
  = activeProposalIds s
    ++ [keccak256 e token direction (block_timestamp e) (msg_sender e)].
Proof. reflexivity. Qed.

(** A call either creates the record of a proposal, or leaves its
    identifier, token, direction, creation time, expiry and creator alone
    and its totals no smaller. *)
Lemma exec_proposal_cases e w call w' pid :
  exec e w call = Ok w' ->
  (exists token direction initialStake,
     call = CreateProposal token direction initialStake /\
     pid = keccak256 e token direction (block_timestamp e) (msg_sender e) /\
     getProposal (engine w') pid
     = fresh_proposal e token direction initialStake /\
     getStake (engine w') pid (msg_sender e) = mkStake initialStake true false /\
     initialStake <> 0 /\
     registered (getAgentInfo (engine w) (msg_sender e)) = true) \/
  ((forall token direction initialStake,
      call = CreateProposal token direction initialStake ->
      pid <> keccak256 e token direction (block_timestamp e) (msg_sender e)) /\
   let p := getProposal (engine w) pid in
   let p' := getProposal (engine w') pid in
   id p' = id p /\ token p' = token p /\ direction p' = direction p /\
   createdAt p' = createdAt p /\ expiresAt p' = expiresAt p /\
   creator p' = creator p /\
   totalStakeFor p <= totalStakeFor p' /\
   totalStakeAgainst p <= totalStakeAgainst p' /\
   (status p <> Pending -> p' = p)).
Proof.
  intros Hexec. pose proof (exec_effect _ _ _ _ Hexec) as Heff.
  effect_cases Heff.
  - destruct (decide (pid = keccak256 e tok dir (block_timestamp e)
                                      (msg_sender e))) as [-> | Hne].
    + left. exists tok, dir, st0. rewrite He.
      rewrite created_proposal, created_stake.
      repeat case_decide; try contradiction. auto 10.
    + right. split; [intros ? ? ? [= <- <- <-]; assumption|].
      cbv zeta. rewrite He, created_proposal.
      case_decide; [congruence|]. repeat split; try reflexivity; try lia.
  - right. split; [discriminate|]. cbv zeta. rewrite He.
    rewrite finalized_proposal, staked_proposal.
    destruct (decide (pid1 = pid)) as [<- | Hne].
    + destruct (quorum_rule _ _); rewrite ?staked_proposal;
        repeat case_decide; try contradiction;
        unfold backed; destruct side; simpl;
        repeat split; try reflexivity; try lia; congruence.
    + destruct (quorum_rule _ _); rewrite ?staked_proposal;
        repeat case_decide; try contradiction;
        repeat split; try reflexivity; try lia.
  - right. split; [discriminate|]. cbv zeta.
    rewrite (getProposal_ext _ _ pid Hprop).
    repeat split; try reflexivity; try lia.
  - right. split; [discriminate|]. cbv zeta. rewrite He.
    destruct (expired_fields (engine w) pid1) as (_ & _ & _ & _ & _ & _ & Hp).
    rewrite Hp. case_decide; [subst pid1; simpl|];
      repeat split; try reflexivity; try lia; congruence.
  - right. split; [discriminate|]. cbv zeta. rewrite He.
    repeat split; try reflexivity; lia.
  - right. split; [discriminate|]. cbv zeta. rewrite He.
    repeat split; try reflexivity; lia.
  - right. split; [discriminate|]. cbv zeta. rewrite He.
    repeat split; try reflexivity; lia.
  - right. split; [discriminate|]. cbv zeta. rewrite He.
    repeat split; try reflexivity; lia.
  - right. split; [discriminate|]. cbv zeta. rewrite He.
    repeat split; try reflexivity; lia.
  - right. split; [discriminate|]. cbv zeta. rewrite He.
    repeat split; try reflexivity; lia.
  - right. split; [discriminate|]. cbv zeta. rewrite He.
    repeat split; try reflexivity; lia.
Qed.

(** A call lists at most one more identifier, the one it created. *)
Lemma exec_all_cases e w call w' :
  exec e w call = Ok w' ->
  allProposalIds (engine w') = allProposalIds (engine w) \/
  exists token direction initialStake,
    call = CreateProposal token direction initialStake /\
    allProposalIds (engine w')
    = allProposalIds (engine w)
      ++ [keccak256 e token direction (block_timestamp e) (msg_sender e)].
Proof.
  intros Hexec. apply exec_effect in Hexec. effect_cases Hexec;
    try (left; rewrite He; reflexivity).
  - right. exists tok, dir, st0. rewrite He. auto.
  - left. rewrite He, finalized_all. reflexivity.
  - left. assumption.
  - left. rewrite He.
    destruct (expired_fields (engine w) pid1) as (_ & _ & _ & Hall & _).
    exact Hall.
Qed.

Lemma exec_well_formed c sender call w' :
  exec (env_of c sender) (world c) call = Ok w' ->
  (forall pid, In pid (allProposalIds (engine (world c))) ->
               well_formed c pid) ->
  forall pid, In pid (allProposalIds (engine w')) ->
              well_formed (mkChain (self c) (hash c) w' (now c)) pid.
Proof.
  intros Hexec Hwf pid Hin.
  pose proof (fun a => exec_registered _ _ _ _ a Hexec) as Hmono.
  unfold well_formed in *. cbv zeta in *. simpl self. simpl hash.
  simpl now. simpl world.
  destruct (exec_proposal_cases _ _ _ _ pid Hexec)
    as [(tok & dir & st0 & -> & Hpid & Hp & Hk & Hst & Hreg)
       | (Hspare & Hid & Htok & Hdir & Hcr & Hexp & Hcreator & Hfor & _)].
  - rewrite Hp. unfold fresh_proposal. cbv zeta. simpl in *.
    rewrite Hk. simpl. subst pid.
    repeat split; try reflexivity; try assumption; try lia.
    apply Hmono. assumption.
  - assert (Hin0 : In pid (allProposalIds (engine (world c)))).
    { destruct (exec_all_cases _ _ _ _ Hexec)
        as [Heq | (tok & dir & st0 & -> & Heq)]; rewrite Heq in Hin;
        [assumption|].
      apply in_snoc in Hin. destruct Hin as [Hin | ->]; [assumption|].
      exfalso. eapply Hspare; reflexivity. }
    destruct (Hwf pid Hin0) as (H1 & H2 & H3 & H4 & H5 & H6 & H7 & H8).
    cbv zeta in *.
    rewrite Hid, Htok, Hdir, Hcr, Hexp, Hcreator.
    assert (Hstake : amount (getStake (engine w') pid
                               (creator (getProposal (engine (world c)) pid)))
                     <> 0 /\
                     isFor (getStake (engine w') pid
                              (creator (getProposal (engine (world c)) pid)))
                     = true).
    { destruct (exec_stake_cases _ _ _ _ pid
                  (creator (getProposal (engine (world c)) pid)) Hexec)
        as [-> | [(_ & _ & [(? & ? & _ & Hz) | (? & ? & ? & -> & Hnew)])
                 | (_ & _ & _ & _ & ->)]].
      - auto.
      - contradiction.
      - exfalso. eapply Hspare; [reflexivity | exact Hnew].
      - simpl. auto. }
    destruct Hstake as [Hs1 Hs2].
    repeat split; try assumption; try lia.
    apply Hmono. assumption.
Qed.

(** X11.  In every reachable state every listed proposal has a well-formed
    record: it carries its own identifier, the identifier is the hash of
    its token, direction, creation time and creator, it expires exactly
    [PROPOSAL_TIMEOUT] after its creation, it was not created in the
    future, its "for" total is not zero, and its creator is a registered
    agent who holds a "for" stake on it. *)
Theorem X_proposals_well_formed :
  forall c pid,
    Chain.reachable c ->
    In pid (allProposalIds (engine (world c))) ->
    well_formed c pid.
Proof.
  intros c pid Hr. revert pid.
  induction Hr as [| c st Hreach IH]; intros pid Hin.
  - contradiction.
  - destruct (step_cases c st)
      as (Hself & Hhash & Hnow
          & [Hw | (sender & call & -> & Hnow' & Hexec)]).
    + rewrite Hw in Hin. specialize (IH pid Hin).
      unfold well_formed in *. cbv zeta in *.
      rewrite Hw, Hhash.
      destruct IH as (H1 & H2 & H3 & H4 & H5 & H6 & H7 & H8).
      repeat split; try assumption. lia.
    + pose proof (exec_well_formed c sender call _ Hexec IH pid Hin) as Hwf.
      unfold well_formed in *. cbv zeta in *. simpl in Hwf.
      rewrite Hhash, Hnow'. exact Hwf.
Qed.

Lemma X_proposals_well_formed_witness :
  well_formed Scenario.executed Scenario.pidLong.
Proof.
  exact (X_proposals_well_formed Scenario.executed Scenario.pidLong
           reachable_executed ltac:(vm_compute; auto)).
Defined.

(** ** What never changes about a proposal *)

(** X12.  The terms of a proposal are fixed: over any steps that do not
    derive its identifier anew, its identifier field, token, direction,
    creation time, expiry and creator stay as they are, and neither of
    its totals ever decreases. *)
Theorem X_proposal_terms_fixed :
  forall l c pid,
    spared pid c l ->
    let p := getProposal (engine (world c)) pid in
    let p' := getProposal (engine (world (run c l))) pid in
    id p' = id p /\ token p' = token p /\ direction p' = direction p /\
    createdAt p' = createdAt p /\ expiresAt p' = expiresAt p /\
    creator p' = creator p /\
    totalStakeFor p <= totalStakeFor p' /\
    totalStakeAgainst p <= totalStakeAgainst p'.
Proof.
  induction l as [| st l IH]; intros c pid Hsp; cbv zeta.
  - simpl. repeat split; lia.
  - destruct Hsp as [Hst Hsp]. rewrite run_cons.
    specialize (IH (step c st) pid Hsp). cbv zeta in IH.
    destruct IH as (I1 & I2 & I3 & I4 & I5 & I6 & I7 & I8).
    rewrite I1, I2, I3, I4, I5, I6.
    assert (Hone :
      let p := getProposal (engine (world c)) pid in
      let p' := getProposal (engine (world (step c st))) pid in
      id p' = id p /\ token p' = token p /\ direction p' = direction p /\
      createdAt p' = createdAt p /\ expiresAt p' = expiresAt p /\
      creator p' = creator p /\
      totalStakeFor p <= totalStakeFor p' /\
      totalStakeAgainst p <= totalStakeAgainst p').
    { cbv zeta.
      destruct (step_cases c st)
        as (_ & _ & _ & [-> | (sender & call & -> & _ & Hexec)]).
      - repeat split; lia.
      - destruct (exec_proposal_cases _ _ _ _ pid Hexec)
          as [(tok & dir & st0 & -> & Hpid & _)
             | (_ & J1 & J2 & J3 & J4 & J5 & J6 & J7 & J8 & _)].
        + simpl in Hst. simpl in Hpid. congruence.
        + repeat split; assumption. }
    cbv zeta in Hone.
    destruct Hone as (J1 & J2 & J3 & J4 & J5 & J6 & J7 & J8).
    repeat split; try assumption; lia.
Qed.

Lemma X_proposal_terms_fixed_witness :
  let p := getProposal (engine (world Board.three)) Board.pidShort in
  let p' := getProposal (engine (world (run Board.three Board.backing)))
                        Board.pidShort in
  id p' = id p /\ token p' = token p /\ direction p' = direction p /\
  createdAt p' = createdAt p /\ expiresAt p' = expiresAt p /\
  creator p' = creator p /\
  totalStakeFor p <= totalStakeFor p' /\
  totalStakeAgainst p <= totalStakeAgainst p'.
Proof.
  exact (X_proposal_terms_fixed Board.backing Board.three Board.pidShort
           ltac:(vm_compute; auto)).
Defined.

(** X13.  The list of all proposals is append-only: whatever the steps,
    the identifiers listed before are still listed, at the same indices,
    and a step adds at most one, so [getAllProposalCount] never
    decreases. *)
Theorem X_all_proposals_append_only :
  forall l c,
    exists more,
      allProposalIds (engine (world (run c l)))
      = allProposalIds (engine (world c)) ++ more /\
      (length more <= length l)%nat.
Proof.
  induction l as [| st l IH]; intros c.
  - exists []. simpl. rewrite app_nil_r. auto.
  - rewrite run_cons. destruct (IH (step c st)) as (more & Heq & Hlen).
    destruct (step_cases c st)
      as (_ & _ & _ & [Hw | (sender & call & -> & _ & Hexec)]).
    + exists more. rewrite Heq, Hw. simpl. split; [reflexivity | lia].
    + destruct (exec_all_cases _ _ _ _ Hexec)
        as [Hall | (tok & dir & st0 & _ & Hall)].
      * exists more. rewrite Heq, Hall. simpl. split; [reflexivity | lia].
      * exists (keccak256 (env_of c sender) tok dir
                  (block_timestamp (env_of c sender))
                  (msg_sender (env_of c sender)) :: more).
        rewrite Heq, Hall, <- app_assoc. simpl. split; [reflexivity | lia].
Qed.

(** ** Administration *)

Lemma finalized_owner s pid st : owner (finalized s pid st) = owner s.
Proof.
  unfold finalized. cbv zeta.
  destruct st; try reflexivity; simpl; rewrite removeFromActive_owner;
    reflexivity.
Qed.

Lemma finalized_vault s pid st : vault (finalized s pid st) = vault s.
Proof.
  unfold finalized. cbv zeta.
  destruct st; try reflexivity; simpl; rewrite removeFromActive_vault;
    reflexivity.
Qed.

Lemma finalized_agent s pid st a :
  getAgentInfo (finalized s pid st) a = getAgentInfo s a.
Proof. unfold getAgentInfo. rewrite finalized_agents. reflexivity. Qed.

(** What a call can do to the owner, the vault and the registrations. *)
Lemma exec_admin_cases e w call w' :
  exec e w call = Ok w' ->
  (owner (engine w') = owner (engine w) \/
   call = RenounceOwnership /\ msg_sender e = owner (engine w) /\
   owner (engine w') = 0) /\
  (vault (engine w') = vault (engine w) \/
   msg_sender e = owner (engine w) /\ call = SetVault (vault (engine w'))) /\
  (forall a,
     registered (getAgentInfo (engine w') a)
     = registered (getAgentInfo (engine w) a) \/
     msg_sender e = owner (engine w) /\ call = RegisterAgent a /\ a <> 0 /\
     registered (getAgentInfo (engine w') a) = true).
Proof.
  intros Hexec. apply exec_effect in Hexec. effect_cases Hexec.
  - rewrite He. repeat split; try (left; reflexivity).
    intros a. left. rewrite created_agent. case_decide; [subst a|]; reflexivity.
  - rewrite He. rewrite finalized_owner, finalized_vault.
    repeat split; try (left; reflexivity).
    intros a. left. rewrite finalized_agent, staked_agent.
    case_decide; [subst a|]; reflexivity.
  - rewrite Ho, Hv. repeat split; try (left; reflexivity).
    intros a. left. rewrite Hag. case_decide; [subst a|]; [|reflexivity].
    unfold settled_agent. destruct (classify _ _); reflexivity.
  - rewrite He.
    destruct (expired_fields (engine w) pid1)
      as (_ & _ & Hag & _ & Hv & Ho & _).
    rewrite Hv, Ho. repeat split; try (left; reflexivity).
    intros a. left. unfold getAgentInfo. rewrite Hag. reflexivity.
  - rewrite He. repeat split; try (left; reflexivity).
    intros a. destruct (decide (agent1 = a)) as [<- | Hne].
    + right. repeat split; try assumption.
      unfold getAgentInfo. simpl. rewrite lookup_insert_eq. reflexivity.
    + left. unfold getAgentInfo. simpl.
      rewrite lookup_insert_ne by assumption. reflexivity.
  - rewrite He. repeat split; try (left; reflexivity).
    right. simpl. auto.
  - rewrite He. repeat split; try (left; reflexivity).
    right. simpl. auto.
  - rewrite He. repeat split; left; reflexivity.
  - rewrite He. repeat split; left; reflexivity.
  - rewrite He. repeat split; left; reflexivity.
  - rewrite He. repeat split; left; reflexivity.
Qed.

(** X14.  Administration is the owner's alone: for any other caller
    [registerAgent], [setVault] and [renounceOwnership] revert with
    [NotOwner], and no call of such a caller, whatever the function,
    changes the owner, the vault, or who is registered. *)
Theorem X_owner_only :
  forall e w,
    msg_sender e <> owner (engine w) ->
    (forall agent, registerAgent e w agent = Err NotOwner) /\
    (forall v, setVault e w v = Err NotOwner) /\
    renounceOwnership e w = Err NotOwner /\
    (forall call w',
       exec e w call = Ok w' ->
       owner (engine w') = owner (engine w) /\
       vault (engine w') = vault (engine w) /\
       forall a, registered (getAgentInfo (engine w') a)
                 = registered (getAgentInfo (engine w) a)).
Proof.
  intros e w Hne.
  assert (Hb : (msg_sender e =? owner (engine w)) = false)
    by (apply N.eqb_neq; assumption).
  split; [|split; [|split]].
  - intros agent. unfold registerAgent. cbv zeta. rewrite Hb. reflexivity.
  - intros v. unfold setVault. cbv zeta. rewrite Hb. reflexivity.
  - unfold renounceOwnership. cbv zeta. rewrite Hb. reflexivity.
  - intros call w' Hexec.
    destruct (exec_admin_cases _ _ _ _ Hexec) as (Ho & Hv & Hr).
    split; [|split].
    + destruct Ho as [Ho | (_ & Hs & _)]; [assumption | contradiction].
    + destruct Hv as [Hv | (Hs & _)]; [assumption | contradiction].
    + intros a. destruct (Hr a) as [Ha | (Hs & _)];
        [assumption | contradiction].
Qed.

Lemma X_owner_only_witness :
  registerAgent (env_of Scenario.start Scenario.mo) (world Scenario.start)
                Scenario.stranger
  = Err NotOwner.
Proof.
  exact (proj1 (X_owner_only (env_of Scenario.start Scenario.mo)
                  (world Scenario.start) ltac:(vm_compute; discriminate))
               Scenario.stranger).
Defined.

(** X15.  Renouncing ownership is final: once the owner is the zero
    address, no steps sent from other addresses ever set an owner again,
    change the vault, or register another agent. *)
Theorem X_renounced_forever :
  forall l c,
    owner (engine (world c)) = 0 ->
    from_accounts l ->
    owner (engine (world (run c l))) = 0 /\
    vault (engine (world (run c l))) = vault (engine (world c)) /\
    forall a, registered (getAgentInfo (engine (world (run c l))) a)
              = registered (getAgentInfo (engine (world c)) a).
Proof.
  induction l as [| st l IH]; intros c Hzero Hacc.
  - simpl. auto.
  - rewrite run_cons. inversion Hacc as [| ? ? Hst Hrest]; subst.
    assert (Hone : owner (engine (world (step c st))) = 0 /\
                   vault (engine (world (step c st)))
                   = vault (engine (world c)) /\
                   forall a,
                     registered (getAgentInfo (engine (world (step c st))) a)
                     = registered (getAgentInfo (engine (world c)) a)).
    { destruct (step_cases c st)
        as (_ & _ & _ & [Hw | (sender & call & Heq & _ & Hexec)]).
      - rewrite Hw. auto.
      - destruct (exec_admin_cases _ _ _ _ Hexec) as (Ho & Hv & Hr).
        subst st. simpl in Hst.
        assert (Hs : msg_sender (env_of c sender) <> owner (engine (world c)))
          by (simpl; congruence).
        split; [|split].
        + destruct Ho as [Ho | (_ & _ & Ho)]; rewrite Ho;
            [assumption | reflexivity].
        + destruct Hv as [Hv | (Hv & _)]; [assumption | contradiction].
        + intros a. destruct (Hr a) as [Ha | (Ha & _)];
            [assumption | contradiction]. }
    destruct Hone as (Ho & Hv & Hr).
    destruct (IH (step c st) Ho Hrest) as (I1 & I2 & I3).
    split; [assumption|]. split; [congruence|].
    intros a. rewrite I3. apply Hr.
Qed.

Lemma X_renounced_forever_witness :
  owner (engine (world (run Board.ownerless Board.takeover))) = 0 /\
  vault (engine (world (run Board.ownerless Board.takeover)))
  = vault (engine (world Board.ownerless)) /\
  forall a,
    registered (getAgentInfo
                  (engine (world (run Board.ownerless Board.takeover))) a)
    = registered (getAgentInfo (engine (world Board.ownerless)) a).
Proof.
  exact (X_renounced_forever Board.takeover Board.ownerless
           ltac:(vm_compute; reflexivity)
           ltac:(repeat (constructor; [vm_compute; discriminate|]);
                 constructor)).
Defined.

(** ** Executions in which no identifier is derived twice *)

Lemma nodup_snoc (l : list N) x :
  List.NoDup l -> ~ In x l -> List.NoDup (l ++ [x]).
Proof.
  intros Hl Hx. apply (Permutation_NoDup (Permutation_cons_append l x)).
  constructor; assumption.
Qed.

Lemma removeFromActive_nodup s pid :
  List.NoDup (activeProposalIds s) ->
  List.NoDup (activeProposalIds (_removeFromActive s pid)) /\
  forall x, In x (activeProposalIds (_removeFromActive s pid))
            <-> In x (activeProposalIds s) /\ x <> pid.
Proof.
  intros Hnd.
  destruct (in_dec N.eq_dec pid (activeProposalIds s)) as [Hin | Hout].
  - destruct (removeFromActive_present s pid Hin)
      as (l1 & l2 & Hl & Hnot & Hperm & _).
    rewrite Hl in Hnd.
    pose proof (NoDup_remove_1 _ _ _ Hnd) as H1.
    pose proof (NoDup_remove_2 _ _ _ Hnd) as H2.
    split; [eapply Permutation_NoDup; eassumption|].
    intros x. rewrite Hl. split.
    + intros Hx. apply (Permutation_in _ (Permutation_sym Hperm)) in Hx.
      split.
      * apply in_app_iff in Hx. apply in_app_iff. simpl. tauto.
      * intros ->. contradiction.
    + intros [Hx Hne]. apply (Permutation_in _ Hperm).
      apply in_app_iff in Hx. apply in_app_iff. simpl in Hx.
      destruct Hx as [Hx | [Hx | Hx]]; auto. congruence.
  - rewrite removeFromActive_absent by assumption. split; [assumption|].
    intros x. split; [|tauto].
    intros Hx. split; [assumption | intros ->; contradiction].
Qed.

(** Closing a proposal keeps the lists in agreement with the records. *)
Lemma closed_lists s pid st :
  st <> Pending ->
  lists_agree s ->
  lists_agree (_removeFromActive
                 (set_proposal s pid (with_status (getProposal s pid) st))
                 pid).
Proof.
  intros Hst (Hall & Hact & Hiff).
  set (s0 := set_proposal s pid (with_status (getProposal s pid) st)).
  destruct (removeFromActive_nodup s0 pid Hact) as [Hnd Hin].
  unfold lists_agree. rewrite removeFromActive_all.
  split; [assumption|]. split; [assumption|].
  intros x. rewrite Hin.
  rewrite (getProposal_ext _ s0 x (removeFromActive_proposals s0 pid)).
  change (activeProposalIds s0) with (activeProposalIds s).
  change (allProposalIds s0) with (allProposalIds s).
  rewrite Hiff.
  assert (Hp : getProposal s0 x
               = if decide (pid = x) then with_status (getProposal s pid) st
                 else getProposal s x)
    by (unfold s0; storage_lookup).
  rewrite Hp. case_decide as Heq.
  - subst x. simpl. split; [intros [_ Hne]; congruence | intros [_ H]; congruence].
  - split; [tauto|]. intros [H1 H2]. repeat split; try assumption. congruence.
Qed.

Lemma emit_lists s ev : lists_agree s -> lists_agree (emit s ev).
Proof. intros H. exact H. Qed.

Lemma finalized_lists s pid st :
  lists_agree s -> lists_agree (finalized s pid st).
Proof.
  intros H. unfold finalized. cbv zeta.
  destruct st; try assumption;
    apply emit_lists, closed_lists; (discriminate || assumption).
Qed.

Lemma staked_lists e s pid amt side :
  lists_agree s -> lists_agree (staked e s pid amt side).
Proof.
  intros (Hall & Hact & Hiff). split; [assumption|]. split; [assumption|].
  intros x. rewrite staked_proposal.
  change (activeProposalIds (staked e s pid amt side))
    with (activeProposalIds s).
  change (allProposalIds (staked e s pid amt side)) with (allProposalIds s).
  rewrite Hiff. case_decide; [subst x; rewrite backed_status|]; reflexivity.
Qed.

Lemma exec_lists_agree e w call w' :
  exec e w call = Ok w' ->
  fresh_call e w call ->
  lists_agree (engine w) -> lists_agree (engine w').
Proof.
  intros Hexec Hfresh Hl. apply exec_effect in Hexec.
  effect_cases Hexec; try (rewrite He; exact Hl).
  - specialize (Hfresh tok dir st0 eq_refl).
    destruct Hl as (Hall & Hact & Hiff).
    assert (Hnot : ~ In (keccak256 e tok dir (block_timestamp e)
                                   (msg_sender e))
                        (activeProposalIds (engine w)))
      by (rewrite Hiff; tauto).
    rewrite He. unfold lists_agree.
    rewrite created_all, created_active.
    split; [apply nodup_snoc; assumption|].
    split; [apply nodup_snoc; assumption|].
    intros x. rewrite !in_snoc, created_proposal, Hiff.
    case_decide as Heq.
    + subst x. simpl. tauto.
    + split; [intros [H | H]; [tauto | congruence] |].
      intros [[H | H] Hp]; [tauto | congruence].
  - rewrite He. apply finalized_lists, staked_lists, Hl.
  - destruct Hl as (Hl1 & Hl2 & Hiff). unfold lists_agree.
    rewrite Hall, Hact. split; [assumption|]. split; [assumption|].
    intros x. rewrite (getProposal_ext _ _ x Hprop). apply Hiff.
  - rewrite He. apply emit_lists, closed_lists; [discriminate | assumption].
Qed.

Lemma orderly_reachable c : orderly c -> Chain.reachable c.
Proof. induction 1; constructor; assumption. Qed.

Lemma fresh_step c sender call :
  is_fresh c (Transact sender call) = true ->
  fresh_call (env_of c sender) (world c) call.
Proof.
  intros H tok dir st0 ->. simpl in H. simpl.
  apply negb_true_iff in H. intros Hin.
  assert (Hex : existsb (N.eqb (hash c tok dir (now c) sender))
                        (allProposalIds (engine (world c))) = true).
  { apply existsb_exists. eexists. split; [exact Hin | apply N.eqb_refl]. }
  congruence.
Qed.

Lemma orderly_run l : forall c,
  orderly c -> all_fresh c l = true -> orderly (run c l).
Proof.
  induction l as [| st l IH]; intros c Hc Hf; [assumption|].
  simpl in Hf. apply andb_true_iff in Hf. destruct Hf as [H1 H2].
  rewrite run_cons. apply IH; [constructor; assumption | assumption].
Qed.

Lemma orderly_lists c : orderly c -> lists_agree (engine (world c)).
Proof.
  induction 1 as [| c st Hc IH Hf].
  - split; [constructor|]. split; [constructor|].
    intros pid. simpl. tauto.
  - destruct (step_cases c st)
      as (_ & _ & _ & [-> | (sender & call & -> & _ & Hexec)]); [assumption|].
    eapply exec_lists_agree; [eassumption | apply fresh_step, Hf | assumption].
Qed.

(** X16.  As long as no identifier is derived twice, the engine's two
    lists agree with its records: no identifier is listed twice in
    [allProposalIds] or in [activeProposalIds], and the active list names
    exactly the listed proposals that are still Pending. *)
Theorem X_active_are_pending :
  forall c,
    orderly c ->
    let s := engine (world c) in
    List.NoDup (allProposalIds s) /\
    List.NoDup (activeProposalIds s) /\
    (forall pid,
       In pid (activeProposalIds s) <->
       In pid (allProposalIds s) /\ status (getProposal s pid) = Pending).
Proof. intros c Hc. exact (orderly_lists c Hc). Qed.

Lemma orderly_start : orderly Scenario.start.
Proof.
  unfold Scenario.start. apply orderly_run; [constructor|].
  vm_compute. reflexivity.
Qed.

Lemma orderly_three : orderly Board.three.
Proof.
  unfold Board.three. apply orderly_run; [apply orderly_start|].
  vm_compute. reflexivity.
Qed.

Lemma orderly_backing : orderly (run Board.three Board.backing).
Proof.
  apply orderly_run; [apply orderly_three|]. vm_compute. reflexivity.
Qed.

Lemma X_active_are_pending_witness :
  let s := engine (world (run Board.three Board.backing)) in
  List.NoDup (allProposalIds s) /\
  List.NoDup (activeProposalIds s) /\
  (forall pid,
     In pid (activeProposalIds s) <->
     In pid (allProposalIds s) /\ status (getProposal s pid) = Pending).
Proof.
  exact (X_active_are_pending (run Board.three Board.backing)
           orderly_backing).
Defined.

(** *** Totals and stakes *)

Lemma sum_over_snoc f s pid l a :
  sum_over f s pid (l ++ [a])
  = sum_over f s pid l + f (getStake s pid a).
Proof.
  induction l as [| b l IH]; simpl; [lia|]. rewrite IH. lia.
Qed.

Lemma sum_over_side s s' pid l side :
  (forall a, In a l ->
             amount (getStake s' pid a) = amount (getStake s pid a) /\
             isFor (getStake s' pid a) = isFor (getStake s pid a)) ->
  sum_over (side_amount side) s' pid l = sum_over (side_amount side) s pid l.
Proof.
  induction l as [| a l IH]; intros H; simpl; [reflexivity|].
  destruct (H a (or_introl eq_refl)) as [H1 H2].
  unfold side_amount at 1 3. rewrite H1, H2. rewrite IH; [reflexivity|].
  intros b Hb. apply H. right. assumption.
Qed.

Lemma exec_totals_agree e w call w' :
  exec e w call = Ok w' ->
  fresh_call e w call ->
  holders_listed (engine w) ->
  totals_agree (engine w) -> totals_agree (engine w').
Proof.
  intros Hexec Hfresh [Hhold Hun] Ht pid.
  destruct (Ht pid) as (Hnd & Hfor & Hagainst).
  apply exec_effect in Hexec.
  effect_cases Hexec;
    try (rewrite (getProposalStakers_ext (engine w') (engine w) pid)
           by (rewrite He; reflexivity);
         rewrite (getProposal_ext (engine w') (engine w) pid)
           by (rewrite He; reflexivity);
         rewrite !(sum_over_ext _ (engine w') (engine w))
           by (intros; apply getStake_ext; rewrite He; reflexivity);
         exact (Ht pid)).
  - (* createProposal *)
    specialize (Hfresh tok dir st0 eq_refl).
    destruct (Hun _ Hfresh) as [_ Hnone].
    rewrite He. rewrite created_stakers, created_proposal.
    destruct (decide (keccak256 e tok dir (block_timestamp e)
                                (msg_sender e) = pid)) as [<- | Hne].
    + rewrite Hnone. simpl. rewrite !created_stake.
      rewrite decide_True by reflexivity. simpl.
      split; [repeat constructor; intros []|].
      unfold side_amount. simpl. split; lia.
    + split; [assumption|].
      rewrite Hfor, Hagainst.
      split; symmetry; apply sum_over_ext; intros a _;
        rewrite created_stake; case_decide; congruence.
  - (* stake *)
    rewrite He.
    rewrite (getProposalStakers_ext _ _ pid (finalized_stakers _ _ _)).
    rewrite staked_stakers.
    assert (Hstk : forall f l,
               sum_over f (finalized (staked e (engine w) pid1 amt side) pid1
                             (quorum_rule
                                (totalStakeFor
                                   (backed (getProposal (engine w) pid1)
                                           amt side))
                                (totalStakeAgainst
                                   (backed (getProposal (engine w) pid1)
                                           amt side)))) pid l
               = sum_over f (staked e (engine w) pid1 amt side) pid l).
    { intros f l. apply sum_over_ext. intros a _.
      apply getStake_ext, finalized_stakes. }
    rewrite !Hstk.
    assert (Htot : forall st,
               totalStakeFor
                 (getProposal
                    (finalized (staked e (engine w) pid1 amt side) pid1 st)
                    pid)
               = totalStakeFor
                   (getProposal (staked e (engine w) pid1 amt side) pid) /\
               totalStakeAgainst
                 (getProposal
                    (finalized (staked e (engine w) pid1 amt side) pid1 st)
                    pid)
               = totalStakeAgainst
                   (getProposal (staked e (engine w) pid1 amt side) pid)).
    { intros st. rewrite finalized_proposal.
      destruct st; try (split; reflexivity);
        case_decide; subst; split; reflexivity. }
    destruct (Htot (quorum_rule
                      (totalStakeFor
                         (backed (getProposal (engine w) pid1) amt side))
                      (totalStakeAgainst
                         (backed (getProposal (engine w) pid1) amt side))))
      as [-> ->].
    rewrite staked_proposal.
    destruct (decide (pid1 = pid)) as [<- | Hne].
    + assert (Hnew : ~ In (msg_sender e)
                          (getProposalStakers (engine w) pid1))
        by (rewrite Hhold; tauto).
      split; [apply nodup_snoc; assumption|].
      rewrite !sum_over_snoc, !staked_stake.
      rewrite decide_True by reflexivity.
      assert (Hold : forall f,
                 sum_over f (staked e (engine w) pid1 amt side) pid1
                          (getProposalStakers (engine w) pid1)
                 = sum_over f (engine w) pid1
                            (getProposalStakers (engine w) pid1)).
      { intros f. apply sum_over_ext. intros a Ha. rewrite staked_stake.
        case_decide as Heq; [|reflexivity].
        injection Heq as <-. contradiction. }
      rewrite !Hold, <- Hfor, <- Hagainst.
      unfold backed, side_amount. destruct side; simpl; split; lia.
    + split; [assumption|]. rewrite Hfor, Hagainst.
      split; symmetry; apply sum_over_ext; intros a _;
        rewrite staked_stake; case_decide; congruence.
  - (* claimRewards *)
    rewrite (getProposalStakers_ext _ _ pid Hsk).
    rewrite (getProposal_ext _ _ pid Hprop).
    split; [assumption|]. rewrite Hfor, Hagainst.
    split; symmetry; apply sum_over_side; intros a _;
      unfold getStake; rewrite Hstk, lookup_insert;
      case_decide as Heq; try (split; reflexivity);
      injection Heq as <- <-; simpl; split; reflexivity.
  - (* expireProposal *)
    rewrite He.
    destruct (expired_fields (engine w) pid1)
      as (Hs1 & Hs2 & _ & _ & _ & _ & Hp).
    rewrite (getProposalStakers_ext _ _ pid Hs1), Hp.
    assert (Hsum : forall f l,
               sum_over f
                 (emit (_removeFromActive
                          (set_proposal (engine w) pid1
                             (with_status (getProposal (engine w) pid1)
                                          Expired)) pid1)
                       (ProposalExpired pid1)) pid l
               = sum_over f (engine w) pid l).
    { intros f l. apply sum_over_ext. intros a _.
      apply getStake_ext. exact Hs2. }
    rewrite !Hsum. split; [assumption|].
    case_decide; [subst pid1; simpl|]; split; assumption.
Qed.

Lemma orderly_totals c : orderly c -> totals_agree (engine (world c)).
Proof.
  induction 1 as [| c st Hc IH Hf].
  - intros pid. split; [constructor|]. split; reflexivity.
  - destruct (step_cases c st)
      as (_ & _ & _ & [-> | (sender & call & -> & _ & Hexec)]); [assumption|].
    eapply exec_totals_agree;
      [eassumption | apply fresh_step, Hf
       | apply reachable_holders, orderly_reachable, Hc | assumption].
Qed.

(** X17.  As long as no identifier is derived twice, the totals of every
    proposal are backed by its stakes: no agent is named twice among its
    stakers, [totalStakeFor] is the sum of the stakes placed for it and
    [totalStakeAgainst] the sum of the stakes placed against it. *)
Theorem X_totals_are_stakes :
  forall c pid,
    orderly c ->
    let s := engine (world c) in
    List.NoDup (getProposalStakers s pid) /\
    totalStakeFor (getProposal s pid)
    = sum_over (side_amount true) s pid (getProposalStakers s pid) /\
    totalStakeAgainst (getProposal s pid)
    = sum_over (side_amount false) s pid (getProposalStakers s pid).
Proof. intros c pid Hc. exact (orderly_totals c Hc pid). Qed.

Lemma X_totals_are_stakes_witness :
  let s := engine (world (run Board.three Board.backing)) in
  List.NoDup (getProposalStakers s Board.pidShort) /\
  totalStakeFor (getProposal s Board.pidShort)
  = sum_over (side_amount true) s Board.pidShort
             (getProposalStakers s Board.pidShort) /\
  totalStakeAgainst (getProposal s Board.pidShort)
  = sum_over (side_amount false) s Board.pidShort
             (getProposalStakers s Board.pidShort).
Proof.
  exact (X_totals_are_stakes (run Board.three Board.backing) Board.pidShort
           orderly_backing).
Defined.

(** *** The running total of an agent *)

Lemma staked_on_ext s s' a l :
  (forall x, In x l ->
             amount (getStake s' x a) = amount (getStake s x a)) ->
  staked_on s' a l = staked_on s a l.
Proof.
  induction l as [| x l IH]; intros H; simpl; [reflexivity|].
  rewrite H by (left; reflexivity). rewrite IH; [reflexivity|].
  intros y Hy. apply H. right. assumption.
Qed.

Lemma staked_on_snoc s a l x :
  staked_on s a (l ++ [x]) = staked_on s a l + amount (getStake s x a).
Proof. induction l as [| y l IH]; simpl; [lia|]. rewrite IH. lia. Qed.

Lemma staked_on_one s s' a l pid d :
  List.NoDup l -> In pid l ->
  (forall x, x <> pid ->
             amount (getStake s' x a) = amount (getStake s x a)) ->
  amount (getStake s' pid a) = amount (getStake s pid a) + d ->
  staked_on s' a l = staked_on s a l + d.
Proof.
  intros Hnd Hin Hother Hpid.
  induction l as [| x l IH]; [contradiction|].
  apply NoDup_cons_iff in Hnd. destruct Hnd as [Hx Hnd]. simpl.
  destruct Hin as [-> | Hin].
  - rewrite Hpid.
    rewrite (staked_on_ext s s' a l); [lia|].
    intros y Hy. apply Hother. intros ->. contradiction.
  - rewrite Hother by (intros ->; contradiction).
    rewrite IH by assumption. lia.
Qed.

Lemma exec_staked_agree e w call w' :
  exec e w call = Ok w' ->
  fresh_call e w call ->
  holders_listed (engine w) ->
  List.NoDup (allProposalIds (engine w)) ->
  staked_agree (engine w) -> staked_agree (engine w').
Proof.
  intros Hexec Hfresh [Hhold Hun] Hnd Hs a. specialize (Hs a).
  apply exec_effect in Hexec.
  effect_cases Hexec;
    try (rewrite (getAgentInfo_ext (engine w') (engine w) a)
           by (rewrite He; reflexivity);
         replace (allProposalIds (engine w'))
           with (allProposalIds (engine w)) by (rewrite He; reflexivity);
         rewrite (staked_on_ext (engine w) (engine w'))
           by (intros; f_equal; apply getStake_ext; rewrite He; reflexivity);
         exact Hs).
  - (* createProposal *)
    specialize (Hfresh tok dir st0 eq_refl).
    destruct (Hun _ Hfresh) as [_ Hnone].
    assert (Hzero : amount (getStake (engine w)
                              (keccak256 e tok dir (block_timestamp e)
                                         (msg_sender e)) a) = 0).
    { destruct (N.eq_dec (amount (getStake (engine w)
                              (keccak256 e tok dir (block_timestamp e)
                                         (msg_sender e)) a)) 0)
        as [Hz | Hnz]; [assumption|].
      apply Hhold in Hnz. rewrite Hnone in Hnz. contradiction. }
    rewrite He, created_all, staked_on_snoc, created_agent, created_stake.
    rewrite (staked_on_ext (engine w)).
    + destruct (decide (msg_sender e = a)) as [<- | Hne].
      * rewrite decide_True by reflexivity. simpl. lia.
      * rewrite decide_False by congruence. lia.
    + intros x Hx. rewrite created_stake.
      case_decide as Heq; [|reflexivity].
      injection Heq as <- _. contradiction.
  - (* stake *)
    assert (Hin : In pid1 (allProposalIds (engine w))).
    { destruct (in_dec N.eq_dec pid1 (allProposalIds (engine w)))
        as [Hin | Hout]; [assumption|].
      destruct (Hun _ Hout) as [Hexp _]. rewrite Hexp in Htime. lia. }
    rewrite He, finalized_all, finalized_agent, staked_agent.
    change (allProposalIds (staked e (engine w) pid1 amt side))
      with (allProposalIds (engine w)).
    rewrite (staked_on_one (engine w) _ a _ pid1
               (if decide (msg_sender e = a) then amt else 0) Hnd Hin).
    + case_decide; simpl; lia.
    + intros x Hx.
      rewrite (getStake_ext _ _ x a (finalized_stakes _ _ _)), staked_stake.
      case_decide; congruence.
    + rewrite (getStake_ext _ _ pid1 a (finalized_stakes _ _ _)), staked_stake.
      destruct (decide (msg_sender e = a)) as [<- | Hne].
      * rewrite decide_True by reflexivity. simpl. lia.
      * rewrite decide_False by congruence. lia.
  - (* claimRewards *)
    rewrite Hall, Hag.
    rewrite (staked_on_ext (engine w)).
    + case_decide; [subst a|]; [|assumption].
      unfold settled_agent. destruct (classify _ _); simpl; assumption.
    + intros x _. unfold getStake. rewrite Hstk, lookup_insert.
      case_decide as Heq; [|reflexivity]. injection Heq as <- <-. reflexivity.
  - (* expireProposal *)
    rewrite He.
    destruct (expired_fields (engine w) pid1)
      as (_ & Hs2 & Hag & Hall & _).
    rewrite Hall. rewrite (getAgentInfo_ext _ _ a Hag).
    rewrite (staked_on_ext (engine w)); [assumption|].
    intros x _. f_equal. apply getStake_ext. exact Hs2.
  - (* registerAgent *)
    rewrite He. simpl allProposalIds.
    rewrite (staked_on_ext (engine w))
      by (intros; f_equal; apply getStake_ext; reflexivity).
    rewrite <- Hs. unfold getAgentInfo. simpl. rewrite lookup_insert.
    case_decide; [subst a|]; reflexivity.
Qed.

Lemma orderly_staked c : orderly c -> staked_agree (engine (world c)).
Proof.
  induction 1 as [| c st Hc IH Hf].
  - intros a. reflexivity.
  - destruct (step_cases c st)
      as (_ & _ & _ & [-> | (sender & call & -> & _ & Hexec)]); [assumption|].
    eapply exec_staked_agree;
      [eassumption | apply fresh_step, Hf
       | apply reachable_holders, orderly_reachable, Hc
       | apply orderly_lists, Hc | assumption].
Qed.

(** X18.  As long as no identifier is derived twice, the running total
    [totalStaked] of an agent is the sum of its stakes over all listed
    proposals, open or closed, claimed or not: it is only ever added to,
    and settling a stake does not bring it down. *)
Theorem X_total_staked_is_cumulative :
  forall c a,
    orderly c ->
    totalStaked (getAgentInfo (engine (world c)) a)
    = staked_on (engine (world c)) a (allProposalIds (engine (world c))).
Proof. intros c a Hc. exact (orderly_staked c Hc a). Qed.

Lemma X_total_staked_is_cumulative_witness :
  totalStaked (getAgentInfo (engine (world (run Board.three Board.backing)))
                            Scenario.mo)
  = staked_on (engine (world (run Board.three Board.backing))) Scenario.mo
              (allProposalIds
                 (engine (world (run Board.three Board.backing)))).
Proof.
  exact (X_total_staked_is_cumulative (run Board.three Board.backing)
           Scenario.mo orderly_backing).
Defined.

(** ** The treasury's trade records *)

(** When [executeSimpleTrade] goes through. *)
Lemma executeSimpleTrade_Done sender now s pid tIn tOut aIn s' :
  Vault.executeSimpleTrade sender now s pid tIn tOut aIn = Vault.Done s' ->
  sender = Vault.consensus s /\
  Vault.isExecuted s pid = false /\
  Vault.isSupported s tIn = true /\
  aIn <> 0 /\
  s' = Vault.mkState (Vault.consensus s) (Vault.owner s)
         (Vault.supportedTokens s)
         (Vault.trades s ++ [Vault.mkTrade pid tIn tOut aIn 0 now])
         (<[pid := true]> (Vault.executedProposals s))
         (Vault.logs s ++ [Vault.TradeExecuted pid tIn tOut aIn 0]).
Proof.
  unfold Vault.executeSimpleTrade.
  destruct (sender =? Vault.consensus s) eqn:Hs; simpl; [|discriminate].
  destruct (Vault.isExecuted s pid) eqn:He; [discriminate|].
  destruct (Vault.isSupported s tIn) eqn:Ht; simpl; [|discriminate].
  destruct (aIn =? 0) eqn:Ha; [discriminate|].
  intros [= <-]. apply N.eqb_eq in Hs. apply N.eqb_neq in Ha. auto.
Qed.

(** What a transaction that goes through does to the trade records. *)
Lemma vault_exec_cases tx s s' :
  Vault.exec tx s = Vault.Done s' ->
  (Vault.trades s' = Vault.trades s /\
   Vault.executedProposals s' = Vault.executedProposals s) \/
  exists pid tIn tOut aIn,
    Vault.isExecuted s pid = false /\ aIn <> 0 /\
    Vault.trades s'
    = Vault.trades s
      ++ [Vault.mkTrade pid tIn tOut aIn 0 (Vault.timestamp tx)] /\
    Vault.executedProposals s' = <[pid := true]> (Vault.executedProposals s).
Proof.
  unfold Vault.exec. destruct (Vault.call tx) as [pid tIn tOut aIn | c | t b |].
  - intros H. apply executeSimpleTrade_Done in H.
    destruct H as (_ & He & _ & Ha & ->). right. exists pid, tIn, tOut, aIn.
    auto.
  - unfold Vault.setConsensus.
    destruct (negb _); [discriminate|]. destruct (c =? 0); [discriminate|].
    intros [= <-]. left. auto.
  - unfold Vault.setSupportedToken.
    destruct (negb _); [discriminate|]. destruct (t =? 0); [discriminate|].
    intros [= <-]. left. auto.
  - unfold Vault.renounceOwnership.
    destruct (negb _); [discriminate|]. intros [= <-]. left. auto.
Qed.

Lemma vault_step_cases s tx :
  Vault.step s tx = s \/ Vault.exec tx s = Vault.Done (Vault.step s tx).
Proof.
  unfold Vault.step. destruct (Vault.exec tx s); [right | left]; reflexivity.
Qed.

Lemma vault_step_executed s tx pid :
  Vault.isExecuted s pid = true ->
  Vault.isExecuted (Vault.step s tx) pid = true.
Proof.
  intros H. destruct (vault_step_cases s tx) as [-> | Hexec]; [assumption|].
  destruct (vault_exec_cases _ _ _ Hexec)
    as [[_ Heq] | (p & tIn & tOut & aIn & _ & _ & _ & Heq)];
    unfold Vault.isExecuted in *; rewrite Heq; [assumption|].
  rewrite lookup_insert. case_decide; [reflexivity | assumption].
Qed.

Lemma vault_run_executed l : forall s pid,
  Vault.isExecuted s pid = true ->
  Vault.isExecuted (Vault.run s l) pid = true.
Proof.
  induction l as [| tx l IH]; intros s pid H; [assumption|].
  simpl. apply IH, vault_step_executed, H.
Qed.

(** X19.  A proposal is traded at most once.  After [executeSimpleTrade]
    has gone through for a proposal, whatever transactions follow, the
    function never goes through for that proposal again: the consensus
    contract of the day is answered [AlreadyExecuted], anyone else
    [NotConsensus]. *)
Theorem X_vault_trade_once :
  forall l sender now s pid tIn tOut aIn s1,
    Vault.executeSimpleTrade sender now s pid tIn tOut aIn = Vault.Done s1 ->
    forall sender' now' tIn' tOut' aIn',
      Vault.executeSimpleTrade sender' now' (Vault.run s1 l) pid tIn' tOut'
                               aIn'
      = Vault.Reverted
          (if sender' =? Vault.consensus (Vault.run s1 l)
           then Vault.AlreadyExecuted else Vault.NotConsensus).
Proof.
  intros l sender now s pid tIn tOut aIn s1 H sender' now' tIn' tOut' aIn'.
  apply executeSimpleTrade_Done in H. destruct H as (_ & _ & _ & _ & ->).
  set (s1 := Vault.mkState _ _ _ _ _ _).
  assert (Hex : Vault.isExecuted s1 pid = true).
  { unfold Vault.isExecuted, s1. simpl. rewrite lookup_insert_eq. reflexivity. }
  apply (vault_run_executed l) in Hex.
  unfold Vault.executeSimpleTrade.
  destruct (sender' =? _); simpl; [|reflexivity].
  rewrite Hex. reflexivity.
Qed.

Lemma X_vault_trade_once_witness :
  Vault.executeSimpleTrade Scenario.mo 1050
    (Vault.run Treasury.traded Treasury.later) Scenario.pidLong
    Treasury.weth 0 700
  = Vault.Reverted Vault.AlreadyExecuted.
Proof.
  pose proof (X_vault_trade_once Treasury.later Scenario.engineAddr 1010
                (Vault.run (Vault.deploy Scenario.deployer
                                         Scenario.engineAddr)
                   [Vault.mkTx Scenario.deployer 1000
                      (Vault.SetSupportedToken Treasury.weth true)])
                Scenario.pidLong Treasury.weth 0 500 Treasury.traded
                ltac:(vm_compute; reflexivity)
                Scenario.mo 1050 Treasury.weth 0 700) as H.
  etransitivity; [exact H|]. vm_compute. reflexivity.
Defined.

Lemma vault_exec_books tx s s' :
  Vault.exec tx s = Vault.Done s' -> Vault.books s -> Vault.books s'.
Proof.
  intros Hexec (Hnd & Hiff & Hall).
  destruct (vault_exec_cases _ _ _ Hexec)
    as [[Ht He] | (p & tIn & tOut & aIn & Hno & Ha & Ht & He)];
    unfold Vault.books, Vault.isExecuted in *; rewrite Ht, He.
  - auto.
  - rewrite map_app. simpl.
    assert (Hnot : ~ In p (map Vault.proposalId (Vault.trades s))).
    { rewrite <- Hiff. rewrite Hno. discriminate. }
    split; [apply nodup_snoc; assumption|]. split.
    + intros x. rewrite in_snoc, lookup_insert, <- Hiff.
      case_decide; split; auto.
      intros [Hx | Hx]; [assumption | congruence].
    + apply Forall_app. split; [assumption|]. repeat constructor. assumption.
Qed.

(** X20.  Along any sequence of [executeSimpleTrade], [setConsensus],
    [setSupportedToken] and [renounceOwnership] transactions from
    deployment, the trade records are consistent: no proposal has two
    records, a proposal is marked executed exactly when a record exists
    for it, and every record has a non-zero input amount and output
    amount zero. *)
Theorem X_vault_books :
  forall s,
    Vault.reachable s ->
    List.NoDup (map Vault.proposalId (Vault.trades s)) /\
    (forall pid, Vault.isExecuted s pid = true
                 <-> In pid (map Vault.proposalId (Vault.trades s))) /\
    Forall (fun t => Vault.amountIn t <> 0 /\ Vault.amountOut t = 0)
           (Vault.trades s).
Proof.
  induction 1 as [deployer c | s tx Hr IH].
  - split; [constructor|]. split; [|constructor].
    intros pid. simpl. unfold Vault.isExecuted. simpl.
    rewrite lookup_empty. simpl. split; [discriminate | tauto].
  - destruct (vault_step_cases s tx) as [-> | Hexec]; [assumption|].
    exact (vault_exec_books _ _ _ Hexec IH).
Qed.

Lemma vault_reachable_run l : forall s,
  Vault.reachable s -> Vault.reachable (Vault.run s l).
Proof.
  induction l as [| tx l IH]; intros s Hs; [assumption|].
  simpl. apply IH. constructor. assumption.
Qed.

Lemma X_vault_books_witness :
  List.NoDup (map Vault.proposalId (Vault.trades Treasury.traded)) /\
  (forall pid, Vault.isExecuted Treasury.traded pid = true
               <-> In pid (map Vault.proposalId
                               (Vault.trades Treasury.traded))) /\
  Forall (fun t => Vault.amountIn t <> 0 /\ Vault.amountOut t = 0)
         (Vault.trades Treasury.traded).
Proof.
  exact (X_vault_books Treasury.traded
           (vault_reachable_run _ _ (Vault.reachable_deploy _ _))).
Defined.
